(** * PRECOG-Edge: state estimation, trajectory forecasting and collision
      decisioning

    A shallow embedding of [state_estimator.py], [predictor.py], [safety.py]
    and the per-frame loop of [main.py].

    Number model.  Python [float] values are modelled as real numbers ([R]):
    rounding error, NaN and infinities are outside the model.  Python [int]
    values are modelled as [Z].  [math.hypot] / [np.hypot] is the Euclidean
    norm [sqrt (x*x + y*y)].  Comparisons of floats are decided with
    [Rlt_dec].  Exceptions are an explicit [result] type. *)

From Stdlib Require Import Reals Lra Lia ZArith List Bool Permutation Sorted.
Import ListNotations.

Open Scope R_scope.

(** ** Exceptions as values *)

Inductive exn : Type :=
| LinAlgError   (* numpy.linalg.LinAlgError: singular matrix *)
| ValueError    (* deque(maxlen < 0) *)
| IndexError.   (* list index out of range *)

Inductive result (A : Type) : Type :=
| Ok  (a : A)
| Raise (e : exn).
Arguments Ok {A} a.
Arguments Raise {A} e.

Definition bind {A B : Type} (r : result A) (k : A -> result B) : result B :=
  match r with
  | Ok a => k a
  | Raise e => Raise e
  end.

Notation "'do' x <- r ; k" := (bind r (fun x => k))
  (at level 10, x name, r at level 100, k at level 200).

(** ** Numeric helpers shared by the modules *)

Definition Rltb (a b : R) : bool := if Rlt_dec a b then true else false.

(** [math.hypot] and [np.hypot]. *)
Definition hypot (a b : R) : R := sqrt (a * a + b * b).

(** Python's [int(x)] on a float: truncation toward zero. *)
Definition py_int (r : R) : Z :=
  if Rle_dec 0 r then Int_part r else (- Int_part (- r))%Z.

(** Python's [max(a, b)] on two floats: [b] when [b > a], else [a]. *)
Definition py_max (a b : R) : R := if Rltb a b then b else a.

(** [range(lo, hi)]. *)
Definition py_range (lo hi : Z) : list Z :=
  map (fun k => (lo + Z.of_nat k)%Z) (seq 0 (Z.to_nat (hi - lo))).

(** [list.sort(key=...)]: a stable sort on an integer key. *)
Section StableSort.
Context {A : Type} (key : A -> Z).

Fixpoint insert_by (e : A) (l : list A) : list A :=
  match l with
  | [] => [e]
  | x :: r => if (key e <=? key x)%Z then e :: x :: r else x :: insert_by e r
  end.

Definition sort_by (l : list A) : list A := fold_right insert_by [] l.
End StableSort.

(** A Python [dict] as an association list in insertion order: assigning to
    a key that is present replaces its value in place, a new key goes last. *)
Section Dict.
Context {K V : Type} (eqb : K -> K -> bool).

Fixpoint dict_set (k : K) (v : V) (d : list (K * V)) : list (K * V) :=
  match d with
  | [] => [(k, v)]
  | (k', v') :: r =>
      if eqb k k' then (k', v) :: r else (k', v') :: dict_set k v r
  end.

Fixpoint dict_get (k : K) (d : list (K * V)) : option V :=
  match d with
  | [] => None
  | (k', v') :: r => if eqb k k' then Some v' else dict_get k r
  end.

Definition dict_del (k : K) (d : list (K * V)) : list (K * V) :=
  filter (fun kv => negb (eqb k (fst kv))) d.
End Dict.

(** Membership in a Python [set] of integers, kept as a list. *)
Definition set_mem (i : Z) (s : list Z) : bool := existsb (Z.eqb i) s.

(** ** safety.py *)

Module Safety.

Record CollisionEvent : Type := mkEvent {
  track_id     : Z;
  impact_frame : Z;
  impact_point : Z * Z;
  severity     : R
}.

Record SafetyMonitor : Type := mkMonitor {
  zone_center : R * R;
  radius      : R
}.

(** [SafetyMonitor.__init__]: stores its arguments. *)
Definition init (zone_center : R * R) (radius : R) : result SafetyMonitor :=
  Ok (mkMonitor zone_center radius).

(** The loop of [check_track]; [i] is the index [enumerate] has reached. *)
Fixpoint scan (m : SafetyMonitor) (tid : Z) (i : Z)
         (future_points : list (R * R)) : option CollisionEvent :=
  match future_points with
  | [] => None
  | (fx, fy) :: rest =>
      let '(cx, cy) := zone_center m in
      let dist := hypot (fx - cx) (fy - cy) in
      if Rltb dist (radius m) then
        let severity := py_max 0 (1 - dist / radius m) in
        Some (mkEvent tid (i + 1) (py_int fx, py_int fy) severity)
      else scan m tid (i + 1) rest
  end.

Definition check_track (m : SafetyMonitor) (tid : Z)
           (future_points : list (R * R)) : option CollisionEvent :=
  scan m tid 0 future_points.

(** The collecting loop of [check_all], over [tracks.items()] in order. *)
Fixpoint collect (m : SafetyMonitor) (tracks : list (Z * list (R * R)))
  : list CollisionEvent :=
  match tracks with
  | [] => []
  | (tid, pts) :: rest =>
      match check_track m tid pts with
      | Some ev => ev :: collect m rest
      | None => collect m rest
      end
  end.

Definition check_all (m : SafetyMonitor) (tracks : list (Z * list (R * R)))
  : list CollisionEvent :=
  sort_by impact_frame (collect m tracks).

End Safety.

(** ** predictor.py *)

Module Predictor.

Definition predict_linear (cx cy vx vy : R) (horizon : Z) : list (R * R) :=
  map (fun t => (cx + vx * IZR t, cy + vy * IZR t)) (py_range 1 (horizon + 1)).

Record TrajectoryPredictor : Type := mkPredictor {
  horizon     : Z;
  history_len : Z;
  vx_hist     : list R;
  vy_hist     : list R
}.

(** [TrajectoryPredictor.__init__]; [deque(maxlen=n)] raises [ValueError]
    for a negative [n], nothing else is checked. *)
Definition init (history_len horizon : Z) : result TrajectoryPredictor :=
  if (history_len <? 0)%Z then Raise ValueError
  else Ok (mkPredictor horizon history_len [] []).

(** [deque.append] on a deque of bound [maxlen]. *)
Definition deque_append (maxlen : Z) (d : list R) (v : R) : list R :=
  if (maxlen =? 0)%Z then d
  else if (Z.of_nat (length d) <? maxlen)%Z then d ++ [v]
  else tl d ++ [v].

(** [np.diff] on a one-dimensional array. *)
Fixpoint np_diff (a : list R) : list R :=
  match a with
  | x :: ((y :: _) as rest) => (y - x) :: np_diff rest
  | _ => []
  end.

Definition np_sum (a : list R) : R := fold_right Rplus 0 a.

(** [np.mean] on a one-dimensional array. *)
Definition np_mean (a : list R) : R := np_sum a / INR (length a).

(** [np.clip] on a scalar: [minimum(maximum(a, lo), hi)]. *)
Definition np_clip (a lo hi : R) : R := Rmin (Rmax a lo) hi.

Definition MAX_A : R := 2.

Definition update_and_predict (p : TrajectoryPredictor) (cx cy vx vy : R)
  : TrajectoryPredictor * list (R * R) :=
  let vxh := deque_append (history_len p) (vx_hist p) vx in
  let vyh := deque_append (history_len p) (vy_hist p) vy in
  let p' := mkPredictor (horizon p) (history_len p) vxh vyh in
  if (Z.of_nat (length vxh) <? 2)%Z then
    (p', predict_linear cx cy vx vy (horizon p))
  else
    let ax := np_clip (np_mean (np_diff vxh)) (- MAX_A) MAX_A in
    let ay := np_clip (np_mean (np_diff vyh)) (- MAX_A) MAX_A in
    (p', map (fun t => (cx + vx * IZR t + (1 / 2) * ax * IZR t * IZR t,
                        cy + vy * IZR t + (1 / 2) * ay * IZR t * IZR t))
             (py_range 1 (horizon p + 1))).

End Predictor.

(** ** state_estimator.py: the per-object filter *)

Module Kalman.

(** A numpy 2-D array, row by row.  The operations below are used on the
    shapes of the source only (4x4, 4x1, 2x4, 4x2, 2x2, 2x1), where they
    agree with numpy. *)
Definition matrix : Type := list (list R).

Definition ncols (m : matrix) : nat := length (hd [] m).
Definition col (j : nat) (m : matrix) : list R := map (fun r => nth j r 0) m.
Definition dot (u v : list R) : R :=
  fold_right Rplus 0 (map (fun p => fst p * snd p) (combine u v)).

(** [a @ b] *)
Definition matmul (a b : matrix) : matrix :=
  map (fun r => map (fun j => dot r (col j b)) (seq 0 (ncols b))) a.

(** [a.T] *)
Definition transpose (a : matrix) : matrix :=
  map (fun j => col j a) (seq 0 (ncols a)).

Definition zip_with (f : R -> R -> R) (u v : list R) : list R :=
  map (fun p => f (fst p) (snd p)) (combine u v).

(** [a + b], [a - b], [a * q] *)
Definition madd (a b : matrix) : matrix :=
  map (fun p => zip_with Rplus (fst p) (snd p)) (combine a b).
Definition msub (a b : matrix) : matrix :=
  map (fun p => zip_with Rminus (fst p) (snd p)) (combine a b).
Definition mscale (a : matrix) (q : R) : matrix := map (map (fun v => v * q)) a.

(** [np.eye(n)] *)
Definition eye (n : nat) : matrix :=
  map (fun i => map (fun j => if Nat.eqb i j then 1 else 0) (seq 0 n)) (seq 0 n).

(** [m[i, j]] *)
Definition entry (m : matrix) (i j : nat) : R := nth j (nth i m []) 0.

Definition Req_b (a b : R) : bool := if Req_dec_T a b then true else false.

(** [np.linalg.inv] on the 2x2 arrays the filter passes to it: a singular
    array raises [LinAlgError].  (The innovation covariance is the only
    argument in the source, and it is 2x2.) *)
Definition inv (s : matrix) : result matrix :=
  match s with
  | [[a; b]; [c; d]] =>
      let det := a * d - b * c in
      if Req_b det 0 then Raise LinAlgError
      else Ok [[d / det; - b / det]; [- c / det; a / det]]
  | _ => Raise LinAlgError
  end.

Definition dt : R := 1.

Definition F : matrix :=
  [[1; 0; dt; 0];
   [0; 1; 0; dt];
   [0; 0; 1; 0];
   [0; 0; 0; 1]].

Definition H : matrix :=
  [[1; 0; 0; 0];
   [0; 1; 0; 0]].

Definition Q : matrix := mscale (eye 4) 1.
Definition Rm : matrix := mscale (eye 2) 10.

Definition max_missed : Z := 10.

Record ObjectKalman : Type := mkKalman {
  x      : matrix;   (* 4x1 state: x, y, vx, vy *)
  P      : matrix;   (* 4x4 covariance *)
  age    : Z;
  missed : Z
}.

(** [ObjectKalman.__init__] *)
Definition init (cx cy : R) : ObjectKalman :=
  mkKalman [[cx]; [cy]; [0]; [0]] (mscale (eye 4) 500) 0 0.

Definition predict (k : ObjectKalman) : ObjectKalman :=
  mkKalman (matmul F (x k))
           (madd (matmul (matmul F (P k)) (transpose F)) Q)
           (age k + 1)
           (missed k + 1).

(** The innovation covariance [S] of [update]. *)
Definition innovation_cov (k : ObjectKalman) : matrix :=
  madd (matmul (matmul H (P k)) (transpose H)) Rm.

(** [update] returns the filter as the call leaves it, with the outcome of
    the call: [np.linalg.inv] raises before any attribute is assigned. *)
Definition update (k : ObjectKalman) (cx cy : R) : ObjectKalman * result unit :=
  let z := [[cx]; [cy]] in
  let S := innovation_cov k in
  match inv S with
  | Raise e => (k, Raise e)
  | Ok Sinv =>
      let K := matmul (matmul (P k) (transpose H)) Sinv in
      let y := msub z (matmul H (x k)) in
      (mkKalman (madd (x k) (matmul K y))
                (matmul (msub (eye 4) (matmul K H)) (P k))
                (age k)
                0%Z,
       Ok tt)
  end.

Definition position (k : ObjectKalman) : R * R := (entry (x k) 0 0, entry (x k) 1 0).
Definition velocity (k : ObjectKalman) : R * R := (entry (x k) 2 0, entry (x k) 3 0).
Definition speed (k : ObjectKalman) : R :=
  let '(vx, vy) := velocity k in hypot vx vy.
Definition stale (k : ObjectKalman) : bool := (max_missed <=? missed k)%Z.

End Kalman.

(** ** state_estimator.py: the multi-object manager *)

Module Estimator.
Import Kalman.

(** A detection [(cx, cy, w, h)] as [MotionTracker.detect] produces it:
    four integers (a bounding rectangle and its integer centre). *)
Record Detection : Type := mkDet {
  det_cx : Z;
  det_cy : Z;
  det_w  : Z;
  det_h  : Z
}.

Record StateEstimator : Type := mkEstimator {
  tracks       : list ObjectKalman;
  max_distance : R;
  next_id      : Z;
  track_ids    : list Z
}.

(** The dict that [update] returns for one live track. *)
Record TrackState : Type := mkState {
  s_id    : Z;
  s_cx    : R;
  s_cy    : R;
  s_vx    : R;
  s_vy    : R;
  s_speed : R;
  s_w     : Z;
  s_h     : Z;
  s_age   : Z
}.

Definition init (max_distance : R) : StateEstimator :=
  mkEstimator [] max_distance 0 [].

(** The inner loop of step 2: [best] is [(best_dist, best_tidx)], [ti] the
    index [enumerate] has reached. *)
Fixpoint find_best (cx cy : R) (matched_track_idx : list Z) (ti : Z)
         (ts : list ObjectKalman) (best : R * Z) : R * Z :=
  match ts with
  | [] => best
  | track :: rest =>
      if set_mem ti matched_track_idx then
        find_best cx cy matched_track_idx (ti + 1) rest best
      else
        let '(tx, ty) := position track in
        let dist := hypot (cx - tx) (cy - ty) in
        if Rltb dist (fst best) then
          find_best cx cy matched_track_idx (ti + 1) rest (dist, ti)
        else
          find_best cx cy matched_track_idx (ti + 1) rest best
  end.

(** [self.tracks[i].update(cx, cy)] *)
Fixpoint update_at (i : nat) (cx cy : R) (ts : list ObjectKalman)
  : result (list ObjectKalman) :=
  match ts, i with
  | [], _ => Raise IndexError
  | t :: rest, O =>
      let '(t', r) := Kalman.update t cx cy in
      do _ <- r; Ok (t' :: rest)
  | t :: rest, S j =>
      do rest' <- update_at j cx cy rest; Ok (t :: rest')
  end.

(** The state of the outer loop of step 2. *)
Record Assoc : Type := mkAssoc {
  a_tracks            : list ObjectKalman;
  matched_track_idx   : list Z;
  matched_det_idx     : list Z
}.

(** One iteration of the outer loop of step 2, for detection number [di]. *)
Definition associate_one (max_distance : R) (di : Z) (d : Detection)
           (a : Assoc) : result Assoc :=
  let cx := IZR (det_cx d) in
  let cy := IZR (det_cy d) in
  let best_tidx :=
    snd (find_best cx cy (matched_track_idx a) 0 (a_tracks a)
                   (max_distance, (-1)%Z)) in
  if (0 <=? best_tidx)%Z then
    do ts <- update_at (Z.to_nat best_tidx) cx cy (a_tracks a);
    Ok (mkAssoc ts (best_tidx :: matched_track_idx a)
                (di :: matched_det_idx a))
  else Ok a.

Fixpoint associate (max_distance : R) (di : Z) (dets : list Detection)
         (a : Assoc) : result Assoc :=
  match dets with
  | [] => Ok a
  | d :: rest =>
      do a' <- associate_one max_distance di d a;
      associate max_distance (di + 1) rest a'
  end.

(** Step 3, on [(tracks, track_ids, _next_id)]. *)
Fixpoint birth (matched_det_idx : list Z) (di : Z) (dets : list Detection)
         (st : list ObjectKalman * list Z * Z)
  : list ObjectKalman * list Z * Z :=
  match dets with
  | [] => st
  | d :: rest =>
      let '(ts, ids, nid) := st in
      if set_mem di matched_det_idx then
        birth matched_det_idx (di + 1) rest st
      else
        birth matched_det_idx (di + 1) rest
              (ts ++ [Kalman.init (IZR (det_cx d)) (IZR (det_cy d))],
               ids ++ [nid], (nid + 1)%Z)
  end.

(** Step 4: the list [alive]. *)
Definition alive (ts : list ObjectKalman) (ids : list Z)
  : list (ObjectKalman * Z) :=
  filter (fun a => negb (stale (fst a))) (combine ts ids).

Definition key_eqb (a b : Z * Z) : bool :=
  ((fst a =? fst b) && (snd a =? snd b))%Z.

(** Step 5: [round] is the identity on the integers of a detection. *)
Fixpoint det_map (dets : list Detection) (acc : list ((Z * Z) * (Z * Z)))
  : list ((Z * Z) * (Z * Z)) :=
  match dets with
  | [] => acc
  | d :: rest =>
      det_map rest (dict_set key_eqb (det_cx d, det_cy d) (det_w d, det_h d) acc)
  end.

(** The inner loop of step 6: [best] is [(best_d, best_wh)]. *)
Fixpoint closest (px py : R) (items : list ((Z * Z) * (Z * Z)))
         (best : R * (Z * Z)) : R * (Z * Z) :=
  match items with
  | [] => best
  | ((dcx, dcy), (dw, dh)) :: rest =>
      let d := hypot (px - IZR dcx) (py - IZR dcy) in
      if Rltb d (fst best) then closest px py rest (d, (dw, dh))
      else closest px py rest best
  end.

Definition report (dm : list ((Z * Z) * (Z * Z))) (a : ObjectKalman * Z)
  : TrackState :=
  let '(track, tid) := a in
  let '(px, py) := position track in
  let '(vx, vy) := velocity track in
  let best_wh := snd (closest px py dm (9999, (40%Z, 40%Z))) in
  mkState tid px py vx vy (speed track) (fst best_wh) (snd best_wh) (age track).

Definition update (s : StateEstimator) (detections : list Detection)
  : result (StateEstimator * list TrackState) :=
  (* 1. predict *)
  let ts1 := map predict (tracks s) in
  (* 2. match *)
  do a <- associate (max_distance s) 0 detections (mkAssoc ts1 [] []);
  (* 3. birth *)
  let '(ts3, ids3, nid) :=
    birth (matched_det_idx a) 0 detections (a_tracks a, track_ids s, next_id s) in
  (* 4. prune *)
  let al := alive ts3 ids3 in
  let s' := mkEstimator (map fst al) (max_distance s) nid (map snd al) in
  (* 5, 6. sizes and reports *)
  let dm := det_map detections [] in
  Ok (s', map (report dm) (combine (tracks s') (track_ids s'))).

End Estimator.

(** ** main.py: the per-frame loop, steps 2 to 4 *)

Module Pipeline.
Import Estimator.

Definition HORIZON : Z := 40.
Definition ZONE_RADIUS : R := 120.

Record Pipeline : Type := mkPipeline {
  estimator  : StateEstimator;
  safety     : Safety.SafetyMonitor;
  predictors : list (Z * Predictor.TrajectoryPredictor)
}.

(** What one iteration of the loop hands to the actuator and the UI. *)
Record FrameOutput : Type := mkOutput {
  states        : list TrackState;
  track_futures : list (Z * list (R * R));
  events        : list Safety.CollisionEvent;
  danger        : bool
}.

(** The set-up of [main] before the loop. *)
Definition start (zone_center : R * R) : result Pipeline :=
  do m <- Safety.init zone_center ZONE_RADIUS;
  Ok (mkPipeline (Estimator.init 80) m []).

(** Step 3: one forecast per live track, on [(predictors, track_futures)]. *)
Fixpoint forecast (sts : list TrackState)
         (acc : list (Z * Predictor.TrajectoryPredictor) * list (Z * list (R * R)))
  : result (list (Z * Predictor.TrajectoryPredictor) * list (Z * list (R * R))) :=
  match sts with
  | [] => Ok acc
  | s :: rest =>
      let '(preds, futures) := acc in
      let tid := s_id s in
      do p <- match dict_get Z.eqb tid preds with
              | Some p => Ok p
              | None => Predictor.init 8 HORIZON
              end;
      let '(p', future) :=
        Predictor.update_and_predict p (s_cx s) (s_cy s) (s_vx s) (s_vy s) in
      forecast rest (dict_set Z.eqb tid p' preds, dict_set Z.eqb tid future futures)
  end.

(** The forecasters of tracks that are gone are deleted. *)
Definition drop_dead (sts : list TrackState)
           (preds : list (Z * Predictor.TrajectoryPredictor))
  : list (Z * Predictor.TrajectoryPredictor) :=
  let ids := map s_id sts in
  let dead := filter (fun k => negb (set_mem k ids)) (map fst preds) in
  fold_left (fun d k => dict_del Z.eqb k d) dead preds.

(** [danger = len(events) > 0] *)
Definition danger_flag (evs : list Safety.CollisionEvent) : bool :=
  (0 <? Z.of_nat (length evs))%Z.

Definition frame (pl : Pipeline) (detections : list Detection)
  : result (Pipeline * FrameOutput) :=
  do r <- Estimator.update (estimator pl) detections;
  let '(est, sts) := r in
  do f <- forecast sts (predictors pl, []);
  let '(preds, futures) := f in
  let preds' := drop_dead sts preds in
  let evs := Safety.check_all (safety pl) futures in
  Ok (mkPipeline est (safety pl) preds',
      mkOutput sts futures evs (danger_flag evs)).

(** The loop on a finite run of frames, with the outputs in frame order. *)
Fixpoint run (pl : Pipeline) (frames : list (list Detection))
  : result (Pipeline * list FrameOutput) :=
  match frames with
  | [] => Ok (pl, [])
  | d :: rest =>
      do r <- frame pl d;
      do r' <- run (fst r) rest;
      Ok (fst r', snd r :: snd r')
  end.

End Pipeline.

(** ** main.py: the robot actuator (step 5) and the colours of the UI *)

Module Actuator.

Definition ROBOT_SPEED : Z := 3.

(** The arm: [robot_x] and [robot_dir] of [main]. *)
Record Robot : Type := mkRobot {
  robot_x   : Z;
  robot_dir : Z
}.

(** The arm before the loop, and after the key [R]. *)
Definition rest : Robot := mkRobot 20 1.

(** Step 5 of one frame, for a frame width [w_frame]. *)
Definition step (w_frame : Z) (danger : bool) (r : Robot) : Robot :=
  if negb danger then
    let x := (robot_x r + ROBOT_SPEED * robot_dir r)%Z in
    if (w_frame - 10 <=? x + 80)%Z then mkRobot x (-1)
    else if (x <=? 10)%Z then mkRobot x 1
    else mkRobot x (robot_dir r)
  else r.

(** The arm over a run of frames, given the danger flag of each. *)
Definition drive (w_frame : Z) (dangers : list bool) (r : Robot) : Robot :=
  fold_left (fun r0 d => step w_frame d r0) dangers r.

End Actuator.

Module Display.

Definition SPEED_HIGH : R := 8.

(** Python's [min(a, b)] on two floats: [b] when [b < a], else [a]. *)
Definition py_min (a b : R) : R := if Rltb b a then b else a.

(** [speed_color]: the BGR colour of a track's box. *)
Definition speed_color (speed : R) : Z * Z * Z :=
  let t := py_min (speed / SPEED_HIGH) 1 in
  (0%Z, py_int (255 * (1 - t * (7 / 10))), py_int (255 * t)).

(** [max(events, key=lambda e: e.severity)] on a list with first element
    [best]: the first event of greatest severity. *)
Fixpoint max_severity (best : Safety.CollisionEvent)
         (events : list Safety.CollisionEvent) : Safety.CollisionEvent :=
  match events with
  | [] => best
  | e :: rest =>
      if Rltb (Safety.severity best) (Safety.severity e)
      then max_severity e rest
      else max_severity best rest
  end.

(** What [SafetyMonitor.draw_zone] hands to the drawing calls: the colour
    and thickness of the zone circle and, when there are events, the opacity
    of the fill and the impact point that is marked. *)
Record ZoneStyle : Type := mkStyle {
  color     : Z * Z * Z;
  thickness : Z;
  fill      : option (R * (Z * Z))
}.

Definition zone_style (events : list Safety.CollisionEvent) : ZoneStyle :=
  match events with
  | [] => mkStyle (0%Z, 220%Z, 220%Z) 2 None
  | e :: rest =>
      let worst := max_severity e rest in
      let urgency := Safety.severity worst in
      let g := py_int (255 * (1 - urgency * (85 / 100))) in
      let alpha := 12 / 100 + urgency * (12 / 100) in
      mkStyle (0%Z, g, 255%Z) 3 (Some (alpha, Safety.impact_point worst))
  end.

(** [draw_status] and [draw_status_bar] announce [events[0]]. *)
Definition soonest (events : list Safety.CollisionEvent) : option Safety.CollisionEvent :=
  hd_error events.

End Display.

(** ** Vocabulary of the properties *)

Section SafetyVocabulary.
Import Safety.
Variable m : SafetyMonitor.

(** The distance of a forecast point to the zone centre. *)
Definition dist_to_center (p : R * R) : R :=
  hypot (fst p - fst (zone_center m)) (snd p - snd (zone_center m)).

Definition inside (p : R * R) : Prop := dist_to_center p < radius m.

(** The event expected for point number [i] (from 0) of a forecast, with
    the point truncated to integers as [check_track] does. *)
Definition event_at (tid : Z) (i : nat) (p : R * R) : CollisionEvent :=
  mkEvent tid (Z.of_nat i + 1) (py_int (fst p), py_int (snd p))
          (Rmax 0 (1 - dist_to_center p / radius m)).

(** The events of the tracks, one [check_track] per track, in the order in
    which the tracks are iterated. *)
Definition events_in_track_order (tracks : list (Z * list (R * R)))
  : list CollisionEvent :=
  flat_map (fun t => match check_track m (fst t) (snd t) with
                     | Some ev => [ev]
                     | None => []
                     end) tracks.
End SafetyVocabulary.

(** Events ordered by impact frame, soonest first. *)
Definition sooner_or_same (a b : Safety.CollisionEvent) : Prop :=
  (Safety.impact_frame a <= Safety.impact_frame b)%Z.

(** The events of a list whose impact frame is [k], in their order. *)
Definition at_frame (k : Z) (evs : list Safety.CollisionEvent)
  : list Safety.CollisionEvent :=
  filter (fun e => (Safety.impact_frame e =? k)%Z) evs.

(** The acceleration estimate in the words of the specification: the mean
    of the consecutive differences [h[i+1] - h[i]] of a velocity history. *)
Definition mean_of_differences (h : list R) : R :=
  Predictor.np_sum (map (fun i => nth (S i) h 0 - nth i h 0) (seq 0 (length h - 1)))
  / INR (length h - 1).

(** The sum of a list of reals. *)
Fixpoint total (l : list R) : R :=
  match l with
  | [] => 0
  | a :: r => a + total r
  end.

(** The mean of the consecutive differences of a velocity history, written
    out with the sum above: [(sum over i of (h[i+1] - h[i])) / (len h - 1)]. *)
Definition mean_step (h : list R) : R :=
  total (map (fun i => nth (S i) h 0 - nth i h 0) (seq 0 (length h - 1)))
  / INR (length h - 1).

(** Clamping to magnitude at most 2. *)
Definition clamp2 (a : R) : R :=
  if Rlt_dec a (-2) then -2 else if Rlt_dec 2 a then 2 else a.

(** The forecast points of the two models for frame [t]. *)
Definition linear_point (cx cy vx vy : R) (t : Z) : R * R :=
  (cx + vx * IZR t, cy + vy * IZR t).

Definition quadratic_point (cx cy vx vy ax ay : R) (t : Z) : R * R :=
  (cx + vx * IZR t + (1 / 2) * ax * (IZR t * IZR t),
   cy + vy * IZR t + (1 / 2) * ay * (IZR t * IZR t)).

(** The frames [1, 2, ..., n], nearest first. *)
Definition frames_ahead (n : Z) : list Z := map Z.of_nat (seq 1 (Z.to_nat n)).

(** The determinant of a 2x2 array. *)
Definition det2 (s : Kalman.matrix) : R :=
  Kalman.entry s 0 0 * Kalman.entry s 1 1 - Kalman.entry s 0 1 * Kalman.entry s 1 0.

(** The innovation covariance of a filter is singular. *)
Definition singular (k : Kalman.ObjectKalman) : Prop :=
  det2 (Kalman.innovation_cov k) = 0.

(** Step 2 of [StateEstimator.update] on its own: the association of a
    frame's detections with the predicted tracks. *)
Definition association (s : Estimator.StateEstimator)
           (dets : list Estimator.Detection) : result Estimator.Assoc :=
  Estimator.associate (Estimator.max_distance s) 0 dets
    (Estimator.mkAssoc (map Kalman.predict (Estimator.tracks s)) [] []).

(** The detections left unmatched by step 2, in input order; [di] is the
    index of the first detection of [dets]. *)
Fixpoint unmatched (matched_det_idx : list Z) (di : Z)
         (dets : list Estimator.Detection) : list Estimator.Detection :=
  match dets with
  | [] => []
  | d :: rest =>
      if set_mem di matched_det_idx then unmatched matched_det_idx (di + 1) rest
      else d :: unmatched matched_det_idx (di + 1) rest
  end.

(** The number of observations, among the first [i] of a frame, whose index
    is not in [md], the indices matched in step 2: the births that precede
    observation number [i]. *)
Definition births_before (md : list Z) (i : nat) : nat :=
  length (filter (fun k => if in_dec Z.eq_dec (Z.of_nat k) md then false else true)
                 (seq 0 i)).

(** The track born from a detection. *)
Definition born (d : Estimator.Detection) : Kalman.ObjectKalman :=
  Kalman.init (IZR (Estimator.det_cx d)) (IZR (Estimator.det_cy d)).

(** The identifiers [nid, nid + 1, ..., nid + k - 1]. *)
Definition fresh_ids (nid : Z) (k : nat) : list Z :=
  map (fun j => (nid + Z.of_nat j)%Z) (seq 0 k).

(** The identifiers of an estimator are strictly increasing and all below
    the next identifier to be assigned. *)
Definition ids_fresh (s : Estimator.StateEstimator) : Prop :=
  StronglySorted Z.lt (Estimator.track_ids s) /\
  Forall (fun i => (i < Estimator.next_id s)%Z) (Estimator.track_ids s).

(** Every track has its identifier. *)
Definition paired (s : Estimator.StateEstimator) : Prop :=
  length (Estimator.tracks s) = length (Estimator.track_ids s).

(** The estimator after a run of frames. *)
Fixpoint run_frames (s : Estimator.StateEstimator)
         (frames : list (list Estimator.Detection)) : result Estimator.StateEstimator :=
  match frames with
  | [] => Ok s
  | dets :: rest =>
      do r <- Estimator.update s dets;
      run_frames (fst r) rest
  end.

(** The Euclidean distance between a point and the position of a track. *)
Definition track_dist (cx cy : R) (t : Kalman.ObjectKalman) : R :=
  hypot (cx - fst (Kalman.position t)) (cy - snd (Kalman.position t)).

(** The same for the centre of a detection. *)
Definition obs_dist (d : Estimator.Detection) (t : Kalman.ObjectKalman) : R :=
  track_dist (IZR (Estimator.det_cx d)) (IZR (Estimator.det_cy d)) t.

(** Track number [i] of the loop state is [t] and has not been matched yet
    in this frame. *)
Definition unmatched_track (a : Estimator.Assoc) (i : nat) (t : Kalman.ObjectKalman) : Prop :=
  nth_error (Estimator.a_tracks a) i = Some t /\
  ~ In (Z.of_nat i) (Estimator.matched_track_idx a).

(** [l] with element number [i] replaced by [v]. *)
Fixpoint replace_nth {A : Type} (i : nat) (v : A) (l : list A) : list A :=
  match l, i with
  | [], _ => []
  | _ :: r, O => v :: r
  | a :: r, S j => a :: replace_nth j v r
  end.

(** The Euclidean distance from the position of a track to the centre of a
    detection, as the size lookup of step 6 measures it. *)
Definition size_dist (t : Kalman.ObjectKalman) (d : Estimator.Detection) : R :=
  hypot (fst (Kalman.position t) - IZR (Estimator.det_cx d))
        (snd (Kalman.position t) - IZR (Estimator.det_cy d)).

(** The distance of step 6 to a key of the lookup table. *)
Definition key_dist (px py : R) (k : Z * Z) : R :=
  hypot (px - IZR (fst k)) (py - IZR (snd k)).

(** A filter state with a degenerate covariance: after the predict step
    its innovation covariance is singular. *)
Definition degenerate_filter : Kalman.ObjectKalman :=
  Kalman.mkKalman [[0]; [0]; [0]; [0]]
                  [[-11; 0; 0; 0]; [0; 0; 0; 0]; [0; 0; 0; 0]; [0; 0; 0; 0]]
                  0 0.

(** A row of a 4x4 covariance, and its entries. *)
Definition row4 : Type := (R * R * R * R)%type.

Definition c0 (r : row4) : R := fst (fst (fst r)).
Definition c1 (r : row4) : R := snd (fst (fst r)).
Definition c2 (r : row4) : R := snd (fst r).
Definition c3 (r : row4) : R := snd r.

(** The filter with state vector [(x0, x1, x2, x3)] and covariance rows
    [r0], [r1], [r2], [r3]. *)
Definition filter_of (x0 x1 x2 x3 : R) (r0 r1 r2 r3 : row4) (ag ms : Z)
  : Kalman.ObjectKalman :=
  Kalman.mkKalman [[x0]; [x1]; [x2]; [x3]]
                  [[c0 r0; c1 r0; c2 r0; c3 r0]; [c0 r1; c1 r1; c2 r1; c3 r1];
                   [c0 r2; c1 r2; c2 r2; c3 r2]; [c0 r3; c1 r3; c2 r3; c3 r3]]
                  ag ms.

(** The Kalman correction written out on the entries.  The innovation
    covariance [S = H P H^T + R] is
    [[p00 + 10, p01], [p10, p11 + 10]]; this is its determinant. *)
Definition innovation_det (r0 r1 : row4) : R :=
  (c0 r0 + 10) * (c1 r1 + 10) - c1 r0 * c0 r1.

(** Row [i] of the gain [K = P H^T S^-1]. *)
Definition gain_row (r0 r1 ri : row4) : R * R :=
  ((c0 ri * (c1 r1 + 10) - c1 ri * c0 r1) / innovation_det r0 r1,
   (c1 ri * (c0 r0 + 10) - c0 ri * c1 r0) / innovation_det r0 r1).

(** Component [i] of [x + K (z - H x)], for the measurement [z = (cx, cy)]. *)
Definition corrected (g : R * R) (xi x0 x1 cx cy : R) : R :=
  xi + fst g * (cx - x0) + snd g * (cy - x1).

(** Row [i] of [(I - K H) P]. *)
Definition posterior_row (g : R * R) (ri r0 r1 : row4) : row4 :=
  (c0 ri - fst g * c0 r0 - snd g * c0 r1,
   c1 ri - fst g * c1 r0 - snd g * c1 r1,
   c2 ri - fst g * c2 r0 - snd g * c2 r1,
   c3 ri - fst g * c3 r0 - snd g * c3 r1).

(** The filter after the correction with the measurement [(cx, cy)]. *)
Definition corrected_filter (x0 x1 x2 x3 : R) (r0 r1 r2 r3 : row4) (ag : Z)
           (cx cy : R) : Kalman.ObjectKalman :=
  filter_of (corrected (gain_row r0 r1 r0) x0 x0 x1 cx cy)
            (corrected (gain_row r0 r1 r1) x1 x0 x1 cx cy)
            (corrected (gain_row r0 r1 r2) x2 x0 x1 cx cy)
            (corrected (gain_row r0 r1 r3) x3 x0 x1 cx cy)
            (posterior_row (gain_row r0 r1 r0) r0 r0 r1)
            (posterior_row (gain_row r0 r1 r1) r1 r0 r1)
            (posterior_row (gain_row r0 r1 r2) r2 r0 r1)
            (posterior_row (gain_row r0 r1 r3) r3 r0 r1)
            ag 0.

(** Every forecaster of a pool has the horizon the pipeline configures. *)
Definition forecasters_ok (preds : list (Z * Predictor.TrajectoryPredictor)) : Prop :=
  Forall (fun kv => Predictor.horizon (snd kv) = Pipeline.HORIZON) preds.

(** Every forecast of a frame has 40 points. *)
Definition forecasts_full (futures : list (Z * list (R * R))) : Prop :=
  Forall (fun kv => length (snd kv) = 40%nat) futures.

(** A covariance of the shape the filter keeps: the x and y axes are
    independent and alike, with position variance [a], velocity variance [c]
    and covariance [b] between position and velocity. *)
Definition block_cov (a b c : R) : Kalman.matrix :=
  [[a; 0; b; 0]; [0; a; 0; b]; [b; 0; c; 0]; [0; b; 0; c]].

(** A filter with a 4x1 state and a positive definite covariance of that
    shape. *)
Definition healthy (k : Kalman.ObjectKalman) : Prop :=
  (exists x0 x1 x2 x3, Kalman.x k = [[x0]; [x1]; [x2]; [x3]]) /\
  (exists a b c, Kalman.P k = block_cov a b c /\ 0 < a /\ 0 < c /\ b * b < a * c).

(** The history of a forecaster after the samples [vs], oldest first. *)
Definition feed (maxlen : Z) (d : list R) (vs : list R) : list R :=
  fold_left (Predictor.deque_append maxlen) vs d.

(** The last [n] elements of a list. *)
Definition lastn {A : Type} (n : nat) (l : list A) : list A :=
  skipn (length l - n) l.

(** An event moved [n] frames later. *)
Definition delay (n : nat) (ev : Safety.CollisionEvent) : Safety.CollisionEvent :=
  Safety.mkEvent (Safety.track_id ev) (Safety.impact_frame ev + Z.of_nat n)
                 (Safety.impact_point ev) (Safety.severity ev).

(** A pipeline whose filters are healthy and whose forecasters have the
    configured horizon. *)
Definition pipeline_ok (pl : Pipeline.Pipeline) : Prop :=
  Forall healthy (Estimator.tracks (Pipeline.estimator pl)) /\
  forecasters_ok (Pipeline.predictors pl).

(** A forecaster after a run of frames, each with the state
    [(cx, cy, vx, vy)] of its track. *)
Definition follow (p : Predictor.TrajectoryPredictor) (obs : list (R * R * R * R))
  : Predictor.TrajectoryPredictor :=
  fold_left (fun q o =>
               let '(cx, cy, vx, vy) := o in
               fst (Predictor.update_and_predict q cx cy vx vy)) obs p.

(** The arm is inside the frame and heads away from the edge it is near. *)
Definition robot_ok (w_frame : Z) (r : Actuator.Robot) : Prop :=
  (Actuator.robot_dir r = 1%Z /\ (8 <= Actuator.robot_x r < w_frame - 90)%Z) \/
  (Actuator.robot_dir r = (-1)%Z /\ (10 < Actuator.robot_x r <= w_frame - 88)%Z).

(** A colour channel is a byte. *)
Definition byte (z : Z) : Prop := (0 <= z <= 255)%Z.

(** * Properties *)

(** ** Numeric helpers *)

Lemma Rltb_true (a b : R) : Rltb a b = true <-> a < b.
Proof. unfold Rltb; destruct (Rlt_dec a b); split; intros; try easy; lra. Qed.

Lemma Rltb_false (a b : R) : Rltb a b = false <-> ~ a < b.
Proof. unfold Rltb; destruct (Rlt_dec a b); split; intros; try easy; lra. Qed.

Lemma py_max_Rmax (a b : R) : py_max a b = Rmax a b.
Proof.
  unfold py_max, Rmax.
  destruct (Rltb a b) eqn:E; destruct (Rle_dec a b) as [L | L]; try reflexivity.
  - apply Rltb_true in E; lra.
  - apply Rltb_false in E; lra.
Qed.

Lemma hypot_nonneg (a b : R) : 0 <= hypot a b.
Proof. apply sqrt_pos. Qed.

Lemma hypot_0_r (a : R) : hypot a 0 = Rabs a.
Proof.
  unfold hypot. replace (a * a + 0 * 0) with (Rsqr a) by (unfold Rsqr; ring).
  apply sqrt_Rsqr_abs.
Qed.

Lemma hypot_sqr (a b : R) : hypot a b * hypot a b = a * a + b * b.
Proof. unfold hypot. apply sqrt_sqrt. nra. Qed.

Lemma py_int_IZR (z : Z) : py_int (IZR z) = z.
Proof.
  unfold py_int. destruct (Rle_dec 0 (IZR z)).
  - symmetry. apply Int_part_spec. lra.
  - rewrite <- opp_IZR. rewrite <- (Int_part_spec (IZR (- z)) (- z)%Z); [lia | lra].
Qed.

Lemma py_int_floor (r : R) (z : Z) : 0 <= r -> IZR z <= r < IZR z + 1 -> py_int r = z.
Proof.
  intros H0 Hz. unfold py_int. destruct (Rle_dec 0 r); [| lra].
  symmetry. apply Int_part_spec. lra.
Qed.

Lemma py_range_length (lo hi : Z) : length (py_range lo hi) = Z.to_nat (hi - lo).
Proof. unfold py_range. now rewrite length_map, length_seq. Qed.

Lemma py_range_nth (lo hi : Z) (i : nat) :
  (i < Z.to_nat (hi - lo))%nat ->
  nth_error (py_range lo hi) i = Some (lo + Z.of_nat i)%Z.
Proof.
  intros Hi. unfold py_range.
  rewrite nth_error_map, nth_error_seq.
  destruct (Nat.ltb_spec i (Z.to_nat (hi - lo))); [reflexivity | lia].
Qed.

(** ** safety.py *)

Section CheckTrack.
Import Safety.
Variable m : SafetyMonitor.

Lemma scan_spec (tid : Z) (pts : list (R * R)) (i0 : nat) :
  match scan m tid (Z.of_nat i0) pts with
  | Some ev =>
      exists i p,
        nth_error pts i = Some p /\ inside m p /\
        (forall j q, (j < i)%nat -> nth_error pts j = Some q -> ~ inside m q) /\
        ev = event_at m tid (i0 + i) p
  | None => Forall (fun q => ~ inside m q) pts
  end.
Proof.
  revert i0. induction pts as [| [fx fy] rest IH]; intros i0; simpl.
  - constructor.
  - destruct (zone_center m) as [cx cy] eqn:Ec.
    destruct (Rltb (hypot (fx - cx) (fy - cy)) (radius m)) eqn:E.
    + apply Rltb_true in E.
      exists 0%nat, (fx, fy). repeat split.
      * unfold inside, dist_to_center; simpl. rewrite Ec. exact E.
      * intros j q Hj. lia.
      * unfold event_at, dist_to_center. rewrite Ec, py_max_Rmax, Nat.add_0_r.
        reflexivity.
    + apply Rltb_false in E.
      specialize (IH (S i0)).
      replace (Z.of_nat i0 + 1)%Z with (Z.of_nat (S i0)) by lia.
      destruct (scan m tid (Z.of_nat (S i0)) rest) as [ev |].
      * destruct IH as (i & p & Hn & Hin & Hbefore & Hev).
        exists (S i), p. repeat split; try assumption.
        -- intros [| j] q Hj Hq; simpl in Hq.
           ++ injection Hq as <-. unfold inside, dist_to_center; simpl.
              rewrite Ec. exact E.
           ++ apply (Hbefore j q); [lia | exact Hq].
        -- rewrite Hev. f_equal. lia.
      * constructor; [| exact IH].
        unfold inside, dist_to_center; simpl. rewrite Ec. exact E.
Qed.
End CheckTrack.

Lemma hypot_lt (a b c : R) : hypot a b < c <-> 0 < c /\ a * a + b * b < c * c.
Proof.
  pose proof (hypot_nonneg a b) as Hn. pose proof (hypot_sqr a b) as Hs.
  split.
  - intros Hlt. split; nra.
  - intros [Hc Hlt]. destruct (Rlt_dec (hypot a b) c) as [L | L]; [exact L | nra].
Qed.

Lemma py_range_cons (lo hi : Z) :
  (lo < hi)%Z -> py_range lo hi = lo :: py_range (lo + 1) hi.
Proof.
  intros Hlt. unfold py_range.
  replace (Z.to_nat (hi - lo)) with (S (Z.to_nat (hi - (lo + 1)))) by lia.
  simpl. f_equal; [lia |].
  rewrite <- seq_shift, map_map. apply map_ext. intros k. lia.
Qed.

(** C1, as the claim is written, fails: [impact_point] is the point
    truncated to integers, not the point.  For the zone of centre (320,240)
    and radius 120 and the one-point forecast (220.5, 240), the event is
    reported at frame 1 with impact point (220, 240). *)
Lemma C1_impact_point_is_truncated :
  exists ev,
    Safety.check_track (Safety.mkMonitor (320, 240) 120) 7 [(441 / 2, 240)] = Some ev /\
    Safety.impact_frame ev = 1%Z /\
    nth_error [(441 / 2, 240)] 0 = Some (441 / 2, 240) /\
    (IZR (fst (Safety.impact_point ev)), IZR (snd (Safety.impact_point ev)))
      <> (441 / 2, 240).
Proof.
  unfold Safety.check_track; simpl.
  assert (E : Rltb (hypot (441 / 2 - 320) (240 - 240)) 120 = true).
  { apply Rltb_true, hypot_lt. lra. }
  rewrite E. eexists. split; [reflexivity |]. simpl.
  rewrite (py_int_floor (441 / 2) 220) by lra.
  rewrite (py_int_IZR 240).
  repeat split. simpl. intros Heq. injection Heq as Heq. lra.
Qed.

(** C1 (amended): [check_track] reports the first forecast point strictly
    inside the zone, with its 1-based index, its coordinates truncated
    toward zero to integers and the severity max(0, 1 - distance/radius);
    it reports nothing when no point is strictly inside.  For the forecast
    from (100,240) at +40 per frame in x, zone (320,240) of radius 120, the
    event has impact frame 3, impact point (220,240) and severity
    1 - 100/120. *)
Theorem C1_check_track_first_intersection :
  (forall m tid pts,
     match Safety.check_track m tid pts with
     | Some ev =>
         exists i p,
           nth_error pts i = Some p /\ inside m p /\
           (forall j q, (j < i)%nat -> nth_error pts j = Some q -> ~ inside m q) /\
           ev = event_at m tid i p
     | None => Forall (fun q => ~ inside m q) pts
     end) /\
  (forall tid horizon,
     (3 <= horizon)%Z ->
     Safety.check_track (Safety.mkMonitor (320, 240) 120) tid
                        (Predictor.predict_linear 100 240 40 0 horizon)
     = Some (Safety.mkEvent tid 3 (220%Z, 240%Z) (1 - 100 / 120))).
Proof.
  split.
  - intros m tid pts. exact (scan_spec m tid pts 0).
  - intros tid horizon Hh. unfold Predictor.predict_linear, Safety.check_track.
    rewrite (py_range_cons 1), (py_range_cons (1 + 1)), (py_range_cons (1 + 1 + 1)) by lia.
    cbn [map Safety.scan Safety.zone_center Safety.radius Z.add Pos.add Pos.succ].
    assert (E1 : Rltb (hypot (100 + 40 * 1 - 320) (240 + 0 * 1 - 240)) 120 = false).
    { apply Rltb_false. rewrite hypot_lt. lra. }
    assert (E2 : Rltb (hypot (100 + 40 * 2 - 320) (240 + 0 * 2 - 240)) 120 = false).
    { apply Rltb_false. rewrite hypot_lt. lra. }
    assert (E3 : Rltb (hypot (100 + 40 * 3 - 320) (240 + 0 * 3 - 240)) 120 = true).
    { apply Rltb_true. rewrite hypot_lt. lra. }
    rewrite E1, E2, E3. f_equal.
    replace (100 + 40 * 3) with (IZR 220) by lra.
    replace (240 + 0 * 3) with (IZR 240) by lra.
    rewrite !py_int_IZR. f_equal.
    rewrite py_max_Rmax.
    replace (220 - 320) with (- (100)) by lra. replace (240 - 240) with 0 by lra.
    rewrite hypot_0_r, Rabs_Ropp, Rabs_pos_eq by lra.
    apply Rmax_right. lra.
Qed.

Lemma C1_check_track_first_intersection_witness :
  Safety.check_track (Safety.mkMonitor (320, 240) 120) 0
                     (Predictor.predict_linear 100 240 40 0 40)
  = Some (Safety.mkEvent 0 3 (220%Z, 240%Z) (1 - 100 / 120)).
Proof.
  apply (proj2 C1_check_track_first_intersection 0%Z 40%Z). lia.
Defined.

(** ** The stable sort *)

Section StableSortFacts.
Context {A : Type} (key : A -> Z).

Lemma insert_by_perm (e : A) (l : list A) : Permutation (insert_by key e l) (e :: l).
Proof.
  induction l as [| x r IH]; simpl; [reflexivity |].
  destruct (key e <=? key x)%Z; [reflexivity |].
  rewrite IH. apply perm_swap.
Qed.

Lemma sort_by_perm (l : list A) : Permutation (sort_by key l) l.
Proof.
  induction l as [| e l IH]; simpl; [reflexivity |].
  rewrite insert_by_perm. now constructor.
Qed.

Lemma insert_by_sorted (e : A) (l : list A) :
  StronglySorted (fun a b => (key a <= key b)%Z) l ->
  StronglySorted (fun a b => (key a <= key b)%Z) (insert_by key e l).
Proof.
  induction 1 as [| x r Hs IH Hx]; simpl.
  - repeat constructor.
  - destruct (Z.leb_spec (key e) (key x)) as [Hle | Hgt].
    + constructor; [constructor; assumption |].
      constructor; [exact Hle |].
      eapply Forall_impl; [| exact Hx]. simpl. intros; lia.
    + constructor; [exact IH |].
      apply (Permutation_Forall (Permutation_sym (insert_by_perm e r))).
      constructor; [lia | exact Hx].
Qed.

Lemma sort_by_sorted (l : list A) :
  StronglySorted (fun a b => (key a <= key b)%Z) (sort_by key l).
Proof.
  induction l as [| e l IH]; simpl; [constructor |].
  now apply insert_by_sorted.
Qed.

Lemma insert_by_stable (k : Z) (e : A) (l : list A) :
  filter (fun a => (key a =? k)%Z) (insert_by key e l)
  = filter (fun a => (key a =? k)%Z) (e :: l).
Proof.
  induction l as [| x r IH]; simpl; [reflexivity |].
  destruct (Z.leb_spec (key e) (key x)) as [Hle | Hgt]; [reflexivity |].
  simpl. rewrite IH. simpl.
  destruct (Z.eqb_spec (key e) k), (Z.eqb_spec (key x) k); try reflexivity; lia.
Qed.

Lemma sort_by_stable (k : Z) (l : list A) :
  filter (fun a => (key a =? k)%Z) (sort_by key l)
  = filter (fun a => (key a =? k)%Z) l.
Proof.
  induction l as [| e l IH]; simpl; [reflexivity |].
  rewrite insert_by_stable. simpl. now rewrite IH.
Qed.
End StableSortFacts.

(** ** check_all and the danger flag *)

Lemma collect_events (m : Safety.SafetyMonitor) (tracks : list (Z * list (R * R))) :
  Safety.collect m tracks = events_in_track_order m tracks.
Proof.
  induction tracks as [| [tid pts] rest IH]; simpl; [reflexivity |].
  destruct (Safety.check_track m tid pts); simpl; now rewrite IH.
Qed.

Lemma danger_flag_nonempty (evs : list Safety.CollisionEvent) :
  Pipeline.danger_flag evs = true <-> evs <> [].
Proof.
  unfold Pipeline.danger_flag. destruct evs; simpl; split; intros; try easy.
Qed.

Lemma frame_inv (pl pl' : Pipeline.Pipeline) (dets : list Estimator.Detection)
      (out : Pipeline.FrameOutput) :
  Pipeline.frame pl dets = Ok (pl', out) ->
  exists est preds,
    Estimator.update (Pipeline.estimator pl) dets = Ok (est, Pipeline.states out) /\
    Pipeline.forecast (Pipeline.states out) (Pipeline.predictors pl, [])
      = Ok (preds, Pipeline.track_futures out) /\
    pl' = Pipeline.mkPipeline est (Pipeline.safety pl)
                              (Pipeline.drop_dead (Pipeline.states out) preds) /\
    Pipeline.events out
      = Safety.check_all (Pipeline.safety pl) (Pipeline.track_futures out) /\
    Pipeline.danger out = Pipeline.danger_flag (Pipeline.events out).
Proof.
  unfold Pipeline.frame. intros Hf.
  destruct (Estimator.update (Pipeline.estimator pl) dets) as [[est sts] |] eqn:Eu;
    simpl in Hf; [| discriminate].
  destruct (Pipeline.forecast sts (Pipeline.predictors pl, [])) as [[preds futures] |] eqn:Ef;
    simpl in Hf; [| discriminate].
  injection Hf as <- <-. exists est, preds. simpl. repeat split; try reflexivity.
  exact Ef.
Qed.

(** C7: [check_all] returns exactly the events that [check_track] gives for
    the tracks, sorted non-decreasing by impact frame, events of equal
    impact frame staying in track iteration order; the danger flag of a
    frame holds exactly when that event list is not empty. *)
Theorem C7_check_all_sorted_stable :
  (forall m tracks,
     Permutation (Safety.check_all m tracks) (events_in_track_order m tracks) /\
     StronglySorted sooner_or_same (Safety.check_all m tracks) /\
     (forall k, at_frame k (Safety.check_all m tracks)
                = at_frame k (events_in_track_order m tracks)) /\
     (Pipeline.danger_flag (Safety.check_all m tracks) = true
      <-> Safety.check_all m tracks <> [])) /\
  (forall pl dets pl' out,
     Pipeline.frame pl dets = Ok (pl', out) ->
     Pipeline.events out
       = Safety.check_all (Pipeline.safety pl) (Pipeline.track_futures out) /\
     (Pipeline.danger out = true <-> Pipeline.events out <> [])).
Proof.
  split.
  - intros m tracks. unfold Safety.check_all. rewrite collect_events.
    repeat split.
    + apply sort_by_perm.
    + apply (sort_by_sorted Safety.impact_frame).
    + intros k. apply (sort_by_stable Safety.impact_frame).
    + apply danger_flag_nonempty.
    + apply danger_flag_nonempty.
  - intros pl dets pl' out Hf.
    destruct (frame_inv _ _ _ _ Hf) as (est & preds & _ & _ & _ & Hev & Hd).
    split; [exact Hev |]. rewrite Hd. apply danger_flag_nonempty.
Qed.

Lemma C7_check_all_sorted_stable_witness :
  exists pl' out,
    Pipeline.frame (Pipeline.mkPipeline (Estimator.init 80)
                                        (Safety.mkMonitor (320, 240) 120) []) []
      = Ok (pl', out) /\
    (Pipeline.danger out = true <-> Pipeline.events out <> []).
Proof.
  exists (Pipeline.mkPipeline (Estimator.init 80) (Safety.mkMonitor (320, 240) 120) []),
         (Pipeline.mkOutput [] [] [] false).
  split; [reflexivity |].
  apply (proj2 C7_check_all_sorted_stable
               (Pipeline.mkPipeline (Estimator.init 80)
                                    (Safety.mkMonitor (320, 240) 120) []) []
               (Pipeline.mkPipeline (Estimator.init 80)
                                    (Safety.mkMonitor (320, 240) 120) [])).
  reflexivity.
Defined.

(** ** predictor.py *)

Lemma py_range_frames (n : Z) : py_range 1 (n + 1) = frames_ahead n.
Proof.
  unfold py_range, frames_ahead.
  replace (Z.to_nat (n + 1 - 1)) with (Z.to_nat n) by lia.
  rewrite <- seq_shift, map_map. apply map_ext. intros k. lia.
Qed.

Lemma frames_ahead_nth (n t : Z) :
  (1 <= t <= n)%Z -> nth_error (frames_ahead n) (Z.to_nat (t - 1)) = Some t.
Proof.
  intros Ht. rewrite <- py_range_frames, py_range_nth by lia. f_equal. lia.
Qed.

Lemma np_diff_nth (h : list R) :
  Predictor.np_diff h
  = map (fun i => nth (S i) h 0 - nth i h 0) (seq 0 (length h - 1)).
Proof.
  induction h as [| a [| b r] IH]; try reflexivity.
  change (Predictor.np_diff (a :: b :: r)) with ((b - a) :: Predictor.np_diff (b :: r)).
  rewrite IH. simpl. f_equal.
  rewrite Nat.sub_0_r, <- seq_shift, map_map. reflexivity.
Qed.

Lemma np_diff_length (h : list R) : length (Predictor.np_diff h) = (length h - 1)%nat.
Proof. now rewrite np_diff_nth, length_map, length_seq. Qed.

Lemma mean_diff_spec (h : list R) :
  Predictor.np_mean (Predictor.np_diff h) = mean_of_differences h.
Proof.
  unfold Predictor.np_mean, mean_of_differences.
  rewrite np_diff_length. now rewrite np_diff_nth.
Qed.

Lemma np_clip_clamp2 (a : R) : Predictor.np_clip a (- Predictor.MAX_A) Predictor.MAX_A = clamp2 a.
Proof.
  unfold Predictor.np_clip, Predictor.MAX_A, clamp2.
  destruct (Rlt_dec a (-2)), (Rlt_dec 2 a);
    apply Rmin_case_strong; apply Rmax_case_strong; intros; lra.
Qed.

Lemma clamp2_bound (a : R) : Rabs (clamp2 a) <= 2.
Proof.
  unfold clamp2. apply Rabs_le.
  destruct (Rlt_dec a (-2)), (Rlt_dec 2 a); lra.
Qed.

Lemma np_diff_constant (c : R) (h : list R) :
  Forall (eq c) h -> Forall (eq 0) (Predictor.np_diff h).
Proof.
  induction h as [| a [| b r] IH]; intros Hc; try constructor.
  - inversion Hc as [| ? ? Ha Hr]; subst. inversion Hr; subst. lra.
  - apply IH. now inversion Hc.
Qed.

Lemma np_sum_zeros (l : list R) : Forall (eq 0) l -> Predictor.np_sum l = 0.
Proof.
  induction 1 as [| a l Ha _ IH]; [reflexivity |].
  change (Predictor.np_sum (a :: l)) with (a + Predictor.np_sum l).
  rewrite IH. lra.
Qed.

Lemma mean_diff_constant (c : R) (h : list R) :
  Forall (eq c) h -> mean_of_differences h = 0.
Proof.
  intros Hc. rewrite <- mean_diff_spec. unfold Predictor.np_mean.
  rewrite (np_sum_zeros _ (np_diff_constant c h Hc)). unfold Rdiv. ring.
Qed.

Lemma clamp2_0 : clamp2 0 = 0.
Proof. unfold clamp2. destruct (Rlt_dec 0 (-2)), (Rlt_dec 2 0); lra. Qed.

(** The forecast in closed form, branch by branch. *)
Lemma update_and_predict_points (p : Predictor.TrajectoryPredictor) (cx cy vx vy : R) :
  let hx := Predictor.deque_append (Predictor.history_len p) (Predictor.vx_hist p) vx in
  let hy := Predictor.deque_append (Predictor.history_len p) (Predictor.vy_hist p) vy in
  snd (Predictor.update_and_predict p cx cy vx vy)
  = if (length hx <? 2)%nat
    then map (linear_point cx cy vx vy) (frames_ahead (Predictor.horizon p))
    else map (quadratic_point cx cy vx vy (clamp2 (mean_of_differences hx))
                              (clamp2 (mean_of_differences hy)))
             (frames_ahead (Predictor.horizon p)).
Proof.
  intros hx hy. unfold Predictor.update_and_predict. fold hx hy.
  destruct (Nat.ltb_spec (length hx) 2) as [Hlt | Hge].
  - destruct (Z.ltb_spec (Z.of_nat (length hx)) 2); [| lia]. simpl.
    unfold Predictor.predict_linear. now rewrite py_range_frames.
  - destruct (Z.ltb_spec (Z.of_nat (length hx)) 2); [lia |]. simpl.
    rewrite py_range_frames, !mean_diff_spec, !np_clip_clamp2.
    apply map_ext. intros t. unfold quadratic_point. f_equal; ring.
Qed.

Lemma deque_append_bounded (maxlen : Z) (d : list R) (v : R) :
  (0 <= maxlen)%Z ->
  (Z.of_nat (length d) <= maxlen)%Z ->
  (Z.of_nat (length (Predictor.deque_append maxlen d v)) <= maxlen)%Z.
Proof.
  intros H0 Hd. unfold Predictor.deque_append.
  destruct (Z.eqb_spec maxlen 0); [exact Hd |].
  destruct (Z.ltb_spec (Z.of_nat (length d)) maxlen).
  - rewrite length_app. simpl. lia.
  - rewrite length_app. destruct d; simpl in *; lia.
Qed.

Lemma lastn_all {A : Type} (n : nat) (l : list A) : (length l <= n)%nat -> lastn n l = l.
Proof. intros H. unfold lastn. now replace (length l - n)%nat with 0%nat by lia. Qed.

Lemma lastn_length {A : Type} (n : nat) (l : list A) :
  length (lastn n l) = Nat.min (length l) n.
Proof. unfold lastn. rewrite length_skipn. lia. Qed.

Lemma lastn_app_lastn {A : Type} (n : nat) (l r : list A) :
  lastn n (lastn n l ++ r) = lastn n (l ++ r).
Proof.
  destruct (Nat.le_gt_cases (length l) n) as [Hle | Hgt].
  - now rewrite (lastn_all n l Hle).
  - unfold lastn. rewrite !length_app, length_skipn.
    replace (length l - (length l - n) + length r - n)%nat with (length r) by lia.
    replace (length l + length r - n)%nat with (length r + (length l - n))%nat by lia.
    rewrite <- skipn_skipn. f_equal.
    rewrite skipn_app. replace (length l - n - length l)%nat with 0%nat by lia.
    reflexivity.
Qed.

Lemma deque_append_lastn (maxlen : Z) (d : list R) (v : R) :
  (0 <= maxlen)%Z ->
  (Z.of_nat (length d) <= maxlen)%Z ->
  Predictor.deque_append maxlen d v = lastn (Z.to_nat maxlen) (d ++ [v]).
Proof.
  intros H0 Hd. unfold Predictor.deque_append.
  destruct (Z.eqb_spec maxlen 0) as [-> | Hne].
  - destruct d; [| simpl in Hd; lia]. reflexivity.
  - destruct (Z.ltb_spec (Z.of_nat (length d)) maxlen).
    + symmetry. apply lastn_all. rewrite length_app. simpl. lia.
    + unfold lastn. rewrite length_app. simpl length.
      replace (length d + 1 - Z.to_nat maxlen)%nat with 1%nat by lia.
      destruct d as [| a d]; [simpl in *; lia | reflexivity].
Qed.

Lemma frames_ahead_length (n : Z) : Z.of_nat (length (frames_ahead n)) = Z.max 0 n.
Proof. unfold frames_ahead. rewrite length_map, length_seq. lia. Qed.

Lemma total_np_sum (l : list R) : total l = Predictor.np_sum l.
Proof. reflexivity. Qed.

Lemma mean_step_spec (h : list R) : mean_of_differences h = mean_step h.
Proof. reflexivity. Qed.

Lemma clamp2_id (a : R) : Rabs a <= 2 -> clamp2 a = a.
Proof.
  intros Ha. unfold clamp2. unfold Rabs in Ha.
  destruct (Rcase_abs a), (Rlt_dec a (-2)), (Rlt_dec 2 a); lra.
Qed.

(** C5: a call of [update_and_predict] on a forecaster whose histories
    respect their bound (as every deque does).  The histories after the call
    are the last [history_len] samples of the old history followed by the new
    sample.  With fewer than 2 samples in the history the t-th forecast point
    (t = 1..horizon) is (cx + vx t, cy + vy t).  Otherwise the acceleration
    of each axis is the mean of the consecutive differences of the history,
    clamped to [-2, 2] (so it is that mean itself when its magnitude is at
    most 2), and the t-th point is
    (cx + vx t + 0.5 ax t^2, cy + vy t + 0.5 ay t^2).  For histories of
    identical samples the quadratic forecast is the linear forecast.  There
    are exactly [horizon] points.  The bound on the histories holds for a
    newly built forecaster and is kept by the call. *)
Theorem C5_linear_and_quadratic_models
        (p : Predictor.TrajectoryPredictor) (cx cy vx vy : R) :
  (0 <= Predictor.history_len p)%Z ->
  (Z.of_nat (length (Predictor.vx_hist p)) <= Predictor.history_len p)%Z ->
  (Z.of_nat (length (Predictor.vy_hist p)) <= Predictor.history_len p)%Z ->
  let n := Z.to_nat (Predictor.history_len p) in
  let hx := lastn n (Predictor.vx_hist p ++ [vx]) in
  let hy := lastn n (Predictor.vy_hist p ++ [vy]) in
  let p' := fst (Predictor.update_and_predict p cx cy vx vy) in
  let pts := snd (Predictor.update_and_predict p cx cy vx vy) in
  let ax := clamp2 (mean_step hx) in
  let ay := clamp2 (mean_step hy) in
  (Predictor.vx_hist p' = hx /\ Predictor.vy_hist p' = hy /\
   Predictor.history_len p' = Predictor.history_len p /\
   Predictor.horizon p' = Predictor.horizon p) /\
  (length hx = Nat.min (S (length (Predictor.vx_hist p))) n /\
   length hy = Nat.min (S (length (Predictor.vy_hist p))) n) /\
  length pts = Z.to_nat (Predictor.horizon p) /\
  ((length hx < 2)%nat ->
   forall t, (1 <= t <= Predictor.horizon p)%Z ->
     nth_error pts (Z.to_nat (t - 1)) = Some (cx + vx * IZR t, cy + vy * IZR t)) /\
  ((2 <= length hx)%nat ->
   Rabs ax <= 2 /\ Rabs ay <= 2 /\
   (Rabs (mean_step hx) <= 2 -> ax = mean_step hx) /\
   (Rabs (mean_step hy) <= 2 -> ay = mean_step hy) /\
   forall t, (1 <= t <= Predictor.horizon p)%Z ->
     nth_error pts (Z.to_nat (t - 1))
     = Some (cx + vx * IZR t + (1 / 2) * ax * (IZR t * IZR t),
             cy + vy * IZR t + (1 / 2) * ay * (IZR t * IZR t))) /\
  ((2 <= length hx)%nat ->
   (exists c, Forall (eq c) hx) -> (exists c, Forall (eq c) hy) ->
   forall t, (1 <= t <= Predictor.horizon p)%Z ->
     nth_error pts (Z.to_nat (t - 1)) = Some (cx + vx * IZR t, cy + vy * IZR t)) /\
  (forall history_len horizon p0,
      Predictor.init history_len horizon = Ok p0 ->
      (0 <= Predictor.history_len p0)%Z /\
      Predictor.vx_hist p0 = [] /\ Predictor.vy_hist p0 = []).
Proof.
  intros H0 Hbx Hby n hx hy p' pts ax ay.
  pose proof (update_and_predict_points p cx cy vx vy) as Hpts.
  cbv zeta in Hpts.
  rewrite !deque_append_lastn in Hpts by assumption.
  rewrite !mean_step_spec in Hpts.
  fold n hx hy pts ax ay in Hpts.
  assert (Hp' : Predictor.vx_hist p' = hx /\ Predictor.vy_hist p' = hy /\
                Predictor.history_len p' = Predictor.history_len p /\
                Predictor.horizon p' = Predictor.horizon p).
  { subst p' hx hy n. rewrite <- !deque_append_lastn by assumption.
    unfold Predictor.update_and_predict.
    destruct (_ <? 2)%Z; simpl; repeat split; reflexivity. }
  split; [exact Hp' |].
  split.
  { subst hx hy. rewrite !lastn_length, !length_app. simpl length.
    split; f_equal; lia. }
  split.
  { rewrite Hpts. destruct (length hx <? 2)%nat; rewrite length_map;
      unfold frames_ahead; now rewrite length_map, length_seq. }
  split; [| split; [| split]].
  - intros Hlt t Ht.
    destruct (Nat.ltb_spec (length hx) 2); [| lia].
    rewrite Hpts, nth_error_map, frames_ahead_nth by exact Ht. reflexivity.
  - intros Hge. split; [apply clamp2_bound |]. split; [apply clamp2_bound |].
    split; [| split].
    + apply clamp2_id.
    + apply clamp2_id.
    + intros t Ht.
      destruct (Nat.ltb_spec (length hx) 2); [lia |].
      rewrite Hpts, nth_error_map, frames_ahead_nth by exact Ht. reflexivity.
  - intros Hge [c Hc] [c' Hc'] t Ht.
    destruct (Nat.ltb_spec (length hx) 2); [lia |].
    rewrite Hpts, nth_error_map, frames_ahead_nth by exact Ht.
    subst ax ay.
    rewrite <- !mean_step_spec.
    rewrite (mean_diff_constant c hx Hc), (mean_diff_constant c' hy Hc'), clamp2_0.
    cbn [option_map]. unfold quadratic_point. do 2 f_equal; ring.
  - intros hl h p0. unfold Predictor.init.
    destruct (Z.ltb_spec hl 0); [discriminate |].
    intros E. injection E as <-. simpl. repeat split. lia.
Qed.

Lemma C5_linear_and_quadratic_models_witness :
  Predictor.vx_hist (fst (Predictor.update_and_predict
                            (Predictor.mkPredictor 40 3 [1; 2; 4] [0; 0; 0]) 100 240 7 0))
  = [2; 4; 7] /\
  length (snd (Predictor.update_and_predict
                 (Predictor.mkPredictor 40 3 [1; 2; 4] [0; 0; 0]) 100 240 7 0))
  = 40%nat /\
  nth_error (snd (Predictor.update_and_predict
                    (Predictor.mkPredictor 40 3 [1; 2; 4] [0; 0; 0]) 100 240 7 0)) 1
  = Some (100 + 7 * 2 + (1 / 2) * clamp2 (mean_step [2; 4; 7]) * (2 * 2),
          240 + 0 * 2 + (1 / 2) * clamp2 (mean_step [0; 0; 0]) * (2 * 2)).
Proof.
  pose proof (C5_linear_and_quadratic_models
                (Predictor.mkPredictor 40 3 [1; 2; 4] [0; 0; 0]) 100 240 7 0) as H.
  cbn [Predictor.history_len Predictor.vx_hist Predictor.vy_hist Predictor.horizon
       length Z.of_nat] in H.
  specialize (H ltac:(lia) ltac:(simpl; lia) ltac:(simpl; lia)).
  cbv zeta in H. destruct H as ((Hx & _) & _ & Hlen & _ & Hq & _).
  split; [exact Hx |]. split; [exact Hlen |].
  destruct (Hq ltac:(simpl; lia)) as (_ & _ & _ & _ & Hpt).
  exact (Hpt 2%Z ltac:(lia)).
Defined.

Section DictFacts.
Context {V : Type} (Q : V -> Prop).

Lemma dict_set_values (k : Z) (v : V) (d : list (Z * V)) :
  Forall (fun kv => Q (snd kv)) d -> Q v ->
  Forall (fun kv => Q (snd kv)) (dict_set Z.eqb k v d).
Proof.
  intros Hd Hv. induction Hd as [| [k' v'] r Hq Hr IH]; simpl.
  - now repeat constructor.
  - destruct (k =? k')%Z; constructor; assumption.
Qed.

Lemma dict_get_values (k : Z) (v : V) (d : list (Z * V)) :
  Forall (fun kv => Q (snd kv)) d -> dict_get Z.eqb k d = Some v -> Q v.
Proof.
  intros Hd. induction Hd as [| [k' v'] r Hq _ IH]; simpl; [discriminate |].
  destruct (k =? k')%Z; [| exact IH]. now intros [= <-].
Qed.

Lemma fold_del_values (dead : list Z) :
  forall d : list (Z * V),
    Forall (fun kv => Q (snd kv)) d ->
    Forall (fun kv => Q (snd kv))
           (fold_left (fun d0 k0 => dict_del Z.eqb k0 d0) dead d).
Proof.
  induction dead as [| x dead IH]; intros d Hd; simpl; [exact Hd |].
  apply IH. unfold dict_del. rewrite Forall_forall in *.
  intros kv Hin. apply filter_In in Hin. now apply Hd.
Qed.
End DictFacts.

Lemma update_and_predict_length (p : Predictor.TrajectoryPredictor) (cx cy vx vy : R) :
  length (snd (Predictor.update_and_predict p cx cy vx vy))
  = Z.to_nat (Predictor.horizon p).
Proof.
  rewrite update_and_predict_points. cbv zeta.
  destruct (_ <? 2)%nat; rewrite length_map; unfold frames_ahead;
    now rewrite length_map, length_seq.
Qed.

Lemma update_and_predict_horizon (p : Predictor.TrajectoryPredictor) (cx cy vx vy : R) :
  Predictor.horizon (fst (Predictor.update_and_predict p cx cy vx vy))
  = Predictor.horizon p.
Proof. unfold Predictor.update_and_predict. destruct (_ <? 2)%Z; reflexivity. Qed.

(** Step 3 of a frame keeps every forecaster at the configured horizon and
    produces forecasts of 40 points. *)
Lemma forecast_full (sts : list Estimator.TrackState) :
  forall preds futures preds' futures',
    forecasters_ok preds -> forecasts_full futures ->
    Pipeline.forecast sts (preds, futures) = Ok (preds', futures') ->
    forecasters_ok preds' /\ forecasts_full futures'.
Proof.
  induction sts as [| st rest IH]; intros preds futures preds' futures' Hp Hf Hr;
    simpl in Hr.
  - injection Hr as <- <-. now split.
  - assert (Hget : exists p,
               match dict_get Z.eqb (Estimator.s_id st) preds with
               | Some p0 => Ok p0
               | None => Predictor.init 8 Pipeline.HORIZON
               end = Ok p /\ Predictor.horizon p = Pipeline.HORIZON).
    { destruct (dict_get Z.eqb (Estimator.s_id st) preds) as [p0 |] eqn:Eg.
      - exists p0. split; [reflexivity |].
        exact (dict_get_values (fun p => Predictor.horizon p = Pipeline.HORIZON)
                               _ _ _ Hp Eg).
      - eexists. split; reflexivity. }
    destruct Hget as (p & Ep & Hh). rewrite Ep in Hr. simpl in Hr.
    pose proof (update_and_predict_length p (Estimator.s_cx st) (Estimator.s_cy st)
                  (Estimator.s_vx st) (Estimator.s_vy st)) as Hlen.
    pose proof (update_and_predict_horizon p (Estimator.s_cx st) (Estimator.s_cy st)
                  (Estimator.s_vx st) (Estimator.s_vy st)) as Hhor.
    destruct (Predictor.update_and_predict p _ _ _ _) as [p1 future]. simpl in *.
    apply (IH _ _ _ _) in Hr; [exact Hr | |].
    + apply (dict_set_values (fun q => Predictor.horizon q = Pipeline.HORIZON));
        [exact Hp | congruence].
    + apply (dict_set_values (fun f => length f = 40%nat)); [exact Hf |].
      rewrite Hlen, Hh. reflexivity.
Qed.

Lemma frame_forecasts_full (pl pl' : Pipeline.Pipeline) (dets : list Estimator.Detection)
      (out : Pipeline.FrameOutput) :
  forecasters_ok (Pipeline.predictors pl) ->
  Pipeline.frame pl dets = Ok (pl', out) ->
  forecasts_full (Pipeline.track_futures out) /\
  forecasters_ok (Pipeline.predictors pl').
Proof.
  intros Hp Hfr.
  destruct (frame_inv _ _ _ _ Hfr) as (est & preds & _ & Hfc & -> & _).
  destruct (forecast_full _ _ _ _ _ Hp (Forall_nil _) Hfc) as [Hp' Hf'].
  split; [exact Hf' |]. simpl. unfold Pipeline.drop_dead.
  now apply (fold_del_values (fun q => Predictor.horizon q = Pipeline.HORIZON)).
Qed.

(** C6: whichever model is used, the forecast has exactly [horizon] points,
    the i-th of them being the point for frame i (nearest frame first); the
    horizon the pipeline configures is 40, and every forecast of every frame
    of the pipeline has 40 points. *)
Theorem C6_forecast_has_horizon_points :
  (forall p cx cy vx vy,
      let hx := Predictor.deque_append (Predictor.history_len p) (Predictor.vx_hist p) vx in
      let hy := Predictor.deque_append (Predictor.history_len p) (Predictor.vy_hist p) vy in
      let pts := snd (Predictor.update_and_predict p cx cy vx vy) in
      Z.of_nat (length pts) = Z.max 0 (Predictor.horizon p) /\
      pts = map (if (length hx <? 2)%nat
                 then linear_point cx cy vx vy
                 else quadratic_point cx cy vx vy (clamp2 (mean_of_differences hx))
                                      (clamp2 (mean_of_differences hy)))
                (frames_ahead (Predictor.horizon p)) /\
      Predictor.horizon (fst (Predictor.update_and_predict p cx cy vx vy))
      = Predictor.horizon p) /\
  Predictor.init 8 Pipeline.HORIZON = Ok (Predictor.mkPredictor 40 8 [] []) /\
  (forall c pl, Pipeline.start c = Ok pl -> forecasters_ok (Pipeline.predictors pl)) /\
  (forall pl dets pl' out,
      forecasters_ok (Pipeline.predictors pl) ->
      Pipeline.frame pl dets = Ok (pl', out) ->
      forecasts_full (Pipeline.track_futures out) /\
      forecasters_ok (Pipeline.predictors pl')).
Proof.
  split; [| split; [reflexivity | split]].
  - intros p cx cy vx vy hx hy pts.
    pose proof (update_and_predict_points p cx cy vx vy) as Hpts.
    cbv zeta in Hpts. fold hx hy pts in Hpts.
    assert (Hmap : pts = map (if (length hx <? 2)%nat
               then linear_point cx cy vx vy
               else quadratic_point cx cy vx vy (clamp2 (mean_of_differences hx))
                                    (clamp2 (mean_of_differences hy)))
              (frames_ahead (Predictor.horizon p))).
    { rewrite Hpts. destruct (length hx <? 2)%nat; reflexivity. }
    split; [| split].
    + rewrite Hmap, length_map. apply frames_ahead_length.
    + exact Hmap.
    + apply update_and_predict_horizon.
  - intros c pl Hs. injection Hs as <-. constructor.
  - intros pl dets pl' out. apply frame_forecasts_full.
Qed.

Lemma C6_forecast_has_horizon_points_witness :
  exists pl' out,
    Pipeline.frame (Pipeline.mkPipeline (Estimator.init 80)
                                        (Safety.mkMonitor (320, 240) 120) [])
                   [Estimator.mkDet 50 50 30 30]
    = Ok (pl', out) /\
    map fst (Pipeline.track_futures out) = [0%Z] /\
    forecasts_full (Pipeline.track_futures out).
Proof.
  eexists. eexists. split; [reflexivity |]. split; [reflexivity |].
  destruct C6_forecast_has_horizon_points as (_ & _ & _ & H).
  eapply (H (Pipeline.mkPipeline (Estimator.init 80)
                                 (Safety.mkMonitor (320, 240) 120) [])
            [Estimator.mkDet 50 50 30 30]).
  - constructor.
  - reflexivity.
Defined.

(** ** Construction of the components *)

Lemma scan_nonpositive_radius (m : Safety.SafetyMonitor) (tid i : Z) (pts : list (R * R)) :
  Safety.radius m <= 0 -> Safety.scan m tid i pts = None.
Proof.
  intros Hr. revert i. induction pts as [| [fx fy] rest IH]; intros i; simpl; [reflexivity |].
  destruct (Safety.zone_center m) as [cx cy].
  assert (E : Rltb (hypot (fx - cx) (fy - cy)) (Safety.radius m) = false).
  { apply Rltb_false. pose proof (hypot_nonneg (fx - cx) (fy - cy)). lra. }
  rewrite E. apply IH.
Qed.

(** C10, as the claim is written, fails: a monitor of radius 0 or -5 and a
    forecaster of horizon 0 or -3 are constructed without any error. *)
Lemma C10_invalid_configuration_accepted :
  Safety.init (320, 240) 0 = Ok (Safety.mkMonitor (320, 240) 0) /\
  Safety.init (320, 240) (-5) = Ok (Safety.mkMonitor (320, 240) (-5)) /\
  Predictor.init 8 0 = Ok (Predictor.mkPredictor 0 8 [] []) /\
  Predictor.init 8 (-3) = Ok (Predictor.mkPredictor (-3) 8 [] []).
Proof. repeat split. Qed.

(** C10 (amended): construction checks neither the radius nor the horizon.
    A monitor is built from any centre and radius, and a forecaster from any
    horizon (only a negative history length is refused, by the deque).  A
    monitor of non-positive radius reports no event, and a forecaster of
    non-positive horizon returns the empty forecast. *)
Theorem C10_configuration_not_validated :
  (forall c r, Safety.init c r = Ok (Safety.mkMonitor c r)) /\
  (forall hl h,
     Predictor.init hl h
     = if (hl <? 0)%Z then Raise ValueError
       else Ok (Predictor.mkPredictor h hl [] [])) /\
  (forall m tid pts, Safety.radius m <= 0 -> Safety.check_track m tid pts = None) /\
  (forall p cx cy vx vy,
     (Predictor.horizon p <= 0)%Z ->
     snd (Predictor.update_and_predict p cx cy vx vy) = []).
Proof.
  repeat split.
  - intros m tid pts Hr. now apply scan_nonpositive_radius.
  - intros p cx cy vx vy Hh.
    rewrite update_and_predict_points. unfold frames_ahead.
    replace (Z.to_nat (Predictor.horizon p)) with 0%nat by lia.
    destruct (_ <? 2)%nat; reflexivity.
Qed.

Lemma C10_configuration_not_validated_witness :
  Safety.check_track (Safety.mkMonitor (320, 240) 0) 1 [(320, 240)] = None /\
  snd (Predictor.update_and_predict (Predictor.mkPredictor 0 8 [] []) 100 240 2 0) = [].
Proof.
  destruct C10_configuration_not_validated as (_ & _ & Hr & Hh).
  split.
  - apply Hr. simpl. lra.
  - apply Hh. simpl. lia.
Defined.

(** ** The per-object filter *)

Lemma innovation_cov_shape (k : Kalman.ObjectKalman) :
  exists a b c d, Kalman.innovation_cov k = [[a; b]; [c; d]].
Proof.
  unfold Kalman.innovation_cov, Kalman.H, Kalman.Rm. cbn.
  do 4 eexists. reflexivity.
Qed.

Lemma Req_b_true (a b : R) : Kalman.Req_b a b = true <-> a = b.
Proof. unfold Kalman.Req_b. destruct (Req_dec_T a b); split; intros; easy. Qed.

Lemma Req_b_false (a b : R) : Kalman.Req_b a b = false <-> a <> b.
Proof. unfold Kalman.Req_b. destruct (Req_dec_T a b); split; intros; easy. Qed.

Lemma inv_singular (s : Kalman.matrix) : det2 s = 0 -> Kalman.inv s = Raise LinAlgError.
Proof.
  intros Hd. unfold Kalman.inv.
  destruct s as [| [| a [| b [| ? ?]]] [| [| c [| d [| ? ?]]] [| ? ?]]]; try reflexivity.
  unfold det2, Kalman.entry in Hd. simpl in Hd.
  apply Req_b_true in Hd. now rewrite Hd.
Qed.

Lemma update_singular (k : Kalman.ObjectKalman) (cx cy : R) :
  singular k -> Kalman.update k cx cy = (k, Raise LinAlgError).
Proof.
  intros Hs. unfold Kalman.update. now rewrite (inv_singular _ Hs).
Qed.

Lemma update_regular (k : Kalman.ObjectKalman) (cx cy : R) :
  ~ singular k ->
  exists k', Kalman.update k cx cy = (k', Ok tt) /\
             Kalman.missed k' = 0%Z /\ Kalman.age k' = Kalman.age k.
Proof.
  intros Hs. unfold Kalman.update, singular in *.
  destruct (innovation_cov_shape k) as (a & b & c & d & E). rewrite E in *.
  unfold det2, Kalman.entry in Hs. simpl in Hs.
  unfold Kalman.inv. apply Req_b_false in Hs. rewrite Hs.
  eexists. split; [reflexivity |]. split; reflexivity.
Qed.

Lemma update_at_raise (ts : list Kalman.ObjectKalman) (i : nat)
      (t : Kalman.ObjectKalman) (cx cy : R) (e : exn) :
  nth_error ts i = Some t ->
  snd (Kalman.update t cx cy) = Raise e ->
  Estimator.update_at i cx cy ts = Raise e.
Proof.
  revert i. induction ts as [| t0 rest IH]; intros [| i] Hn Hr; simpl in *; try discriminate.
  - injection Hn as ->. destruct (Kalman.update t cx cy) as [t' r]. simpl in Hr.
    now rewrite Hr.
  - now rewrite (IH i Hn Hr).
Qed.

(** ** The multi-object manager: the steps of update *)

Lemma fresh_ids_snoc (nid : Z) (k : nat) :
  fresh_ids nid (S k) = nid :: fresh_ids (nid + 1) k.
Proof.
  unfold fresh_ids. simpl. f_equal; [lia |].
  rewrite <- seq_shift, map_map. apply map_ext. intros j. lia.
Qed.

Lemma birth_spec (md : list Z) (dets : list Estimator.Detection) :
  forall di ts ids nid,
    Estimator.birth md di dets (ts, ids, nid)
    = (ts ++ map born (unmatched md di dets),
       ids ++ fresh_ids nid (length (unmatched md di dets)),
       (nid + Z.of_nat (length (unmatched md di dets)))%Z).
Proof.
  induction dets as [| d rest IH]; intros di ts ids nid.
  - simpl. rewrite !app_nil_r. f_equal. lia.
  - simpl. destruct (set_mem di md).
    + apply IH.
    + rewrite IH. cbn [map length]. rewrite fresh_ids_snoc.
      rewrite <- !app_assoc. simpl. f_equal. lia.
Qed.

Lemma update_spec (s : Estimator.StateEstimator) (dets : list Estimator.Detection) :
  Estimator.update s dets
  = do a <- association s dets;
    let un := unmatched (Estimator.matched_det_idx a) 0 dets in
    let al := Estimator.alive (Estimator.a_tracks a ++ map born un)
                              (Estimator.track_ids s ++ fresh_ids (Estimator.next_id s) (length un)) in
    Ok (Estimator.mkEstimator (map fst al) (Estimator.max_distance s)
                              (Estimator.next_id s + Z.of_nat (length un)) (map snd al),
        map (Estimator.report (Estimator.det_map dets []))
            (combine (map fst al) (map snd al))).
Proof.
  unfold Estimator.update, association.
  destruct (Estimator.associate _ _ _ _) as [a |]; simpl; [| reflexivity].
  rewrite birth_spec. reflexivity.
Qed.

Lemma combine_fst_snd {A B : Type} (l : list (A * B)) :
  combine (map fst l) (map snd l) = l.
Proof. induction l as [| [a b] l IH]; simpl; [reflexivity | now rewrite IH]. Qed.

(** ** Step 2: greedy nearest-neighbour association *)

Lemma set_mem_In (i : Z) (s : list Z) : set_mem i s = true <-> In i s.
Proof.
  unfold set_mem. rewrite existsb_exists. split.
  - intros (j & Hj & E). apply Z.eqb_eq in E. now subst.
  - intros Hi. exists i. split; [exact Hi | apply Z.eqb_refl].
Qed.

Lemma set_mem_not_In (i : Z) (s : list Z) : set_mem i s = false <-> ~ In i s.
Proof.
  rewrite <- set_mem_In. destruct (set_mem i s); split; intros; easy.
Qed.

Lemma shift_index (ti0 : Z) (j : nat) :
  (ti0 + Z.of_nat (S j))%Z = (ti0 + 1 + Z.of_nat j)%Z.
Proof. lia. Qed.

Lemma find_best_cons (cx cy : R) (mt : list Z) (ti : Z)
      (track : Kalman.ObjectKalman) (rest : list Kalman.ObjectKalman) (best : R * Z) :
  Estimator.find_best cx cy mt ti (track :: rest) best
  = if set_mem ti mt then Estimator.find_best cx cy mt (ti + 1) rest best
    else if Rltb (track_dist cx cy track) (fst best)
         then Estimator.find_best cx cy mt (ti + 1) rest (track_dist cx cy track, ti)
         else Estimator.find_best cx cy mt (ti + 1) rest best.
Proof. reflexivity. Qed.

(** The inner loop returns the first nearest unmatched track that is
    strictly nearer than the initial bound, or leaves the bound untouched. *)
Lemma find_best_spec (cx cy : R) (mt : list Z) (ts : list Kalman.ObjectKalman) :
  forall ti0 b0 i0,
    let r := Estimator.find_best cx cy mt ti0 ts (b0, i0) in
    (r = (b0, i0) /\
     forall j t, nth_error ts j = Some t -> ~ In (ti0 + Z.of_nat j)%Z mt ->
                 ~ track_dist cx cy t < b0)
    \/
    (exists j t,
        nth_error ts j = Some t /\ ~ In (ti0 + Z.of_nat j)%Z mt /\
        r = (track_dist cx cy t, (ti0 + Z.of_nat j)%Z) /\
        track_dist cx cy t < b0 /\
        forall j' t', nth_error ts j' = Some t' -> ~ In (ti0 + Z.of_nat j')%Z mt ->
                      track_dist cx cy t <= track_dist cx cy t' /\
                      ((j' < j)%nat -> track_dist cx cy t < track_dist cx cy t')).
Proof.
  induction ts as [| track rest IH]; intros ti0 b0 i0; cbv zeta.
  - left. split; [reflexivity |]. intros [| j] t Hn; discriminate.
  - rewrite find_best_cons. cbn [fst]. cbv zeta in IH.
    destruct (set_mem ti0 mt) eqn:Em.
    + apply set_mem_In in Em.
      destruct (IH (ti0 + 1)%Z b0 i0) as [[Hr Hno] | (j & t & Hn & Hu & Hr & Hlt & Hmin)].
      * left. split; [exact Hr |].
        intros [| j] t Hn Hu; simpl in Hn.
        -- exfalso. apply Hu. now rewrite Z.add_0_r.
        -- rewrite shift_index in Hu. exact (Hno j t Hn Hu).
      * right. exists (S j), t. rewrite shift_index.
        split; [exact Hn |]. split; [exact Hu |]. split; [exact Hr |].
        split; [exact Hlt |].
        intros [| j'] t' Hn' Hu'; simpl in Hn'.
        -- exfalso. apply Hu'. now rewrite Z.add_0_r.
        -- rewrite shift_index in Hu'. destruct (Hmin j' t' Hn' Hu') as [Hle Hst].
           split; [exact Hle |]. intros Hj. apply Hst. lia.
    + apply set_mem_not_In in Em.
      destruct (Rltb (track_dist cx cy track) b0) eqn:El.
      * apply Rltb_true in El. right.
        destruct (IH (ti0 + 1)%Z (track_dist cx cy track) ti0)
          as [[Hr Hno] | (j & t & Hn & Hu & Hr & Hlt & Hmin)].
        -- exists 0%nat, track. rewrite Z.add_0_r.
           split; [reflexivity |]. split; [exact Em |]. split; [exact Hr |].
           split; [exact El |].
           intros [| j'] t' Hn' Hu'; simpl in Hn'.
           ++ injection Hn' as <-. split; [lra | lia].
           ++ rewrite shift_index in Hu'. pose proof (Hno j' t' Hn' Hu').
              split; [lra | lia].
        -- exists (S j), t. rewrite shift_index.
           split; [exact Hn |]. split; [exact Hu |]. split; [exact Hr |].
           split; [lra |].
           intros [| j'] t' Hn' Hu'; simpl in Hn'.
           ++ injection Hn' as <-. split; [lra | intros _; lra].
           ++ rewrite shift_index in Hu'. destruct (Hmin j' t' Hn' Hu') as [Hle Hst].
              split; [exact Hle |]. intros Hj. apply Hst. lia.
      * apply Rltb_false in El.
        destruct (IH (ti0 + 1)%Z b0 i0) as [[Hr Hno] | (j & t & Hn & Hu & Hr & Hlt & Hmin)].
        -- left. split; [exact Hr |].
           intros [| j] t Hn Hu; simpl in Hn.
           ++ injection Hn as <-. exact El.
           ++ rewrite shift_index in Hu. exact (Hno j t Hn Hu).
        -- right. exists (S j), t. rewrite shift_index.
           split; [exact Hn |]. split; [exact Hu |]. split; [exact Hr |].
           split; [exact Hlt |].
           intros [| j'] t' Hn' Hu'; simpl in Hn'.
           ++ injection Hn' as <-. split; [lra | intros _; lra].
           ++ rewrite shift_index in Hu'. destruct (Hmin j' t' Hn' Hu') as [Hle Hst].
              split; [exact Hle |]. intros Hj. apply Hst. lia.
Qed.

Lemma replace_nth_length {A : Type} (i : nat) (v : A) (l : list A) :
  length (replace_nth i v l) = length l.
Proof.
  revert i. induction l as [| a r IH]; intros [| i]; simpl; try reflexivity.
  now rewrite IH.
Qed.

Lemma replace_nth_other {A : Type} (i j : nat) (v : A) (l : list A) :
  i <> j -> nth_error (replace_nth i v l) j = nth_error l j.
Proof.
  revert i j. induction l as [| a r IH]; intros [| i] [| j] Hij; simpl; try reflexivity.
  - lia.
  - apply IH. lia.
Qed.

Lemma replace_nth_same {A : Type} (i : nat) (v : A) (l : list A) :
  (i < length l)%nat -> nth_error (replace_nth i v l) i = Some v.
Proof.
  revert i. induction l as [| a r IH]; intros [| i] Hi; simpl in *; try lia.
  - reflexivity.
  - apply IH. lia.
Qed.

Lemma update_at_ok (ts ts' : list Kalman.ObjectKalman) (i : nat) (cx cy : R) :
  Estimator.update_at i cx cy ts = Ok ts' ->
  exists t t', nth_error ts i = Some t /\
               Kalman.update t cx cy = (t', Ok tt) /\
               ts' = replace_nth i t' ts.
Proof.
  revert i ts'. induction ts as [| t0 rest IH]; intros [| i] ts' Hu; simpl in Hu;
    try discriminate.
  - destruct (Kalman.update t0 cx cy) as [t' [[] | e]] eqn:Ek; simpl in Hu;
      [| discriminate].
    injection Hu as <-. exists t0, t'. repeat split. exact Ek.
  - destruct (Estimator.update_at i cx cy rest) as [rest' |] eqn:Er; simpl in Hu;
      [| discriminate].
    injection Hu as <-. destruct (IH i rest' Er) as (t & t' & Hn & Hk & ->).
    exists t, t'. repeat split; assumption.
Qed.

Lemma update_at_complete (ts : list Kalman.ObjectKalman) (i : nat) (cx cy : R)
      (t t' : Kalman.ObjectKalman) :
  nth_error ts i = Some t ->
  Kalman.update t cx cy = (t', Ok tt) ->
  Estimator.update_at i cx cy ts = Ok (replace_nth i t' ts).
Proof.
  revert i. induction ts as [| t0 rest IH]; intros [| i] Hn Hk; simpl in *;
    try discriminate.
  - injection Hn as ->. now rewrite Hk.
  - now rewrite (IH i Hn Hk).
Qed.

(** One iteration of the outer loop, in terms of the nearest unmatched
    track. *)
Lemma associate_one_spec (maxd : R) (di : Z) (d : Estimator.Detection)
      (a : Estimator.Assoc) :
  ((forall i t, unmatched_track a i t -> ~ obs_dist d t < maxd) /\
   Estimator.associate_one maxd di d a = Ok a)
  \/
  (exists j tj,
      unmatched_track a j tj /\ obs_dist d tj < maxd /\
      (forall i t, unmatched_track a i t ->
                   obs_dist d tj <= obs_dist d t /\
                   ((i < j)%nat -> obs_dist d tj < obs_dist d t)) /\
      Estimator.associate_one maxd di d a
      = match Kalman.update tj (IZR (Estimator.det_cx d)) (IZR (Estimator.det_cy d)) with
        | (tj', Ok _) =>
            Ok (Estimator.mkAssoc (replace_nth j tj' (Estimator.a_tracks a))
                                  (Z.of_nat j :: Estimator.matched_track_idx a)
                                  (di :: Estimator.matched_det_idx a))
        | (_, Raise e) => Raise e
        end).
Proof.
  unfold Estimator.associate_one, unmatched_track, obs_dist.
  destruct (find_best_spec (IZR (Estimator.det_cx d)) (IZR (Estimator.det_cy d))
                           (Estimator.matched_track_idx a) (Estimator.a_tracks a)
                           0%Z maxd (-1)%Z)
    as [[Hr Hno] | (j & t & Hn & Hu & Hr & Hlt & Hmin)]; cbv zeta in *; rewrite Hr; simpl snd.
  - left. split; [| reflexivity]. intros i t [Hn Hu]. now apply (Hno i t).
  - right. exists j, t. simpl in Hu.
    split; [split; assumption |]. split; [exact Hlt |].
    split; [intros i t' [Hn' Hu']; now apply (Hmin i t') |].
    destruct (Z.leb_spec 0 (Z.of_nat j)); [| lia].
    rewrite Nat2Z.id.
    destruct (Kalman.update t (IZR (Estimator.det_cx d)) (IZR (Estimator.det_cy d)))
      as [t' [[] | e]] eqn:Ek.
    + now rewrite (update_at_complete _ _ _ _ t t' Hn Ek).
    + rewrite (update_at_raise _ _ t _ _ e Hn); [reflexivity | now rewrite Ek].
Qed.

Lemma update_ok_missed (t t' : Kalman.ObjectKalman) (cx cy : R) (u : unit) :
  Kalman.update t cx cy = (t', Ok u) ->
  Kalman.missed t' = 0%Z /\ Kalman.age t' = Kalman.age t.
Proof.
  unfold Kalman.update. destruct (Kalman.inv _); intros E; [| discriminate].
  injection E as <-. split; reflexivity.
Qed.

(** What one iteration of the outer loop changes. *)
Lemma associate_one_step (maxd : R) (di : Z) (d : Estimator.Detection)
      (a a' : Estimator.Assoc) :
  Estimator.associate_one maxd di d a = Ok a' ->
  a' = a \/
  exists j tj tj',
    unmatched_track a j tj /\
    Kalman.update tj (IZR (Estimator.det_cx d)) (IZR (Estimator.det_cy d)) = (tj', Ok tt) /\
    a' = Estimator.mkAssoc (replace_nth j tj' (Estimator.a_tracks a))
                           (Z.of_nat j :: Estimator.matched_track_idx a)
                           (di :: Estimator.matched_det_idx a).
Proof.
  intros Ha.
  destruct (associate_one_spec maxd di d a) as [[_ E] | (j & tj & Hu & _ & _ & E)];
    rewrite E in Ha.
  - left. now injection Ha.
  - right.
    destruct (Kalman.update tj _ _) as [tj' [[] | e]] eqn:Ek; [| discriminate].
    injection Ha as <-. exists j, tj, tj'.
    split; [exact Hu |]. split; [exact Ek | reflexivity].
Qed.

(** The invariants of the outer loop of step 2. *)
Lemma associate_facts (maxd : R) (dets : list Estimator.Detection) :
  forall di a0 a,
    Estimator.associate maxd di dets a0 = Ok a ->
    length (Estimator.a_tracks a) = length (Estimator.a_tracks a0) /\
    (NoDup (Estimator.matched_track_idx a0) -> NoDup (Estimator.matched_track_idx a)) /\
    (forall i, In i (Estimator.matched_track_idx a0) -> In i (Estimator.matched_track_idx a)) /\
    (forall i, ~ In (Z.of_nat i) (Estimator.matched_track_idx a) ->
               nth_error (Estimator.a_tracks a) i = nth_error (Estimator.a_tracks a0) i) /\
    (forall i, In (Z.of_nat i) (Estimator.matched_track_idx a) ->
               ~ In (Z.of_nat i) (Estimator.matched_track_idx a0) ->
               exists t, nth_error (Estimator.a_tracks a) i = Some t /\
                         Kalman.missed t = 0%Z) /\
    (forall k, In k (Estimator.matched_det_idx a) ->
               In k (Estimator.matched_det_idx a0) \/
               (di <= k < di + Z.of_nat (length dets))%Z).
Proof.
  induction dets as [| d rest IH]; intros di a0 a Ha; simpl in Ha.
  - injection Ha as <-. repeat split; auto. intros i Hi Hn. contradiction.
  - destruct (Estimator.associate_one maxd di d a0) as [a1 |] eqn:E1; simpl in Ha;
      [| discriminate].
    destruct (IH (di + 1)%Z a1 a Ha) as (Hlen & Hnd & Hmono & Hsame & Hzero & Hmd).
    destruct (associate_one_step _ _ _ _ _ E1)
      as [-> | (j & tj & tj' & [Hn Hu] & Hk & ->)].
    + repeat split; auto.
      intros k Hk. destruct (Hmd k Hk) as [? | ?]; [now left | right].
      simpl length. lia.
    + simpl in *. rewrite replace_nth_length in Hlen.
      assert (Hj : (j < length (Estimator.a_tracks a0))%nat).
      { apply nth_error_Some. now rewrite Hn. }
      split; [exact Hlen |].
      split; [intros Hd; apply Hnd; now constructor |].
      split; [intros i Hi; apply Hmono; now right |].
      split.
      { intros i Hi. rewrite (Hsame i Hi). apply replace_nth_other.
        intros ->. apply Hi, Hmono. now left. }
      split.
      { intros i Hi Hi0.
        destruct (Nat.eq_dec i j) as [-> | Hij].
        - (* track j is updated in this iteration; later iterations leave it *)
          assert (Hlater : forall rest' di' a1' a',
                     Estimator.associate maxd di' rest' a1' = Ok a' ->
                     In (Z.of_nat j) (Estimator.matched_track_idx a1') ->
                     nth_error (Estimator.a_tracks a') j
                     = nth_error (Estimator.a_tracks a1') j).
          { clear. induction rest' as [| d' rest' IHr]; intros di' a1' a' Ha' Hin;
              simpl in Ha'.
            - now injection Ha' as <-.
            - destruct (Estimator.associate_one maxd di' d' a1') as [a2 |] eqn:E2;
                simpl in Ha'; [| discriminate].
              destruct (associate_one_step _ _ _ _ _ E2)
                as [-> | (j2 & t2 & t2' & [Hn2 Hu2] & _ & ->)].
              + now apply (IHr (di' + 1)%Z a1' a').
              + rewrite (IHr _ _ _ Ha'); simpl; [| now right].
                apply replace_nth_other. intros ->. contradiction. }
          rewrite (Hlater rest (di + 1)%Z _ a Ha); simpl; [| now left].
          rewrite replace_nth_same by exact Hj.
          exists tj'. split; [reflexivity |]. apply (update_ok_missed _ _ _ _ _ Hk).
        - apply Hzero; [exact Hi |]. intros [E | Hin]; [lia | contradiction]. }
      intros k Hkin. destruct (Hmd k Hkin) as [[<- | ?] | ?].
      * right. lia.
      * now left.
      * right. lia.
Qed.

Lemma update_inv (s s' : Estimator.StateEstimator) (dets : list Estimator.Detection)
      (res : list Estimator.TrackState) :
  Estimator.update s dets = Ok (s', res) ->
  exists a,
    association s dets = Ok a /\
    let un := unmatched (Estimator.matched_det_idx a) 0 dets in
    let al := Estimator.alive (Estimator.a_tracks a ++ map born un)
                (Estimator.track_ids s ++ fresh_ids (Estimator.next_id s) (length un)) in
    s' = Estimator.mkEstimator (map fst al) (Estimator.max_distance s)
                               (Estimator.next_id s + Z.of_nat (length un)) (map snd al) /\
    res = map (Estimator.report (Estimator.det_map dets [])) al.
Proof.
  rewrite update_spec. destruct (association s dets) as [a |]; simpl; [| discriminate].
  intros E. injection E as <- <-. exists a. split; [reflexivity |].
  split; [reflexivity |]. now rewrite combine_fst_snd.
Qed.

(** C4: observations are treated in input order; each is matched to the
    nearest track not yet matched in this frame (the first such track on a
    tie) exactly when that distance is strictly below the threshold, the
    match calling the track's update; a matched track is not matched again
    in the frame; an observation with no track within the threshold is left
    unmatched, without error, and births a track.  The pipeline's threshold
    is 80.  The distance is the Euclidean distance from the centre of the
    observation to the first two components of the track's state vector,
    which at association time are those of the predicted state,
    (x + vx, y + vy). *)
Theorem C4_greedy_nearest_neighbour :
  (forall maxd di d a,
      ((forall i t, unmatched_track a i t -> ~ obs_dist d t < maxd) /\
       Estimator.associate_one maxd di d a = Ok a)
      \/
      (exists j tj,
          unmatched_track a j tj /\ obs_dist d tj < maxd /\
          (forall i t, unmatched_track a i t ->
                       obs_dist d tj <= obs_dist d t /\
                       ((i < j)%nat -> obs_dist d tj < obs_dist d t)) /\
          Estimator.associate_one maxd di d a
          = match Kalman.update tj (IZR (Estimator.det_cx d))
                                (IZR (Estimator.det_cy d)) with
            | (tj', Ok _) =>
                Ok (Estimator.mkAssoc (replace_nth j tj' (Estimator.a_tracks a))
                                      (Z.of_nat j :: Estimator.matched_track_idx a)
                                      (di :: Estimator.matched_det_idx a))
            | (_, Raise e) => Raise e
            end)) /\
  (forall maxd d rest di a,
      Estimator.associate maxd di (d :: rest) a
      = do a' <- Estimator.associate_one maxd di d a;
        Estimator.associate maxd (di + 1) rest a') /\
  (forall s dets a,
      association s dets = Ok a ->
      NoDup (Estimator.matched_track_idx a) /\
      length (Estimator.a_tracks a) = length (Estimator.tracks s) /\
      (forall i, ~ In (Z.of_nat i) (Estimator.matched_track_idx a) ->
                 nth_error (Estimator.a_tracks a) i
                 = nth_error (map Kalman.predict (Estimator.tracks s)) i)) /\
  (forall s dets s' res,
      Estimator.update s dets = Ok (s', res) ->
      exists a,
        association s dets = Ok a /\
        Estimator.tracks s'
        = map fst (Estimator.alive
                     (Estimator.a_tracks a
                      ++ map born (unmatched (Estimator.matched_det_idx a) 0 dets))
                     (Estimator.track_ids s
                      ++ fresh_ids (Estimator.next_id s)
                           (length (unmatched (Estimator.matched_det_idx a) 0 dets))))) /\
  (forall c, exists pl,
      Pipeline.start c = Ok pl /\
      Estimator.max_distance (Pipeline.estimator pl) = 80) /\
  (forall x0 x1 x2 x3 Pm ag ms d,
      obs_dist d (Kalman.mkKalman [[x0]; [x1]; [x2]; [x3]] Pm ag ms)
      = sqrt ((IZR (Estimator.det_cx d) - x0) * (IZR (Estimator.det_cx d) - x0)
              + (IZR (Estimator.det_cy d) - x1) * (IZR (Estimator.det_cy d) - x1))) /\
  (forall x0 x1 x2 x3 Pm ag ms d,
      obs_dist d (Kalman.predict (Kalman.mkKalman [[x0]; [x1]; [x2]; [x3]] Pm ag ms))
      = sqrt ((IZR (Estimator.det_cx d) - (x0 + x2))
              * (IZR (Estimator.det_cx d) - (x0 + x2))
              + (IZR (Estimator.det_cy d) - (x1 + x3))
                * (IZR (Estimator.det_cy d) - (x1 + x3)))).
Proof.
  split; [exact associate_one_spec |].
  split; [reflexivity |].
  split; [| split; [| split; [| split]]].
  5:{ intros x0 x1 x2 x3 Pm ag ms d.
      unfold obs_dist, track_dist, hypot, Kalman.position, Kalman.predict, Kalman.entry,
        Kalman.F, Kalman.dt.
      cbn. f_equal. ring. }
  4:{ intros x0 x1 x2 x3 Pm ag ms d. reflexivity. }
  3:{ intros c. eexists. split; reflexivity. }
  - intros s dets a Ha. unfold association in Ha.
    destruct (associate_facts _ _ _ _ _ Ha) as (Hlen & Hnd & _ & Hsame & _).
    simpl in *. rewrite length_map in Hlen.
    split; [apply Hnd; constructor |]. split; [exact Hlen | exact Hsame].
  - intros s dets s' res Hu.
    destruct (update_inv _ _ _ _ Hu) as (a & Ha & Hs & _).
    exists a. split; [exact Ha |]. rewrite Hs. reflexivity.
Qed.



(** ** Identifiers *)

Lemma alive_ids_in (ts : list Kalman.ObjectKalman) (ids : list Z) (i : Z) :
  In i (map snd (Estimator.alive ts ids)) -> In i ids.
Proof.
  unfold Estimator.alive. intros Hi. apply in_map_iff in Hi.
  destruct Hi as ([t j] & <- & Hin). apply filter_In in Hin.
  destruct Hin as [Hin _]. now apply in_combine_r in Hin.
Qed.

Lemma alive_ids_sorted (ids : list Z) :
  StronglySorted Z.lt ids ->
  forall ts, StronglySorted Z.lt (map snd (Estimator.alive ts ids)).
Proof.
  induction 1 as [| i ids Hs IH Hi]; intros [| t ts]; try constructor.
  unfold Estimator.alive in *. simpl.
  destruct (negb (Kalman.stale t)); simpl; [| apply IH].
  constructor; [apply IH |].
  apply Forall_forall. intros j Hj.
  apply (alive_ids_in ts ids) in Hj.
  rewrite Forall_forall in Hi. now apply Hi.
Qed.

Lemma alive_lengths (ts : list Kalman.ObjectKalman) (ids : list Z) :
  length (map fst (Estimator.alive ts ids)) = length (map snd (Estimator.alive ts ids)).
Proof. now rewrite !length_map. Qed.

Lemma fresh_ids_in (nid : Z) (k : nat) (i : Z) :
  In i (fresh_ids nid k) <-> (nid <= i < nid + Z.of_nat k)%Z.
Proof.
  unfold fresh_ids. rewrite in_map_iff. split.
  - intros (j & <- & Hj). apply in_seq in Hj. lia.
  - intros Hi. exists (Z.to_nat (i - nid)). split; [lia |]. apply in_seq. lia.
Qed.

Lemma fresh_ids_sorted (k : nat) : forall nid, StronglySorted Z.lt (fresh_ids nid k).
Proof.
  induction k as [| k IH]; intros nid; [constructor |].
  rewrite fresh_ids_snoc. constructor; [apply IH |].
  apply Forall_forall. intros i Hi. apply fresh_ids_in in Hi. lia.
Qed.

Lemma sorted_app (l1 l2 : list Z) :
  StronglySorted Z.lt l1 -> StronglySorted Z.lt l2 ->
  (forall a b, In a l1 -> In b l2 -> (a < b)%Z) ->
  StronglySorted Z.lt (l1 ++ l2).
Proof.
  induction 1 as [| a l1 Hs IH Ha]; intros H2 Hlt; simpl; [exact H2 |].
  constructor.
  - apply IH; [exact H2 |]. intros x y Hx Hy. apply Hlt; [now right | exact Hy].
  - apply Forall_app. split; [exact Ha |].
    apply Forall_forall. intros y Hy. apply Hlt; [now left | exact Hy].
Qed.

Lemma sorted_NoDup (l : list Z) : StronglySorted Z.lt l -> NoDup l.
Proof.
  induction 1 as [| a l Hs IH Ha]; constructor; [| exact IH].
  intros Hin. rewrite Forall_forall in Ha. specialize (Ha a Hin). lia.
Qed.

(** The identifiers after one frame. *)
Lemma update_ids (s s' : Estimator.StateEstimator) (dets : list Estimator.Detection)
      (res : list Estimator.TrackState) :
  ids_fresh s ->
  Estimator.update s dets = Ok (s', res) ->
  ids_fresh s' /\ paired s' /\
  (Estimator.next_id s <= Estimator.next_id s')%Z /\
  (forall i, In i (Estimator.track_ids s') ->
             In i (Estimator.track_ids s) \/
             (Estimator.next_id s <= i < Estimator.next_id s')%Z) /\
  map Estimator.s_id res = Estimator.track_ids s'.
Proof.
  intros [Hsorted Hbound] Hu.
  destruct (update_inv _ _ _ _ Hu) as (a & Ha & Hs & Hres). cbv zeta in *.
  set (un := unmatched (Estimator.matched_det_idx a) 0 dets) in *.
  rewrite Forall_forall in Hbound.
  assert (Hall : StronglySorted Z.lt
                   (Estimator.track_ids s ++ fresh_ids (Estimator.next_id s) (length un))).
  { apply sorted_app; [exact Hsorted | apply fresh_ids_sorted |].
    intros x y Hx Hy. apply Hbound in Hx. apply fresh_ids_in in Hy. lia. }
  rewrite Hs. unfold ids_fresh, paired. simpl.
  split; [split |].
  - now apply alive_ids_sorted.
  - apply Forall_forall. intros i Hi. apply alive_ids_in in Hi.
    apply in_app_or in Hi. destruct Hi as [Hi | Hi].
    + apply Hbound in Hi. lia.
    + apply fresh_ids_in in Hi. specialize (Hbound i). lia.
  - split; [apply alive_lengths |].
    split; [lia |].
    split.
    + intros i Hi. apply alive_ids_in in Hi.
      apply in_app_or in Hi. destruct Hi as [Hi | Hi]; [now left | right].
      now apply fresh_ids_in in Hi.
    + rewrite Hres, map_map. apply map_ext.
      intros [t tid]. unfold Estimator.report.
      destruct (Kalman.position t), (Kalman.velocity t). reflexivity.
Qed.

Lemma nth_error_combine {A B : Type} (l1 : list A) (l2 : list B) (i : nat) (a : A) (b : B) :
  nth_error l1 i = Some a -> nth_error l2 i = Some b ->
  nth_error (combine l1 l2) i = Some (a, b).
Proof.
  revert l2 i. induction l1 as [| x l1 IH]; intros [| y l2] [| i] H1 H2;
    simpl in *; try discriminate.
  - now injection H1 as ->; injection H2 as ->.
  - now apply IH.
Qed.

Lemma in_combine_nth {A B : Type} (l1 : list A) (l2 : list B) (a : A) (b : B) :
  In (a, b) (combine l1 l2) ->
  exists i, nth_error l1 i = Some a /\ nth_error l2 i = Some b.
Proof.
  revert l2. induction l1 as [| x l1 IH]; intros [| y l2] Hin; simpl in Hin;
    try contradiction.
  destruct Hin as [E | Hin].
  - injection E as -> ->. now exists 0%nat.
  - destruct (IH l2 Hin) as (i & H1 & H2). now exists (S i).
Qed.

(** A track and its identifier stay together through pruning: the pair is
    kept when the track is not stale, and the identifier disappears when it
    is. *)
Lemma alive_pair (ts : list Kalman.ObjectKalman) (ids : list Z) (i : nat)
      (t : Kalman.ObjectKalman) (tid : Z) :
  NoDup ids ->
  nth_error ts i = Some t -> nth_error ids i = Some tid ->
  (Kalman.stale t = false -> In (t, tid) (Estimator.alive ts ids)) /\
  (Kalman.stale t = true -> ~ In tid (map snd (Estimator.alive ts ids))).
Proof.
  intros Hnd Ht Hid. unfold Estimator.alive. split.
  - intros Hs. apply filter_In. split.
    + eapply nth_error_In. apply (nth_error_combine _ _ i); eassumption.
    + simpl. now rewrite Hs.
  - intros Hs Hin. apply in_map_iff in Hin. destruct Hin as ([t' tid'] & E & Hin).
    simpl in E. subst tid'. apply filter_In in Hin. destruct Hin as [Hin Hns].
    simpl in Hns. apply in_combine_nth in Hin. destruct Hin as (k & Hk1 & Hk2).
    assert (k = i).
    { rewrite NoDup_nth_error in Hnd. apply Hnd.
      - apply nth_error_Some. now rewrite Hk2.
      - now rewrite Hk2, Hid. }
    subst k. rewrite Ht in Hk1. injection Hk1 as <-. rewrite Hs in Hns. discriminate.
Qed.

Lemma nth_error_app_l {A : Type} (l1 l2 : list A) (i : nat) (a : A) :
  nth_error l1 i = Some a -> nth_error (l1 ++ l2) i = Some a.
Proof.
  intros H. rewrite nth_error_app1; [exact H |]. apply nth_error_Some. now rewrite H.
Qed.

(** The fate of track number [i] of the pool in one frame: after steps 1
    and 2 it is [t']; it keeps its identifier if it is not stale and is
    removed with it otherwise. *)
Lemma update_track_fate (s s' : Estimator.StateEstimator)
      (dets : list Estimator.Detection) (res : list Estimator.TrackState)
      (a : Estimator.Assoc) (i : nat) (t' : Kalman.ObjectKalman) (tid : Z) :
  ids_fresh s ->
  Estimator.update s dets = Ok (s', res) ->
  association s dets = Ok a ->
  nth_error (Estimator.a_tracks a) i = Some t' ->
  nth_error (Estimator.track_ids s) i = Some tid ->
  (Kalman.stale t' = false ->
   In (t', tid) (combine (Estimator.tracks s') (Estimator.track_ids s'))) /\
  (Kalman.stale t' = true -> ~ In tid (Estimator.track_ids s')).
Proof.
  intros [Hsorted Hbound] Hu Ha Ht Hid.
  destruct (update_inv _ _ _ _ Hu) as (a' & Ha' & Hs & _).
  rewrite Ha in Ha'. injection Ha' as <-. cbv zeta in Hs.
  set (un := unmatched (Estimator.matched_det_idx a) 0 dets) in *.
  rewrite Hs. simpl. rewrite combine_fst_snd.
  apply alive_pair with (i := i).
  - apply sorted_NoDup, sorted_app; [exact Hsorted | apply fresh_ids_sorted |].
    rewrite Forall_forall in Hbound.
    intros x y Hx Hy. apply Hbound in Hx. apply fresh_ids_in in Hy. lia.
  - now apply nth_error_app_l.
  - now apply nth_error_app_l.
Qed.

Lemma run_frames_ids (frames : list (list Estimator.Detection)) :
  forall s s_end,
    ids_fresh s ->
    run_frames s frames = Ok s_end ->
    ids_fresh s_end /\
    (Estimator.next_id s <= Estimator.next_id s_end)%Z /\
    (forall i, In i (Estimator.track_ids s_end) ->
               In i (Estimator.track_ids s) \/ (Estimator.next_id s <= i)%Z).
Proof.
  induction frames as [| dets rest IH]; intros s s_end Hf Hr; simpl in Hr.
  - injection Hr as <-. split; [exact Hf |]. split; [lia | now left].
  - destruct (Estimator.update s dets) as [[s1 res] |] eqn:Eu; simpl in Hr; [| discriminate].
    destruct (update_ids _ _ _ _ Hf Eu) as (Hf1 & _ & Hle & Hnew & _).
    destruct (IH s1 s_end Hf1 Hr) as (Hfe & Hle' & Hnew').
    split; [exact Hfe |]. split; [lia |].
    intros i Hi. destruct (Hnew' i Hi) as [Hi1 | Hi1]; [| right; lia].
    destruct (Hnew i Hi1) as [? | ?]; [now left | right; lia].
Qed.

Lemma born_not_stale (d : Estimator.Detection) : Kalman.stale (born d) = false.
Proof. reflexivity. Qed.

Lemma combine_append {A B : Type} (l1 l2 : list A) (m1 m2 : list B) :
  length l1 = length m1 ->
  combine (l1 ++ l2) (m1 ++ m2) = combine l1 m1 ++ combine l2 m2.
Proof.
  revert m1. induction l1 as [| a l1 IH]; intros [| b m1] Hlen; simpl in *;
    try discriminate; [reflexivity |].
  f_equal. apply IH. lia.
Qed.

Lemma map_fst_combine {A B : Type} (l : list A) (m : list B) :
  length l = length m -> map fst (combine l m) = l.
Proof.
  revert m. induction l as [| a l IH]; intros [| b m] Hlen; simpl in *;
    try discriminate; [reflexivity |].
  f_equal. apply IH. lia.
Qed.

Lemma map_snd_combine {A B : Type} (l : list A) (m : list B) :
  length l = length m -> map snd (combine l m) = m.
Proof.
  revert m. induction l as [| a l IH]; intros [| b m] Hlen; simpl in *;
    try discriminate; [reflexivity |].
  f_equal. apply IH. lia.
Qed.

Lemma alive_app (l1 l2 : list Kalman.ObjectKalman) (i1 i2 : list Z) :
  length l1 = length i1 ->
  Estimator.alive (l1 ++ l2) (i1 ++ i2) = Estimator.alive l1 i1 ++ Estimator.alive l2 i2.
Proof.
  intros Hlen. unfold Estimator.alive. rewrite combine_append by exact Hlen.
  apply filter_app.
Qed.

Lemma alive_born (dets : list Estimator.Detection) (ids : list Z) :
  Estimator.alive (map born dets) ids = combine (map born dets) ids.
Proof.
  unfold Estimator.alive. revert ids.
  induction dets as [| d dets IH]; intros [| i ids]; simpl; try reflexivity.
  now rewrite IH.
Qed.

Lemma fresh_ids_length (nid : Z) (k : nat) : length (fresh_ids nid k) = k.
Proof. unfold fresh_ids. now rewrite length_map, length_seq. Qed.

Lemma associate_none (maxd : R) (ts : list Kalman.ObjectKalman)
      (dets : list Estimator.Detection) :
  (forall d t, In d dets -> In t ts -> ~ obs_dist d t < maxd) ->
  forall di mt md,
    Estimator.associate maxd di dets (Estimator.mkAssoc ts mt md)
    = Ok (Estimator.mkAssoc ts mt md).
Proof.
  induction dets as [| d rest IH]; intros Hfar di mt md; simpl; [reflexivity |].
  destruct (associate_one_spec maxd di d (Estimator.mkAssoc ts mt md))
    as [[_ E] | (j & tj & [Hn _] & Hlt & _)].
  - rewrite E. simpl. apply IH. intros d' t Hd Ht. apply Hfar; [now right | exact Ht].
  - exfalso. apply (Hfar d tj); [now left | | exact Hlt].
    simpl in Hn. eapply nth_error_In. exact Hn.
Qed.

Lemma unmatched_none (dets : list Estimator.Detection) :
  forall di, unmatched [] di dets = dets.
Proof. induction dets as [| d rest IH]; intros di; simpl; [| rewrite IH]; reflexivity. Qed.

(** A frame in which no detection is within the threshold of a track: every
    detection births a track, with the next identifiers in input order. *)
Lemma update_all_births (s s' : Estimator.StateEstimator)
      (dets : list Estimator.Detection) (res : list Estimator.TrackState) :
  paired s ->
  (forall d t, In d dets -> In t (Estimator.tracks s) ->
               ~ obs_dist d (Kalman.predict t) < Estimator.max_distance s) ->
  Estimator.update s dets = Ok (s', res) ->
  Estimator.track_ids s'
  = map snd (Estimator.alive (map Kalman.predict (Estimator.tracks s)) (Estimator.track_ids s))
    ++ fresh_ids (Estimator.next_id s) (length dets) /\
  Estimator.tracks s'
  = map fst (Estimator.alive (map Kalman.predict (Estimator.tracks s)) (Estimator.track_ids s))
    ++ map born dets /\
  Estimator.next_id s' = (Estimator.next_id s + Z.of_nat (length dets))%Z.
Proof.
  intros Hp Hfar Hu. rewrite update_spec in Hu. unfold association in Hu.
  rewrite associate_none in Hu.
  2:{ intros d t Hd Ht. apply in_map_iff in Ht. destruct Ht as (t0 & <- & Ht0).
      now apply Hfar. }
  simpl in Hu. rewrite unmatched_none in Hu. injection Hu as <- _. simpl.
  rewrite alive_app by (rewrite length_map; exact Hp).
  rewrite alive_born, !map_app.
  assert (Hl : length (map born dets) = length (fresh_ids (Estimator.next_id s) (length dets))).
  { now rewrite length_map, fresh_ids_length. }
  rewrite (map_fst_combine _ _ Hl), (map_snd_combine _ _ Hl).
  repeat split.
Qed.

Lemma filter_map_length {A B : Type} (f : B -> bool) (g : A -> B) (l : list A) :
  length (filter f (map g l)) = length (filter (fun a => f (g a)) l).
Proof.
  induction l as [| a l IH]; [reflexivity |]. simpl.
  destruct (f (g a)); simpl; now rewrite IH.
Qed.

(** The births that precede observation [i], counted from the observation
    of index [di]. *)
Lemma births_from_step (md : list Z) (di : Z) (i : nat) :
  length (filter (fun k => if in_dec Z.eq_dec (di + Z.of_nat k)%Z md then false else true)
                 (seq 0 (S i)))
  = ((if in_dec Z.eq_dec di md then 0 else 1)
     + length (filter (fun k => if in_dec Z.eq_dec (di + 1 + Z.of_nat k)%Z md
                                then false else true)
                      (seq 0 i)))%nat.
Proof.
  assert (E : length (filter (fun k => if in_dec Z.eq_dec (di + Z.of_nat k)%Z md
                                        then false else true)
                              (map S (seq 0 i)))
              = length (filter (fun k => if in_dec Z.eq_dec (di + 1 + Z.of_nat k)%Z md
                                         then false else true)
                               (seq 0 i))).
  { rewrite filter_map_length. f_equal. apply filter_ext.
    intros k. now rewrite shift_index. }
  change (seq 0 (S i)) with (0%nat :: seq 1 i). rewrite <- seq_shift. cbn [filter].
  replace (di + Z.of_nat 0)%Z with di by lia.
  destruct (in_dec Z.eq_dec di md); cbn [length]; rewrite E; reflexivity.
Qed.

Lemma unmatched_nth (md : list Z) (dets : list Estimator.Detection) :
  forall di i d,
    nth_error dets i = Some d ->
    ~ In (di + Z.of_nat i)%Z md ->
    nth_error (unmatched md di dets)
              (length (filter (fun k => if in_dec Z.eq_dec (di + Z.of_nat k)%Z md
                                        then false else true)
                              (seq 0 i)))
    = Some d.
Proof.
  induction dets as [| d0 rest IH]; intros di i d Hn Hni; [now destruct i |].
  destruct i as [| i].
  - simpl in Hn. injection Hn as ->. cbn [seq filter length unmatched].
    replace (di + Z.of_nat 0)%Z with di in Hni by lia.
    now rewrite (proj2 (set_mem_not_In di md) Hni).
  - simpl in Hn. rewrite births_from_step. rewrite shift_index in Hni.
    specialize (IH (di + 1)%Z i d Hn Hni). cbn [unmatched].
    destruct (in_dec Z.eq_dec di md) as [Hin | Hnin].
    + rewrite (proj2 (set_mem_In di md) Hin). exact IH.
    + rewrite (proj2 (set_mem_not_In di md) Hnin). exact IH.
Qed.

Lemma unmatched_length (md : list Z) (dets : list Estimator.Detection) :
  forall di,
    length (unmatched md di dets)
    = length (filter (fun k => if in_dec Z.eq_dec (di + Z.of_nat k)%Z md
                               then false else true)
                     (seq 0 (length dets))).
Proof.
  induction dets as [| d0 rest IH]; intros di; [reflexivity |].
  cbn [length]. rewrite births_from_step. cbn [unmatched].
  destruct (in_dec Z.eq_dec di md) as [Hin | Hnin].
  - rewrite (proj2 (set_mem_In di md) Hin). apply IH.
  - rewrite (proj2 (set_mem_not_In di md) Hnin). cbn [length]. now rewrite IH.
Qed.

Lemma unmatched_in (md : list Z) (dets : list Estimator.Detection) :
  forall di d,
    In d (unmatched md di dets) ->
    exists i, nth_error dets i = Some d /\ ~ In (di + Z.of_nat i)%Z md.
Proof.
  induction dets as [| d0 rest IH]; intros di d Hin; [contradiction |].
  cbn [unmatched] in Hin.
  destruct (set_mem di md) eqn:E.
  - destruct (IH _ _ Hin) as (i & Hn & Hni). exists (S i).
    split; [exact Hn |]. now rewrite shift_index.
  - destruct Hin as [-> | Hin].
    + exists 0%nat. split; [reflexivity |].
      replace (di + Z.of_nat 0)%Z with di by lia. now apply set_mem_not_In.
    + destruct (IH _ _ Hin) as (i & Hn & Hni). exists (S i).
      split; [exact Hn |]. now rewrite shift_index.
Qed.

Lemma births_before_lt (md : list Z) (i j : nat) :
  (i < j)%nat -> ~ In (Z.of_nat i) md ->
  (births_before md i < births_before md j)%nat.
Proof.
  intros Hij Hni. unfold births_before.
  replace j with (i + S (j - S i))%nat by lia.
  rewrite seq_app, filter_app, length_app. cbn [seq filter Nat.add].
  destruct (in_dec Z.eq_dec (Z.of_nat i) md); [contradiction |].
  cbn [length]. lia.
Qed.

(** The births of a frame, whatever was matched in it. *)
Lemma update_births (s s' : Estimator.StateEstimator)
      (dets : list Estimator.Detection) (res : list Estimator.TrackState) :
  paired s ->
  Estimator.update s dets = Ok (s', res) ->
  exists a,
    association s dets = Ok a /\
    Estimator.track_ids s'
    = map snd (Estimator.alive (Estimator.a_tracks a) (Estimator.track_ids s))
      ++ fresh_ids (Estimator.next_id s)
           (length (unmatched (Estimator.matched_det_idx a) 0 dets)) /\
    Estimator.tracks s'
    = map fst (Estimator.alive (Estimator.a_tracks a) (Estimator.track_ids s))
      ++ map born (unmatched (Estimator.matched_det_idx a) 0 dets) /\
    Estimator.next_id s'
    = (Estimator.next_id s
       + Z.of_nat (births_before (Estimator.matched_det_idx a) (length dets)))%Z /\
    (forall i d,
        nth_error dets i = Some d ->
        ~ In (Z.of_nat i) (Estimator.matched_det_idx a) ->
        In (born d,
            (Estimator.next_id s
             + Z.of_nat (births_before (Estimator.matched_det_idx a) i))%Z)
           (combine (Estimator.tracks s') (Estimator.track_ids s'))).
Proof.
  intros Hp Hu. destruct (update_inv _ _ _ _ Hu) as (a & Ha & Hs & _).
  exists a. split; [exact Ha |].
  set (md := Estimator.matched_det_idx a) in *.
  set (un := unmatched md 0 dets) in *. cbv zeta in Hs.
  assert (Hlen : length (Estimator.a_tracks a) = length (Estimator.track_ids s)).
  { unfold association in Ha.
    destruct (associate_facts _ _ _ _ _ Ha) as (Hl & _). simpl in Hl.
    rewrite length_map in Hl. now rewrite Hl. }
  rewrite alive_app in Hs by exact Hlen.
  rewrite alive_born, !map_app in Hs.
  assert (Hl : length (map born un) = length (fresh_ids (Estimator.next_id s) (length un))).
  { now rewrite length_map, fresh_ids_length. }
  rewrite (map_fst_combine _ _ Hl), (map_snd_combine _ _ Hl) in Hs.
  rewrite Hs. cbn [Estimator.track_ids Estimator.tracks Estimator.next_id].
  split; [reflexivity |]. split; [reflexivity |].
  split.
  { unfold un, births_before. now rewrite (unmatched_length md dets 0). }
  intros i d Hn Hni.
  rewrite combine_append by now rewrite !length_map.
  apply in_or_app. right.
  pose proof (unmatched_nth md dets 0 i d Hn Hni) as Hnth.
  change (nth_error un (births_before md i) = Some d) in Hnth.
  eapply nth_error_In. apply nth_error_combine.
  - rewrite nth_error_map, Hnth. reflexivity.
  - unfold fresh_ids. rewrite nth_error_map.
    rewrite (nth_error_nth' _ 0%nat).
    + rewrite seq_nth; [reflexivity |].
      apply nth_error_Some. now rewrite Hnth.
    + rewrite length_seq. apply nth_error_Some. now rewrite Hnth.
Qed.

(** C9: identifiers are unique and strictly increasing in the pool, each is
    assigned once, at birth, from a counter that never decreases, stays with
    its track for the track's lifetime, and is never assigned again after
    its track is pruned.  In every frame, whatever is matched in it, the
    observations left unmatched birth tracks with consecutive identifiers in
    the order the observations were given: observation number [i], when
    unmatched, births the track with identifier [next_id + k], [k] the number
    of unmatched observations before it. *)
Theorem C9_identifiers_unique_increasing :
  (forall d, ids_fresh (Estimator.init d) /\ paired (Estimator.init d) /\
             Estimator.next_id (Estimator.init d) = 0%Z) /\
  (forall s dets s' res,
      ids_fresh s ->
      Estimator.update s dets = Ok (s', res) ->
      ids_fresh s' /\ paired s' /\ NoDup (Estimator.track_ids s') /\
      (Estimator.next_id s <= Estimator.next_id s')%Z /\
      (forall i, In i (Estimator.track_ids s') ->
                 In i (Estimator.track_ids s) \/
                 (Estimator.next_id s <= i < Estimator.next_id s')%Z) /\
      map Estimator.s_id res = Estimator.track_ids s' /\
      exists a,
        association s dets = Ok a /\
        forall i t' tid,
          nth_error (Estimator.a_tracks a) i = Some t' ->
          nth_error (Estimator.track_ids s) i = Some tid ->
          In tid (Estimator.track_ids s') ->
          In (t', tid) (combine (Estimator.tracks s') (Estimator.track_ids s'))) /\
  (forall frames s s_end,
      ids_fresh s ->
      run_frames s frames = Ok s_end ->
      ids_fresh s_end /\
      (Estimator.next_id s <= Estimator.next_id s_end)%Z /\
      (forall i, (i < Estimator.next_id s)%Z ->
                 ~ In i (Estimator.track_ids s) ->
                 ~ In i (Estimator.track_ids s_end))) /\
  (forall s dets s' res,
      paired s ->
      (forall d t, In d dets -> In t (Estimator.tracks s) ->
                   ~ obs_dist d (Kalman.predict t) < Estimator.max_distance s) ->
      Estimator.update s dets = Ok (s', res) ->
      Estimator.track_ids s'
      = map snd (Estimator.alive (map Kalman.predict (Estimator.tracks s))
                                 (Estimator.track_ids s))
        ++ fresh_ids (Estimator.next_id s) (length dets) /\
      Estimator.tracks s'
      = map fst (Estimator.alive (map Kalman.predict (Estimator.tracks s))
                                 (Estimator.track_ids s))
        ++ map born dets /\
      Estimator.next_id s' = (Estimator.next_id s + Z.of_nat (length dets))%Z) /\
  (forall s dets s' res,
      paired s ->
      Estimator.update s dets = Ok (s', res) ->
      exists a,
        association s dets = Ok a /\
        Estimator.track_ids s'
        = map snd (Estimator.alive (Estimator.a_tracks a) (Estimator.track_ids s))
          ++ fresh_ids (Estimator.next_id s)
               (length (unmatched (Estimator.matched_det_idx a) 0 dets)) /\
        Estimator.tracks s'
        = map fst (Estimator.alive (Estimator.a_tracks a) (Estimator.track_ids s))
          ++ map born (unmatched (Estimator.matched_det_idx a) 0 dets) /\
        Estimator.next_id s'
        = (Estimator.next_id s
           + Z.of_nat (births_before (Estimator.matched_det_idx a) (length dets)))%Z /\
        (forall i d,
            nth_error dets i = Some d ->
            ~ In (Z.of_nat i) (Estimator.matched_det_idx a) ->
            In (born d,
                (Estimator.next_id s
                 + Z.of_nat (births_before (Estimator.matched_det_idx a) i))%Z)
               (combine (Estimator.tracks s') (Estimator.track_ids s')))) /\
  (forall md dets d,
      In d (unmatched md 0 dets) <->
      exists i, nth_error dets i = Some d /\ ~ In (Z.of_nat i) md) /\
  (forall md i j,
      (i < j)%nat -> ~ In (Z.of_nat i) md ->
      (births_before md i < births_before md j)%nat).
Proof.
  split; [| split; [| split; [| split; [| split; [| split]]]]].
  - intros d. unfold ids_fresh, paired. simpl. repeat split; constructor.
  - intros s dets s' res Hf Hu.
    destruct (update_ids _ _ _ _ Hf Hu) as (Hf' & Hp' & Hle & Hnew & Hres).
    split; [exact Hf' |]. split; [exact Hp' |].
    split; [apply sorted_NoDup, Hf' |].
    split; [exact Hle |]. split; [exact Hnew |]. split; [exact Hres |].
    destruct (update_inv _ _ _ _ Hu) as (a & Ha & _).
    exists a. split; [exact Ha |].
    intros i t' tid Ht Hid Hin.
    destruct (update_track_fate _ _ _ _ _ _ _ _ Hf Hu Ha Ht Hid) as [Hkeep Hdrop].
    destruct (Kalman.stale t'); [| now apply Hkeep].
    exfalso. now apply Hdrop.
  - intros frames s s_end Hf Hr.
    destruct (run_frames_ids _ _ _ Hf Hr) as (Hfe & Hle & Hnew).
    split; [exact Hfe |]. split; [exact Hle |].
    intros i Hi Hni Hin. destruct (Hnew i Hin) as [? | ?]; [contradiction | lia].
  - intros s dets s' res. apply update_all_births.
  - intros s dets s' res. apply update_births.
  - intros md dets d. split.
    + intros Hin. destruct (unmatched_in md dets 0 d Hin) as (i & Hn & Hni).
      exists i. split; [exact Hn | exact Hni].
    + intros (i & Hn & Hni). eapply nth_error_In.
      exact (unmatched_nth md dets 0 i d Hn Hni).
  - exact births_before_lt.
Qed.

(** ** Missed frames and pruning *)

Lemma update_quiet (s : Estimator.StateEstimator) :
  Estimator.update s []
  = let al := Estimator.alive (map Kalman.predict (Estimator.tracks s))
                              (Estimator.track_ids s) in
    Ok (Estimator.mkEstimator (map fst al) (Estimator.max_distance s)
                              (Estimator.next_id s) (map snd al),
        map (Estimator.report []) al).
Proof.
  rewrite update_spec. unfold association. cbn -[Kalman.predict Estimator.alive Estimator.report].
  rewrite !app_nil_r, Z.add_0_r, combine_fst_snd. reflexivity.
Qed.

Lemma missed_iter_predict (n : nat) (t : Kalman.ObjectKalman) :
  Kalman.missed (Nat.iter n Kalman.predict t) = (Kalman.missed t + Z.of_nat n)%Z.
Proof.
  induction n as [| n IH]; [simpl; lia |].
  change (Nat.iter (S n) Kalman.predict t)
    with (Kalman.predict (Nat.iter n Kalman.predict t)).
  change (Kalman.missed (Kalman.predict (Nat.iter n Kalman.predict t)))
    with (Kalman.missed (Nat.iter n Kalman.predict t) + 1)%Z.
  rewrite IH. lia.
Qed.

Lemma iter_predict_shift (n : nat) (t : Kalman.ObjectKalman) :
  Nat.iter n Kalman.predict (Kalman.predict t) = Nat.iter (S n) Kalman.predict t.
Proof.
  induction n as [| n IH]; [reflexivity |].
  change (Nat.iter (S n) Kalman.predict (Kalman.predict t))
    with (Kalman.predict (Nat.iter n Kalman.predict (Kalman.predict t))).
  now rewrite IH.
Qed.

Lemma run_quiet_empty (n : nat) (d : R) (nid : Z) :
  run_frames (Estimator.mkEstimator [] d nid []) (repeat [] n)
  = Ok (Estimator.mkEstimator [] d nid []).
Proof.
  induction n as [| n IH]; [reflexivity |].
  cbn [repeat run_frames]. rewrite update_quiet. exact IH.
Qed.

Lemma update_quiet_single (t : Kalman.ObjectKalman) (tid : Z) (d : R) (nid : Z) :
  Estimator.update (Estimator.mkEstimator [t] d nid [tid]) []
  = if (Kalman.missed t + 1 <? 10)%Z
    then Ok (Estimator.mkEstimator [Kalman.predict t] d nid [tid],
             [Estimator.report [] (Kalman.predict t, tid)])
    else Ok (Estimator.mkEstimator [] d nid [], []).
Proof.
  rewrite update_quiet. unfold Estimator.alive.
  cbn -[Kalman.predict Estimator.report Z.ltb].
  change (Kalman.stale (Kalman.predict t)) with (10 <=? Kalman.missed t + 1)%Z.
  destruct (Z.leb_spec 10 (Kalman.missed t + 1)), (Z.ltb_spec (Kalman.missed t + 1) 10);
    try lia; reflexivity.
Qed.

(** A run of frames without detections on a pool of one track: the track
    stays while its missed count is below 10 ... *)
Lemma run_quiet_keep (n : nat) :
  forall (t : Kalman.ObjectKalman) (tid : Z) (d : R) (nid : Z),
    (Kalman.missed t + Z.of_nat n < 10)%Z ->
    run_frames (Estimator.mkEstimator [t] d nid [tid]) (repeat [] n)
    = Ok (Estimator.mkEstimator [Nat.iter n Kalman.predict t] d nid [tid]).
Proof.
  induction n as [| n IH]; intros t tid d nid Hm; [reflexivity |].
  cbn [repeat run_frames]. rewrite update_quiet_single.
  destruct (Z.ltb_spec (Kalman.missed t + 1) 10); [| lia].
  cbn [bind fst]. rewrite IH.
  - now rewrite iter_predict_shift.
  - change (Kalman.missed (Kalman.predict t)) with (Kalman.missed t + 1)%Z. lia.
Qed.

(** ... and is gone once the count has reached 10. *)
Lemma run_quiet_drop (n : nat) :
  forall (t : Kalman.ObjectKalman) (tid : Z) (d : R) (nid : Z),
    (Kalman.missed t < 10)%Z ->
    (10 <= Kalman.missed t + Z.of_nat n)%Z ->
    run_frames (Estimator.mkEstimator [t] d nid [tid]) (repeat [] n)
    = Ok (Estimator.mkEstimator [] d nid []).
Proof.
  induction n as [| n IH]; intros t tid d nid Hlt Hge; [lia |].
  cbn [repeat run_frames]. rewrite update_quiet_single.
  destruct (Z.ltb_spec (Kalman.missed t + 1) 10); cbn [bind fst].
  - apply IH; change (Kalman.missed (Kalman.predict t)) with (Kalman.missed t + 1)%Z; lia.
  - apply run_quiet_empty.
Qed.

(** ** The forecasters follow the tracks *)

Lemma dict_del_keys {V : Type} (k x : Z) (d : list (Z * V)) :
  In k (map fst (dict_del Z.eqb x d)) <-> In k (map fst d) /\ k <> x.
Proof.
  unfold dict_del. rewrite !in_map_iff. split.
  - intros ([k' v] & <- & Hin). apply filter_In in Hin. destruct Hin as [Hin Hne].
    simpl in *. split; [exists (k', v); now split |].
    intros ->. now rewrite Z.eqb_refl in Hne.
  - intros [([k' v] & <- & Hin) Hne]. exists (k', v). split; [reflexivity |].
    apply filter_In. split; [exact Hin |]. simpl in *.
    destruct (Z.eqb_spec x k'); [subst; contradiction | reflexivity].
Qed.

Lemma fold_del_keys {V : Type} (dead : list Z) :
  forall (d : list (Z * V)) (k : Z),
    In k (map fst (fold_left (fun d0 k0 => dict_del Z.eqb k0 d0) dead d))
    <-> In k (map fst d) /\ ~ In k dead.
Proof.
  induction dead as [| x dead IH]; intros d k; simpl.
  - tauto.
  - rewrite IH, dict_del_keys. intuition congruence.
Qed.

Lemma drop_dead_keys (sts : list Estimator.TrackState)
      (preds : list (Z * Predictor.TrajectoryPredictor)) (k : Z) :
  In k (map fst (Pipeline.drop_dead sts preds)) ->
  In k (map Estimator.s_id sts).
Proof.
  unfold Pipeline.drop_dead. rewrite fold_del_keys. intros [Hin Hnd].
  destruct (set_mem k (map Estimator.s_id sts)) eqn:E.
  - now apply set_mem_In.
  - exfalso. apply Hnd. apply filter_In. split; [exact Hin | now rewrite E].
Qed.

Lemma update_res_ids (s s' : Estimator.StateEstimator) (dets : list Estimator.Detection)
      (res : list Estimator.TrackState) :
  Estimator.update s dets = Ok (s', res) ->
  map Estimator.s_id res = Estimator.track_ids s'.
Proof.
  intros Hu. destruct (update_inv _ _ _ _ Hu) as (a & _ & -> & ->). simpl.
  rewrite map_map. apply map_ext.
  intros [t tid]. unfold Estimator.report.
  destruct (Kalman.position t), (Kalman.velocity t). reflexivity.
Qed.

(** After a frame, every forecaster belongs to a track of the pool. *)
Lemma frame_forecasters (pl pl' : Pipeline.Pipeline) (dets : list Estimator.Detection)
      (out : Pipeline.FrameOutput) :
  Pipeline.frame pl dets = Ok (pl', out) ->
  forall k, In k (map fst (Pipeline.predictors pl')) ->
            In k (Estimator.track_ids (Pipeline.estimator pl')).
Proof.
  intros Hfr k Hk.
  destruct (frame_inv _ _ _ _ Hfr) as (est & preds & Hu & _ & -> & _).
  simpl in *. apply drop_dead_keys in Hk.
  now rewrite (update_res_ids _ _ _ _ Hu) in Hk.
Qed.

(** C2, as the claim is written, fails: a track is removed in the frame in
    which its missed count reaches 10, not 11.  A track born with count 0
    has count 9 after nine frames without detections, and the tenth such
    frame removes it. *)
Lemma C2_removed_when_missed_reaches_10 :
  exists s9 s10 res,
    run_frames (Estimator.mkEstimator [Kalman.init 0 0] 80 1 [0%Z]) (repeat [] 9) = Ok s9 /\
    map Kalman.missed (Estimator.tracks s9) = [9%Z] /\
    Estimator.track_ids s9 = [0%Z] /\
    Estimator.update s9 [] = Ok (s10, res) /\
    Estimator.tracks s10 = [] /\
    Estimator.track_ids s10 = [].
Proof.
  eexists. eexists. eexists.
  split; [apply run_quiet_keep; simpl; lia |].
  split; [cbn [Estimator.tracks map]; rewrite missed_iter_predict; reflexivity |].
  split; [reflexivity |].
  rewrite update_quiet_single, missed_iter_predict.
  cbn [Kalman.missed Kalman.init Z.add Z.of_nat Pos.of_succ_nat Pos.succ Pos.add Z.ltb Z.compare Pos.compare Pos.compare_cont].
  repeat split.
Qed.

(** C2 (amended): in every frame in which a track is not matched, its
    missed count increases by exactly 1; the track stays in the pool under
    its identifier while the count is below 10 and is removed, with its
    identifier and its forecaster, in the frame in which the count reaches
    10 (the count is at least the threshold 10), never earlier. *)
Theorem C2_unmatched_track_pruned_at_10 :
  (forall s dets s' res a i t tid,
      ids_fresh s ->
      Estimator.update s dets = Ok (s', res) ->
      association s dets = Ok a ->
      nth_error (Estimator.tracks s) i = Some t ->
      nth_error (Estimator.track_ids s) i = Some tid ->
      ~ In (Z.of_nat i) (Estimator.matched_track_idx a) ->
      Kalman.missed (Kalman.predict t) = (Kalman.missed t + 1)%Z /\
      ((Kalman.missed t + 1 < 10)%Z ->
       In (Kalman.predict t, tid) (combine (Estimator.tracks s') (Estimator.track_ids s'))) /\
      ((10 <= Kalman.missed t + 1)%Z -> ~ In tid (Estimator.track_ids s'))) /\
  (forall pl dets pl' out,
      Pipeline.frame pl dets = Ok (pl', out) ->
      forall tid, ~ In tid (Estimator.track_ids (Pipeline.estimator pl')) ->
                  ~ In tid (map fst (Pipeline.predictors pl'))) /\
  (forall n t tid d nid,
      (Kalman.missed t < 10)%Z ->
      run_frames (Estimator.mkEstimator [t] d nid [tid]) (repeat [] n)
      = Ok (if (Kalman.missed t + Z.of_nat n <? 10)%Z
            then Estimator.mkEstimator [Nat.iter n Kalman.predict t] d nid [tid]
            else Estimator.mkEstimator [] d nid []) /\
      Kalman.missed (Nat.iter n Kalman.predict t) = (Kalman.missed t + Z.of_nat n)%Z).
Proof.
  split; [| split].
  - intros s dets s' res a i t tid Hf Hu Ha Ht Hid Hun.
    split; [reflexivity |].
    assert (Hp : nth_error (Estimator.a_tracks a) i = Some (Kalman.predict t)).
    { unfold association in Ha.
      destruct (associate_facts _ _ _ _ _ Ha) as (_ & _ & _ & Hsame & _).
      rewrite (Hsame i Hun). simpl. rewrite nth_error_map, Ht. reflexivity. }
    destruct (update_track_fate _ _ _ _ _ _ _ _ Hf Hu Ha Hp Hid) as [Hkeep Hdrop].
    change (Kalman.stale (Kalman.predict t)) with (10 <=? Kalman.missed t + 1)%Z in *.
    split; intros Hm.
    + apply Hkeep. apply Z.leb_gt. lia.
    + apply Hdrop. apply Z.leb_le. lia.
  - intros pl dets pl' out Hfr tid Hn Hin. apply Hn.
    now apply (frame_forecasters _ _ _ _ Hfr).
  - intros n t tid d nid Hlt. split; [| apply missed_iter_predict].
    destruct (Z.ltb_spec (Kalman.missed t + Z.of_nat n) 10).
    + now apply run_quiet_keep.
    + now apply run_quiet_drop.
Qed.

Lemma C2_unmatched_track_pruned_at_10_witness :
  In (Kalman.predict (Kalman.init 0 0), 0%Z)
     (combine [Kalman.predict (Kalman.init 0 0)] [0%Z]) /\
  Kalman.missed (Kalman.predict (Kalman.init 0 0)) = 1%Z.
Proof.
  destruct C2_unmatched_track_pruned_at_10 as (H & _ & _).
  destruct (H (Estimator.mkEstimator [Kalman.init 0 0] 80 1 [0%Z]) []
              (Estimator.mkEstimator [Kalman.predict (Kalman.init 0 0)] 80 1 [0%Z])
              [Estimator.report [] (Kalman.predict (Kalman.init 0 0), 0%Z)]
              (Estimator.mkAssoc [Kalman.predict (Kalman.init 0 0)] [] [])
              0%nat (Kalman.init 0 0) 0%Z) as (Hm & Hkeep & _).
  - split; simpl; repeat constructor.
  - rewrite update_quiet_single. reflexivity.
  - reflexivity.
  - reflexivity.
  - reflexivity.
  - simpl. tauto.
  - split; [apply Hkeep; simpl; lia | exact Hm].
Defined.

(** ** Steps 5 and 6: the size lookup *)

Lemma key_eqb_eq (a b : Z * Z) : Estimator.key_eqb a b = true <-> a = b.
Proof.
  destruct a as [a1 a2], b as [b1 b2]. unfold Estimator.key_eqb. simpl.
  rewrite andb_true_iff, !Z.eqb_eq. split; [intros [-> ->]; reflexivity |].
  intros E. injection E as -> ->. now split.
Qed.

Lemma dict_set_in (k : Z * Z) (v : Z * Z) (d : list ((Z * Z) * (Z * Z))) (kv : (Z * Z) * (Z * Z)) :
  In kv (dict_set Estimator.key_eqb k v d) -> In kv d \/ kv = (k, v).
Proof.
  induction d as [| [k' v'] r IH]; simpl.
  - intros [<- | []]. now right.
  - destruct (Estimator.key_eqb k k') eqn:E.
    + apply key_eqb_eq in E. subst k'. intros [<- | Hin]; [now right | left; now right].
    + intros [<- | Hin]; [left; now left |].
      destruct (IH Hin) as [? | ?]; [left; now right | now right].
Qed.

Lemma dict_set_keys (k k0 : Z * Z) (v : Z * Z) (d : list ((Z * Z) * (Z * Z))) :
  In k0 (map fst (dict_set Estimator.key_eqb k v d)) <-> In k0 (map fst d) \/ k0 = k.
Proof.
  induction d as [| [k' v'] r IH]; simpl.
  - intuition.
  - destruct (Estimator.key_eqb k k') eqn:E; simpl.
    + apply key_eqb_eq in E. subst k'. intuition.
    + rewrite IH. intuition.
Qed.

Lemma det_map_in (dets : list Estimator.Detection) :
  forall acc kv,
    In kv (Estimator.det_map dets acc) ->
    In kv acc \/
    exists d, In d dets /\
              kv = ((Estimator.det_cx d, Estimator.det_cy d),
                    (Estimator.det_w d, Estimator.det_h d)).
Proof.
  induction dets as [| d rest IH]; intros acc kv Hin; simpl in Hin; [now left |].
  destruct (IH _ _ Hin) as [Hacc | (d' & Hd' & E)].
  - destruct (dict_set_in _ _ _ _ Hacc) as [? | ->]; [now left | right].
    exists d. split; [now left | reflexivity].
  - right. exists d'. split; [now right | exact E].
Qed.

Lemma det_map_keys (dets : list Estimator.Detection) :
  forall acc k,
    In k (map fst acc) \/
    (exists d, In d dets /\ k = (Estimator.det_cx d, Estimator.det_cy d)) ->
    In k (map fst (Estimator.det_map dets acc)).
Proof.
  induction dets as [| d rest IH]; intros acc k H; simpl.
  - destruct H as [? | (d & [] & _)]. assumption.
  - apply IH. destruct H as [Hacc | (d' & [<- | Hd'] & ->)].
    + left. apply dict_set_keys. now left.
    + left. apply dict_set_keys. now right.
    + right. now exists d'.
Qed.

Lemma closest_cons (px py : R) (k v : Z * Z) (rest : list ((Z * Z) * (Z * Z)))
      (best : R * (Z * Z)) :
  Estimator.closest px py ((k, v) :: rest) best
  = if Rltb (key_dist px py k) (fst best)
    then Estimator.closest px py rest (key_dist px py k, v)
    else Estimator.closest px py rest best.
Proof. destruct k, v. reflexivity. Qed.

Lemma closest_spec (px py : R) (items : list ((Z * Z) * (Z * Z))) :
  forall b0 wh0,
    (Estimator.closest px py items (b0, wh0) = (b0, wh0) /\
     forall k v, In (k, v) items -> ~ key_dist px py k < b0)
    \/
    (exists k v,
        In (k, v) items /\ key_dist px py k < b0 /\
        Estimator.closest px py items (b0, wh0) = (key_dist px py k, v) /\
        forall k' v', In (k', v') items -> key_dist px py k <= key_dist px py k').
Proof.
  induction items as [| [k v] rest IH]; intros b0 wh0.
  - left. split; [reflexivity |]. intros k v [].
  - rewrite closest_cons. cbn [fst].
    destruct (Rltb (key_dist px py k) b0) eqn:E.
    + apply Rltb_true in E. right.
      destruct (IH (key_dist px py k) v) as [[Hr Hno] | (k1 & v1 & Hin & Hlt & Hr & Hmin)].
      * exists k, v. split; [now left |]. split; [exact E |]. split; [exact Hr |].
        intros k' v' [Heq | Hin'].
        -- injection Heq as <- <-. lra.
        -- pose proof (Hno k' v' Hin'). lra.
      * exists k1, v1. split; [now right |]. split; [lra |]. split; [exact Hr |].
        intros k' v' [Heq | Hin'].
        -- injection Heq as <- <-. lra.
        -- now apply (Hmin k' v').
    + apply Rltb_false in E.
      destruct (IH b0 wh0) as [[Hr Hno] | (k1 & v1 & Hin & Hlt & Hr & Hmin)].
      * left. split; [exact Hr |].
        intros k' v' [Heq | Hin'].
        -- injection Heq as <- <-. exact E.
        -- now apply (Hno k' v').
      * right. exists k1, v1. split; [now right |]. split; [exact Hlt |].
        split; [exact Hr |].
        intros k' v' [Heq | Hin'].
        -- injection Heq as <- <-. lra.
        -- now apply (Hmin k' v').
Qed.

Lemma report_fields (dm : list ((Z * Z) * (Z * Z))) (t : Kalman.ObjectKalman) (tid : Z) :
  let r := Estimator.report dm (t, tid) in
  Estimator.s_id r = tid /\
  (Estimator.s_cx r, Estimator.s_cy r) = Kalman.position t /\
  (Estimator.s_vx r, Estimator.s_vy r) = Kalman.velocity t /\
  (Estimator.s_w r, Estimator.s_h r)
  = snd (Estimator.closest (fst (Kalman.position t)) (snd (Kalman.position t)) dm
                           (9999, (40%Z, 40%Z))).
Proof.
  unfold Estimator.report. cbn [Kalman.position Kalman.velocity fst snd].
  repeat split. cbn [Estimator.s_w Estimator.s_h].
  now destruct (snd (Estimator.closest _ _ dm _)).
Qed.

(** The size reported for a track, in terms of the detections of the
    frame. *)
Lemma size_lookup (dets : list Estimator.Detection) (t : Kalman.ObjectKalman) (tid : Z) :
  let r := Estimator.report (Estimator.det_map dets []) (t, tid) in
  ((forall d, In d dets -> ~ size_dist t d < 9999) /\
   (Estimator.s_w r, Estimator.s_h r) = (40%Z, 40%Z))
  \/
  (exists d,
      In d dets /\ size_dist t d < 9999 /\
      (Estimator.s_w r, Estimator.s_h r) = (Estimator.det_w d, Estimator.det_h d) /\
      forall d', In d' dets -> size_dist t d <= size_dist t d').
Proof.
  intros r. destruct (report_fields (Estimator.det_map dets []) t tid) as (_ & _ & _ & Hwh).
  fold r in Hwh. rewrite Hwh.
  set (px := fst (Kalman.position t)). set (py := snd (Kalman.position t)).
  assert (Hkey : forall d, In d dets ->
                   exists v, In ((Estimator.det_cx d, Estimator.det_cy d), v)
                                (Estimator.det_map dets [])).
  { intros d Hd.
    assert (Hk : In (Estimator.det_cx d, Estimator.det_cy d)
                    (map fst (Estimator.det_map dets []))).
    { apply det_map_keys. right. now exists d. }
    apply in_map_iff in Hk. destruct Hk as ([k v] & E & Hin). simpl in E. subst k.
    now exists v. }
  destruct (closest_spec px py (Estimator.det_map dets []) 9999 (40%Z, 40%Z))
    as [[Hr Hno] | (k & v & Hin & Hlt & Hr & Hmin)]; rewrite Hr; simpl snd.
  - left. split; [| reflexivity]. intros d Hd.
    destruct (Hkey d Hd) as (v & Hv). exact (Hno _ _ Hv).
  - right. destruct (det_map_in _ _ _ Hin) as [[] | (d & Hd & E)].
    injection E as -> ->. exists d. split; [exact Hd |]. split; [exact Hlt |].
    split; [reflexivity |]. intros d' Hd'.
    destruct (Hkey d' Hd') as (v' & Hv'). exact (Hmin _ _ Hv').
Qed.

(** What the size lookup does on every input: each live track's reported
    size is that of an observation of the current frame nearest to the
    track's estimated position (however the observations were associated)
    when that distance is below the initial bound 9999 of the search, and
    the fallback (40, 40) when no observation of the frame is within 9999 of
    the track, in particular when there is none. *)
Lemma reported_size_spec :
  (forall s dets s' res,
      Estimator.update s dets = Ok (s', res) ->
      res = map (Estimator.report (Estimator.det_map dets []))
                (combine (Estimator.tracks s') (Estimator.track_ids s'))) /\
  (forall dets t tid,
      let r := Estimator.report (Estimator.det_map dets []) (t, tid) in
      Estimator.s_id r = tid /\
      (Estimator.s_cx r, Estimator.s_cy r) = Kalman.position t /\
      (((forall d, In d dets -> ~ size_dist t d < 9999) /\
        (Estimator.s_w r, Estimator.s_h r) = (40%Z, 40%Z))
       \/
       (exists d,
           In d dets /\ size_dist t d < 9999 /\
           (Estimator.s_w r, Estimator.s_h r) = (Estimator.det_w d, Estimator.det_h d) /\
           forall d', In d' dets -> size_dist t d <= size_dist t d'))) /\
  (forall t tid,
      let r := Estimator.report (Estimator.det_map [] []) (t, tid) in
      (Estimator.s_w r, Estimator.s_h r) = (40%Z, 40%Z)).
Proof.
  split; [| split].
  - intros s dets s' res Hu.
    destruct (update_inv _ _ _ _ Hu) as (a & _ & -> & ->). simpl.
    now rewrite combine_fst_snd.
  - intros dets t tid r.
    destruct (report_fields (Estimator.det_map dets []) t tid) as (Hid & Hpos & _).
    split; [exact Hid |]. split; [exact Hpos |]. apply size_lookup.
  - intros t tid. reflexivity.
Qed.

(** ** Concrete frames *)

Lemma position_predict_init (cx cy : R) :
  Kalman.position (Kalman.predict (Kalman.init cx cy)) = (cx, cy).
Proof.
  unfold Kalman.position, Kalman.predict, Kalman.init, Kalman.entry, Kalman.F, Kalman.dt.
  cbn. f_equal; ring.
Qed.

Lemma position_init (cx cy : R) : Kalman.position (Kalman.init cx cy) = (cx, cy).
Proof. reflexivity. Qed.

Ltac decide_Rltb :=
  first [ rewrite (proj2 (Rltb_true _ _))
            by (unfold key_dist; rewrite hypot_lt; cbn [fst snd]; lra)
        | rewrite (proj2 (Rltb_false _ _))
            by (unfold key_dist; rewrite hypot_lt; cbn [fst snd]; lra) ].

(** A pool holding one track at (0,0) receives one detection at (20000,0)
    of size 5x5: the detection is too far to match and births track 1; the
    reports of the frame are those of track 0 and track 1. *)
Lemma far_detection_frame :
  Estimator.update (Estimator.mkEstimator [Kalman.init 0 0] 80 1 [0%Z])
                   [Estimator.mkDet 20000 0 5 5]
  = Ok (Estimator.mkEstimator
          [Kalman.predict (Kalman.init 0 0); Kalman.init 20000 0] 80 2 [0%Z; 1%Z],
        map (Estimator.report (Estimator.det_map [Estimator.mkDet 20000 0 5 5] []))
            [(Kalman.predict (Kalman.init 0 0), 0%Z); (Kalman.init 20000 0, 1%Z)]).
Proof.
  rewrite update_spec. unfold association.
  cbn [Estimator.tracks Estimator.max_distance map Estimator.track_ids Estimator.next_id].
  rewrite associate_none.
  2:{ intros d t [<- | []] [<- | []]. unfold obs_dist, track_dist.
      rewrite position_predict_init, hypot_lt.
      cbn [fst snd Estimator.det_cx Estimator.det_cy]. lra. }
  cbn [bind Estimator.matched_det_idx Estimator.a_tracks].
  rewrite unmatched_none.
  cbn [map length app fresh_ids seq Z.add Z.of_nat].
  unfold Estimator.alive. cbn [combine filter fst].
  change (Kalman.stale (Kalman.predict (Kalman.init 0 0))) with false.
  change (Kalman.stale (born (Estimator.mkDet 20000 0 5 5))) with false.
  reflexivity.
Qed.

(** The bound of the search: in the frame above, track 0 is reported with
    the size (40, 40), the only observation of the frame being 20000 away,
    beyond the initial bound 9999 of the search. *)
Lemma far_observation_gets_fallback :
  exists s' r0 r1,
    Estimator.update (Estimator.mkEstimator [Kalman.init 0 0] 80 1 [0%Z])
                     [Estimator.mkDet 20000 0 5 5]
    = Ok (s', [r0; r1]) /\
    Estimator.s_id r0 = 0%Z /\
    (Estimator.s_w r0, Estimator.s_h r0) = (40%Z, 40%Z) /\
    (Estimator.s_w r0, Estimator.s_h r0) <> (5%Z, 5%Z).
Proof.
  do 3 eexists. split; [apply far_detection_frame |].
  destruct (report_fields (Estimator.det_map [Estimator.mkDet 20000 0 5 5] [])
                          (Kalman.predict (Kalman.init 0 0)) 0%Z) as (Hid & _ & _ & Hwh).
  cbv zeta in Hid, Hwh.
  split; [exact Hid |].
  assert (E : (Estimator.s_w
                 (Estimator.report (Estimator.det_map [Estimator.mkDet 20000 0 5 5] [])
                                   (Kalman.predict (Kalman.init 0 0), 0%Z)),
               Estimator.s_h
                 (Estimator.report (Estimator.det_map [Estimator.mkDet 20000 0 5 5] [])
                                   (Kalman.predict (Kalman.init 0 0), 0%Z)))
              = (40%Z, 40%Z)).
  { rewrite Hwh, position_predict_init.
    cbn [Estimator.det_map dict_set Estimator.det_cx Estimator.det_cy
         Estimator.det_w Estimator.det_h fst snd].
    rewrite closest_cons. cbn [fst]. decide_Rltb. reflexivity. }
  split; [exact E |]. rewrite E. discriminate.
Qed.

(** C8: in every frame, each live track is reported with the size of the
    observation of the frame's list that is nearest to the track's estimated
    position (the first two components of its state), however the
    observations were associated: the report is computed from the list of
    observations and the tracks of the pool alone.  The size (40, 40) is
    reported when the list is empty; when it is not, the size is that of an
    observation of the list.  The observations are those of a camera frame:
    each lies within 9999 of the track, the bound from which the search
    starts, which holds whenever both coordinates differ by at most 7000. *)
Theorem C8_size_of_nearest_observation :
  (forall s dets s' res,
      Estimator.update s dets = Ok (s', res) ->
      (forall t d, In t (Estimator.tracks s') -> In d dets -> size_dist t d < 9999) ->
      length res = length (Estimator.tracks s') /\
      forall i t r,
        nth_error (Estimator.tracks s') i = Some t ->
        nth_error res i = Some r ->
        (exists tid, nth_error (Estimator.track_ids s') i = Some tid /\
                     r = Estimator.report (Estimator.det_map dets []) (t, tid)) /\
        (dets = [] -> (Estimator.s_w r, Estimator.s_h r) = (40%Z, 40%Z)) /\
        (dets <> [] ->
         exists d,
           In d dets /\
           (Estimator.s_w r, Estimator.s_h r) = (Estimator.det_w d, Estimator.det_h d) /\
           forall d', In d' dets -> size_dist t d <= size_dist t d')) /\
  (forall x0 x1 x2 x3 Pm ag ms d,
      size_dist (Kalman.mkKalman [[x0]; [x1]; [x2]; [x3]] Pm ag ms) d
      = sqrt ((x0 - IZR (Estimator.det_cx d)) * (x0 - IZR (Estimator.det_cx d))
              + (x1 - IZR (Estimator.det_cy d)) * (x1 - IZR (Estimator.det_cy d)))) /\
  (forall x0 x1 x2 x3 Pm ag ms dm tid,
      Estimator.s_cx (Estimator.report dm (Kalman.mkKalman [[x0]; [x1]; [x2]; [x3]] Pm ag ms, tid))
      = x0 /\
      Estimator.s_cy (Estimator.report dm (Kalman.mkKalman [[x0]; [x1]; [x2]; [x3]] Pm ag ms, tid))
      = x1) /\
  (forall x0 x1 x2 x3 Pm ag ms d,
      Rabs (x0 - IZR (Estimator.det_cx d)) <= 7000 ->
      Rabs (x1 - IZR (Estimator.det_cy d)) <= 7000 ->
      size_dist (Kalman.mkKalman [[x0]; [x1]; [x2]; [x3]] Pm ag ms) d < 9999).
Proof.
  split; [| split; [| split]].
  - intros s dets s' res Hu Hnear.
    destruct (update_inv _ _ _ _ Hu) as (a & _ & Hs & Hres).
    cbv zeta in Hs, Hres.
    set (al := Estimator.alive _ _) in Hs, Hres.
    rewrite Hs in *. cbn [Estimator.tracks Estimator.track_ids] in *.
    split; [now rewrite Hres, !length_map |].
    intros i t r Ht Hr.
    rewrite nth_error_map in Ht.
    destruct (nth_error al i) as [[t0 tid] |] eqn:Ea; [| discriminate].
    simpl in Ht. injection Ht as ->.
    rewrite Hres, nth_error_map, Ea in Hr. simpl in Hr. injection Hr as <-.
    split.
    { exists tid. split; [| reflexivity]. now rewrite nth_error_map, Ea. }
    assert (Hin : In t (map fst al)).
    { apply in_map_iff. exists (t, tid). split; [reflexivity |].
      eapply nth_error_In. exact Ea. }
    destruct (size_lookup dets t tid) as [[Hno Hfb] | (d & Hd & _ & Hwh & Hmin)].
    + split; [intros _; exact Hfb |].
      intros Hne. destruct dets as [| d0 rest]; [contradiction |].
      exfalso. apply (Hno d0); [now left |]. apply Hnear; [exact Hin | now left].
    + split; [intros ->; contradiction |].
      intros _. exists d. split; [exact Hd |]. split; [exact Hwh | exact Hmin].
  - intros x0 x1 x2 x3 Pm ag ms d. reflexivity.
  - intros x0 x1 x2 x3 Pm ag ms dm tid. split; reflexivity.
  - intros x0 x1 x2 x3 Pm ag ms d Hx Hy.
    unfold size_dist. rewrite hypot_lt.
    cbn [Kalman.position Kalman.x Kalman.entry nth fst snd].
    split; [lra |].
    set (u := x0 - IZR (Estimator.det_cx d)) in *.
    set (v := x1 - IZR (Estimator.det_cy d)) in *.
    assert (Hu : u * u <= 7000 * 7000).
    { unfold Rabs in Hx. destruct (Rcase_abs u); nra. }
    assert (Hv : v * v <= 7000 * 7000).
    { unfold Rabs in Hy. destruct (Rcase_abs v); nra. }
    lra.
Qed.

(** An empty pool and the two observations (50,50) and (400,50) of size
    30x30 and 60x20: each of the two tracks born is reported with the size
    of the observation nearest to it. *)
Lemma C8_size_of_nearest_observation_witness :
  exists s' res,
    Estimator.update (Estimator.init 80)
                     [Estimator.mkDet 50 50 30 30; Estimator.mkDet 400 50 60 20]
    = Ok (s', res) /\
    length res = 2%nat /\
    forall i t r,
      nth_error (Estimator.tracks s') i = Some t ->
      nth_error res i = Some r ->
      exists d,
        In d [Estimator.mkDet 50 50 30 30; Estimator.mkDet 400 50 60 20] /\
        (Estimator.s_w r, Estimator.s_h r) = (Estimator.det_w d, Estimator.det_h d) /\
        forall d', In d' [Estimator.mkDet 50 50 30 30; Estimator.mkDet 400 50 60 20] ->
                   size_dist t d <= size_dist t d'.
Proof.
  eexists. eexists. split; [reflexivity |].
  destruct (proj1 C8_size_of_nearest_observation (Estimator.init 80)
              [Estimator.mkDet 50 50 30 30; Estimator.mkDet 400 50 60 20] _ _ eq_refl)
    as [Hlen Hall].
  - intros t d [<- | [<- | []]] [<- | [<- | []]];
      unfold size_dist; rewrite hypot_lt;
      unfold Kalman.position, Kalman.entry, Kalman.init;
      cbn [Kalman.x nth fst snd Estimator.det_cx Estimator.det_cy]; lra.
  - split; [exact Hlen |].
    intros i t r Ht Hr. destruct (Hall i t r Ht Hr) as (_ & _ & Hne).
    apply Hne. discriminate.
Defined.

(** ** A singular innovation covariance *)

Lemma associate_one_singular (maxd : R) (di : Z) (d : Estimator.Detection)
      (a : Estimator.Assoc) :
  (exists i t, unmatched_track a i t /\ obs_dist d t < maxd) ->
  (forall i t, unmatched_track a i t -> obs_dist d t < maxd -> singular t) ->
  Estimator.associate_one maxd di d a = Raise LinAlgError.
Proof.
  intros (i & t & Hu & Hlt) Hsing.
  destruct (associate_one_spec maxd di d a) as [[Hno _] | (j & tj & Huj & Hltj & _ & E)].
  - exfalso. exact (Hno i t Hu Hlt).
  - rewrite E, (update_singular tj _ _ (Hsing j tj Huj Hltj)). reflexivity.
Qed.

Lemma update_raises_singular (s : Estimator.StateEstimator) (d : Estimator.Detection)
      (dets : list Estimator.Detection) :
  (exists t, In t (Estimator.tracks s) /\
             obs_dist d (Kalman.predict t) < Estimator.max_distance s) ->
  (forall t, In t (Estimator.tracks s) ->
             obs_dist d (Kalman.predict t) < Estimator.max_distance s ->
             singular (Kalman.predict t)) ->
  Estimator.update s (d :: dets) = Raise LinAlgError.
Proof.
  intros (t & Hin & Hlt) Hsing. rewrite update_spec. unfold association.
  cbn [Estimator.associate]. rewrite associate_one_singular; [reflexivity | |].
  - apply In_nth_error in Hin. destruct Hin as (i & Hi).
    exists i, (Kalman.predict t). split; [| exact Hlt].
    split; [| intros []]. simpl. now rewrite nth_error_map, Hi.
  - intros i t' [Hn _] Hlt'. simpl in Hn. rewrite nth_error_map in Hn.
    destruct (nth_error (Estimator.tracks s) i) as [t0 |] eqn:E0; [| discriminate].
    injection Hn as <-. apply Hsing; [| exact Hlt']. eapply nth_error_In. exact E0.
Qed.

Lemma frame_raises (pl : Pipeline.Pipeline) (dets : list Estimator.Detection) (e : exn) :
  Estimator.update (Pipeline.estimator pl) dets = Raise e ->
  Pipeline.frame pl dets = Raise e.
Proof. intros Hu. unfold Pipeline.frame. now rewrite Hu. Qed.

(** A filter whose innovation covariance is singular after the predict
    step. *)
Lemma degenerate_filter_singular : singular (Kalman.predict degenerate_filter).
Proof.
  unfold singular, det2, Kalman.entry, Kalman.innovation_cov, Kalman.predict,
    degenerate_filter, Kalman.F, Kalman.H, Kalman.Q, Kalman.Rm, Kalman.dt.
  cbn. lra.
Qed.

Lemma degenerate_filter_position :
  Kalman.position (Kalman.predict degenerate_filter) = (0, 0).
Proof.
  unfold Kalman.position, Kalman.predict, degenerate_filter, Kalman.entry,
    Kalman.F, Kalman.dt.
  cbn. f_equal; ring.
Qed.

(** A pool holding one fresh track at (0,0) and one detection at (3,4): the
    detection is at distance 5 of the predicted track and is matched to
    it. *)
Lemma near_detection_association :
  exists t',
    association (Estimator.mkEstimator [Kalman.init 0 0] 80 1 [0%Z])
                [Estimator.mkDet 3 4 10 10]
    = Ok (Estimator.mkAssoc [t'] [0%Z] [0%Z]) /\
    Kalman.missed t' = 0%Z.
Proof.
  assert (Hreg : ~ singular (Kalman.predict (Kalman.init 0 0))).
  { unfold singular, det2, Kalman.entry, Kalman.innovation_cov, Kalman.predict,
      Kalman.init, Kalman.F, Kalman.H, Kalman.Q, Kalman.Rm, Kalman.dt.
    cbn. lra. }
  assert (Hnear : obs_dist (Estimator.mkDet 3 4 10 10) (Kalman.predict (Kalman.init 0 0)) < 80).
  { unfold obs_dist, track_dist. rewrite position_predict_init, hypot_lt.
    cbn [fst snd Estimator.det_cx Estimator.det_cy]. lra. }
  destruct (update_regular _ 3 4 Hreg) as (t' & Ek & Hm & _).
  exists t'. split; [| exact Hm].
  unfold association.
  cbn [Estimator.tracks Estimator.max_distance map Estimator.associate].
  destruct (associate_one_spec 80 0 (Estimator.mkDet 3 4 10 10)
              (Estimator.mkAssoc [Kalman.predict (Kalman.init 0 0)] [] []))
    as [[Hno _] | (j & tj & [Hn _] & _ & _ & E)].
  - exfalso. apply (Hno 0%nat (Kalman.predict (Kalman.init 0 0))); [| exact Hnear].
    split; [reflexivity | intros []].
  - destruct j as [| j]; simpl in Hn; [| destruct j; discriminate].
    injection Hn as <-. rewrite E.
    cbn [Estimator.det_cx Estimator.det_cy]. rewrite Ek. reflexivity.
Qed.

(** Two fresh tracks, at (100,0) and at (0,0), and one detection at (3,4):
    the first track is 97 away on the x axis, beyond the threshold 80; the
    second is at distance 5 and is the one matched. *)
Lemma C4_greedy_nearest_neighbour_witness :
  exists a,
    Estimator.associate_one 80 0 (Estimator.mkDet 3 4 10 10)
      (Estimator.mkAssoc [Kalman.predict (Kalman.init 100 0);
                          Kalman.predict (Kalman.init 0 0)] [] [])
    = Ok a /\
    Estimator.matched_track_idx a = [1%Z] /\
    Estimator.matched_det_idx a = [0%Z].
Proof.
  assert (Hreg : ~ singular (Kalman.predict (Kalman.init 0 0))).
  { unfold singular, det2, Kalman.entry, Kalman.innovation_cov, Kalman.predict,
      Kalman.init, Kalman.F, Kalman.H, Kalman.Q, Kalman.Rm, Kalman.dt.
    cbn. lra. }
  assert (Hnear : obs_dist (Estimator.mkDet 3 4 10 10) (Kalman.predict (Kalman.init 0 0)) < 80).
  { unfold obs_dist, track_dist. rewrite position_predict_init, hypot_lt.
    cbn [fst snd Estimator.det_cx Estimator.det_cy]. lra. }
  assert (Hfar : ~ obs_dist (Estimator.mkDet 3 4 10 10)
                            (Kalman.predict (Kalman.init 100 0)) < 80).
  { unfold obs_dist, track_dist. rewrite position_predict_init, hypot_lt.
    cbn [fst snd Estimator.det_cx Estimator.det_cy]. lra. }
  destruct (update_regular _ 3 4 Hreg) as (t' & Ek & _).
  destruct (proj1 C4_greedy_nearest_neighbour 80 0%Z (Estimator.mkDet 3 4 10 10)
              (Estimator.mkAssoc [Kalman.predict (Kalman.init 100 0);
                                  Kalman.predict (Kalman.init 0 0)] [] []))
    as [[Hno _] | (j & tj & [Hn _] & Hlt & _ & E)].
  - exfalso. apply (Hno 1%nat (Kalman.predict (Kalman.init 0 0))); [| exact Hnear].
    split; [reflexivity | intros []].
  - destruct j as [| [| j]]; simpl in Hn.
    + injection Hn as <-. contradiction.
    + injection Hn as <-. rewrite E.
      cbn [Estimator.det_cx Estimator.det_cy]. rewrite Ek.
      eexists. split; [reflexivity |]. split; reflexivity.
    + destruct j; discriminate.
Defined.

(** A pool holding one fresh track at (0,0), with identifier 0, and a frame
    of three detections: the second, at (3,4), is matched to the track; the
    first and the third are out of its reach. *)
Lemma mixed_frame_association :
  exists t',
    association (Estimator.mkEstimator [Kalman.init 0 0] 80 1 [0%Z])
                [Estimator.mkDet 400 50 30 30; Estimator.mkDet 3 4 10 10;
                 Estimator.mkDet 50 300 20 20]
    = Ok (Estimator.mkAssoc [t'] [0%Z] [1%Z]) /\
    Kalman.missed t' = 0%Z.
Proof.
  assert (Hreg : ~ singular (Kalman.predict (Kalman.init 0 0))).
  { unfold singular, det2, Kalman.entry, Kalman.innovation_cov, Kalman.predict,
      Kalman.init, Kalman.F, Kalman.H, Kalman.Q, Kalman.Rm, Kalman.dt.
    cbn. lra. }
  assert (Hnear : obs_dist (Estimator.mkDet 3 4 10 10) (Kalman.predict (Kalman.init 0 0)) < 80).
  { unfold obs_dist, track_dist. rewrite position_predict_init, hypot_lt.
    cbn [fst snd Estimator.det_cx Estimator.det_cy]. lra. }
  assert (Hfar : ~ obs_dist (Estimator.mkDet 400 50 30 30)
                            (Kalman.predict (Kalman.init 0 0)) < 80).
  { unfold obs_dist, track_dist. rewrite position_predict_init, hypot_lt.
    cbn [fst snd Estimator.det_cx Estimator.det_cy]. lra. }
  destruct (update_regular _ 3 4 Hreg) as (t' & Ek & Hm & _).
  exists t'. split; [| exact Hm].
  unfold association.
  cbn [Estimator.tracks Estimator.max_distance map Estimator.associate].
  destruct (associate_one_spec 80 0 (Estimator.mkDet 400 50 30 30)
              (Estimator.mkAssoc [Kalman.predict (Kalman.init 0 0)] [] []))
    as [[_ E0] | (j & tj & [Hn _] & Hlt & _)].
  2:{ exfalso. destruct j as [| j]; simpl in Hn; [| destruct j; discriminate].
      injection Hn as <-. contradiction. }
  rewrite E0. cbn [bind Z.add].
  destruct (associate_one_spec 80 1 (Estimator.mkDet 3 4 10 10)
              (Estimator.mkAssoc [Kalman.predict (Kalman.init 0 0)] [] []))
    as [[Hno _] | (j & tj & [Hn _] & _ & _ & E1)].
  { exfalso. apply (Hno 0%nat (Kalman.predict (Kalman.init 0 0))); [| exact Hnear].
    split; [reflexivity | intros []]. }
  destruct j as [| j]; simpl in Hn; [| destruct j; discriminate].
  injection Hn as <-. rewrite E1.
  cbn [Estimator.det_cx Estimator.det_cy]. rewrite Ek.
  cbn [bind replace_nth Estimator.a_tracks Estimator.matched_track_idx
       Estimator.matched_det_idx Z.of_nat Z.add Pos.add].
  destruct (associate_one_spec 80 2 (Estimator.mkDet 50 300 20 20)
              (Estimator.mkAssoc [t'] [0%Z] [1%Z]))
    as [[_ E2] | (j & tj & [Hn Hu] & _)].
  2:{ exfalso. destruct j as [| j]; simpl in Hn; [| destruct j; discriminate].
      apply Hu. now left. }
  rewrite E2. reflexivity.
Qed.

Lemma C9_identifiers_unique_increasing_witness :
  exists s' res,
    Estimator.update (Estimator.mkEstimator [Kalman.init 0 0] 80 1 [0%Z])
                     [Estimator.mkDet 400 50 30 30; Estimator.mkDet 3 4 10 10;
                      Estimator.mkDet 50 300 20 20]
    = Ok (s', res) /\
    Estimator.track_ids s' = [0; 1; 2]%Z /\
    Estimator.next_id s' = 3%Z /\
    In (born (Estimator.mkDet 400 50 30 30), 1%Z)
       (combine (Estimator.tracks s') (Estimator.track_ids s')) /\
    In (born (Estimator.mkDet 50 300 20 20), 2%Z)
       (combine (Estimator.tracks s') (Estimator.track_ids s')).
Proof.
  destruct mixed_frame_association as (t' & Ha & Hm).
  destruct (Estimator.update (Estimator.mkEstimator [Kalman.init 0 0] 80 1 [0%Z])
              [Estimator.mkDet 400 50 30 30; Estimator.mkDet 3 4 10 10;
               Estimator.mkDet 50 300 20 20]) as [[s' res] | e] eqn:Hu.
  2:{ rewrite update_spec, Ha in Hu. discriminate. }
  exists s', res. split; [reflexivity |].
  destruct C9_identifiers_unique_increasing as (_ & _ & _ & _ & H & _).
  destruct (H (Estimator.mkEstimator [Kalman.init 0 0] 80 1 [0%Z]) _ _ _ eq_refl Hu)
    as (a & Ha' & Hids & _ & Hnext & Hborn).
  rewrite Ha in Ha'. injection Ha' as <-.
  cbn [Estimator.matched_det_idx Estimator.a_tracks Estimator.track_ids
       Estimator.next_id] in Hids, Hnext, Hborn.
  split.
  { rewrite Hids. unfold Estimator.alive. cbn [combine filter fst].
    unfold Kalman.stale. rewrite Hm. reflexivity. }
  split; [rewrite Hnext; reflexivity |].
  split.
  - apply (Hborn 0%nat (Estimator.mkDet 400 50 30 30) eq_refl).
    intros [Hc | []]. discriminate.
  - apply (Hborn 2%nat (Estimator.mkDet 50 300 20 20) eq_refl).
    intros [Hc | []]. discriminate.
Defined.

(** * Further properties of the code *)

(** ** The filter: motion model, gain and covariance *)

Lemma innovation_cov_block (a b c : R) (xx : Kalman.matrix) (ag ms : Z) :
  Kalman.innovation_cov (Kalman.mkKalman xx (block_cov a b c) ag ms)
  = [[a + 10; 0]; [0; a + 10]].
Proof.
  unfold Kalman.innovation_cov, block_cov, Kalman.H, Kalman.Rm. cbn.
  repeat (f_equal; try ring).
Qed.

Lemma inv_scalar (s : R) :
  s <> 0 -> Kalman.inv [[s; 0]; [0; s]] = Ok [[/ s; 0]; [0; / s]].
Proof.
  intros Hs. unfold Kalman.inv.
  assert (Hd : s * s - 0 * 0 <> 0) by nra.
  rewrite (proj2 (Req_b_false _ _) Hd).
  repeat (f_equal; try (field; nra)).
Qed.

Lemma gain_block (a b c s : R) :
  Kalman.matmul (Kalman.matmul (block_cov a b c) (Kalman.transpose Kalman.H))
                [[/ s; 0]; [0; / s]]
  = [[a / s; 0]; [0; a / s]; [b / s; 0]; [0; b / s]].
Proof.
  unfold block_cov, Kalman.H. cbn. repeat (f_equal; try (unfold Rdiv; ring)).
Qed.

Lemma posterior_block (a b c s : R) :
  Kalman.matmul
    (Kalman.msub (Kalman.eye 4)
       (Kalman.matmul [[a / s; 0]; [0; a / s]; [b / s; 0]; [0; b / s]] Kalman.H))
    (block_cov a b c)
  = block_cov (a - a * a / s) (b - a * b / s) (c - b * b / s).
Proof.
  unfold block_cov, Kalman.H. cbn. repeat (f_equal; try (unfold Rdiv; ring)).
Qed.

Lemma corrected_state (x0 x1 x2 x3 a b s cx cy : R) :
  Kalman.madd [[x0]; [x1]; [x2]; [x3]]
    (Kalman.matmul [[a / s; 0]; [0; a / s]; [b / s; 0]; [0; b / s]]
       (Kalman.msub [[cx]; [cy]] (Kalman.matmul Kalman.H [[x0]; [x1]; [x2]; [x3]])))
  = [[x0 + a / s * (cx - x0)]; [x1 + a / s * (cy - x1)];
     [x2 + b / s * (cx - x0)]; [x3 + b / s * (cy - x1)]].
Proof.
  unfold Kalman.H. cbn. repeat (f_equal; try (unfold Rdiv; ring)).
Qed.

Lemma predict_block (a b c : R) (xx : Kalman.matrix) (ag ms : Z) :
  Kalman.P (Kalman.predict (Kalman.mkKalman xx (block_cov a b c) ag ms))
  = block_cov (a + 2 * b + c + 1) (b + c) (c + 1).
Proof.
  unfold Kalman.predict, block_cov, Kalman.F, Kalman.Q, Kalman.dt. cbn.
  repeat (f_equal; try ring).
Qed.

Lemma predict_state (x0 x1 x2 x3 : R) (pp : Kalman.matrix) (ag ms : Z) :
  Kalman.x (Kalman.predict (Kalman.mkKalman [[x0]; [x1]; [x2]; [x3]] pp ag ms))
  = [[x0 + x2]; [x1 + x3]; [x2]; [x3]].
Proof.
  unfold Kalman.predict, Kalman.F, Kalman.dt. cbn. repeat (f_equal; try ring).
Qed.

(** The update of a healthy filter, in closed form. *)
Lemma update_block (x0 x1 x2 x3 a b c cx cy : R) (ag ms : Z) :
  0 < a ->
  Kalman.update (Kalman.mkKalman [[x0]; [x1]; [x2]; [x3]] (block_cov a b c) ag ms) cx cy
  = (Kalman.mkKalman
       [[x0 + a / (a + 10) * (cx - x0)]; [x1 + a / (a + 10) * (cy - x1)];
        [x2 + b / (a + 10) * (cx - x0)]; [x3 + b / (a + 10) * (cy - x1)]]
       (block_cov (a - a * a / (a + 10)) (b - a * b / (a + 10)) (c - b * b / (a + 10)))
       ag 0%Z,
     Ok tt).
Proof.
  intros Ha. unfold Kalman.update.
  rewrite innovation_cov_block, inv_scalar by lra.
  cbn [Kalman.P Kalman.x Kalman.age].
  now rewrite gain_block, posterior_block, corrected_state.
Qed.

Lemma init_healthy (cx cy : R) : healthy (Kalman.init cx cy).
Proof.
  split.
  - exists cx, cy, 0, 0. reflexivity.
  - exists 500, 0, 500. split; [| lra].
    unfold Kalman.init, block_cov. cbn. repeat (f_equal; try ring).
Qed.

Lemma predict_healthy (k : Kalman.ObjectKalman) : healthy k -> healthy (Kalman.predict k).
Proof.
  destruct k as [xx pp ag ms].
  intros [(x0 & x1 & x2 & x3 & Hx) (a & b & c & Hp & Ha & Hc & Hb)].
  simpl in Hx, Hp. subst xx pp. split.
  - rewrite predict_state. now exists (x0 + x2), (x1 + x3), x2, x3.
  - rewrite predict_block. exists (a + 2 * b + c + 1), (b + c), (c + 1).
    split; [reflexivity |].
    assert (Hs : 0 < a + 2 * b + c).
    { destruct (Rlt_dec 0 (a + 2 * b + c)) as [L | L]; [exact L | exfalso].
      assert (H1 : 0 <= (- (2 * b) - (a + c)) * (- (2 * b) + (a + c)))
        by (apply Rmult_le_pos; lra).
      pose proof (Rle_0_sqr (a - c)) as H2. unfold Rsqr in H2.
      nra. }
    split; [lra |]. split; [lra | nra].
Qed.

Lemma update_healthy (k : Kalman.ObjectKalman) (cx cy : R) :
  healthy k ->
  exists k' g,
    Kalman.update k cx cy = (k', Ok tt) /\
    0 < g < 1 /\
    Kalman.position k'
    = (fst (Kalman.position k) + g * (cx - fst (Kalman.position k)),
       snd (Kalman.position k) + g * (cy - snd (Kalman.position k))) /\
    Kalman.missed k' = 0%Z /\ Kalman.age k' = Kalman.age k /\
    healthy k'.
Proof.
  destruct k as [xx pp ag ms].
  intros [(x0 & x1 & x2 & x3 & Hx) (a & b & c & Hp & Ha & Hc & Hb)].
  simpl in Hx, Hp. subst xx pp.
  eexists. exists (a / (a + 10)).
  split; [apply update_block; exact Ha |].
  assert (Hi : 0 < / (a + 10)) by (apply Rinv_0_lt_compat; lra).
  assert (Hsi : (a + 10) * / (a + 10) = 1) by (apply Rinv_r; lra).
  split.
  { unfold Rdiv. split; nra. }
  split; [reflexivity |]. split; [reflexivity |]. split; [reflexivity |].
  split.
  - do 4 eexists. reflexivity.
  - exists (a - a * a / (a + 10)), (b - a * b / (a + 10)), (c - b * b / (a + 10)).
    split; [reflexivity |].
    assert (E1 : a - a * a / (a + 10) = 10 * a * / (a + 10)) by (field; lra).
    assert (E2 : b - a * b / (a + 10) = 10 * b * / (a + 10)) by (field; lra).
    assert (E3 : (a - a * a / (a + 10)) * (c - b * b / (a + 10))
                 - (b - a * b / (a + 10)) * (b - a * b / (a + 10))
                 = 10 * (a * c - b * b) * / (a + 10)) by (field; lra).
    assert (H1 : 0 < a - a * a / (a + 10)) by (rewrite E1; nra).
    assert (H3 : 0 < (a - a * a / (a + 10)) * (c - b * b / (a + 10))
                     - (b - a * b / (a + 10)) * (b - a * b / (a + 10))).
    { rewrite E3. apply Rmult_lt_0_compat; [nra | exact Hi]. }
    split; [exact H1 |]. split; [| lra].
    assert (0 <= (b - a * b / (a + 10)) * (b - a * b / (a + 10))) by nra.
    nra.
Qed.

Lemma replace_nth_Forall {A : Type} (Q : A -> Prop) (i : nat) (v : A) (l : list A) :
  Forall Q l -> Q v -> Forall Q (replace_nth i v l).
Proof.
  intros Hl Hv. revert i. induction Hl as [| a r Ha Hr IH]; intros [| i]; simpl;
    try constructor; auto.
Qed.

Lemma associate_healthy (maxd : R) (dets : list Estimator.Detection) :
  forall di a,
    Forall healthy (Estimator.a_tracks a) ->
    exists a', Estimator.associate maxd di dets a = Ok a' /\
               Forall healthy (Estimator.a_tracks a').
Proof.
  induction dets as [| d rest IH]; intros di a Hh; simpl.
  - now exists a.
  - destruct (associate_one_spec maxd di d a) as [[_ E] | (j & tj & [Hn _] & _ & _ & E)];
      rewrite E.
    + simpl. now apply IH.
    + assert (Htj : healthy tj).
      { rewrite Forall_forall in Hh. apply Hh. eapply nth_error_In. exact Hn. }
      destruct (update_healthy tj (IZR (Estimator.det_cx d)) (IZR (Estimator.det_cy d)) Htj)
        as (k' & g & Ek & _ & _ & _ & _ & Hk').
      rewrite Ek. simpl. apply IH. simpl. now apply replace_nth_Forall.
Qed.

(** On a pool of healthy filters a frame never fails, and leaves a pool of
    healthy filters. *)
Lemma update_total (s : Estimator.StateEstimator) (dets : list Estimator.Detection) :
  Forall healthy (Estimator.tracks s) ->
  exists s' res, Estimator.update s dets = Ok (s', res) /\
                 Forall healthy (Estimator.tracks s').
Proof.
  intros Hh. rewrite update_spec. unfold association.
  destruct (associate_healthy (Estimator.max_distance s) dets 0
              (Estimator.mkAssoc (map Kalman.predict (Estimator.tracks s)) [] []))
    as (a & Ea & Ha).
  { simpl. rewrite Forall_map. eapply Forall_impl; [| exact Hh].
    intros k. apply predict_healthy. }
  rewrite Ea. simpl. do 2 eexists. split; [reflexivity |]. simpl.
  rewrite Forall_forall. intros t Ht. apply in_map_iff in Ht.
  destruct Ht as ([t0 i0] & <- & Hin). unfold Estimator.alive in Hin.
  apply filter_In in Hin. destruct Hin as [Hin _]. apply in_combine_l in Hin.
  apply in_app_or in Hin. destruct Hin as [Hin | Hin].
  - rewrite Forall_forall in Ha. now apply Ha.
  - apply in_map_iff in Hin. destruct Hin as (d & <- & _). apply init_healthy.
Qed.

Lemma run_frames_total (frames : list (list Estimator.Detection)) :
  forall s,
    Forall healthy (Estimator.tracks s) ->
    exists s', run_frames s frames = Ok s' /\ Forall healthy (Estimator.tracks s').
Proof.
  induction frames as [| dets rest IH]; intros s Hh; simpl.
  - now exists s.
  - destruct (update_total s dets Hh) as (s1 & res & Eu & H1).
    rewrite Eu. simpl. now apply IH.
Qed.

(** ** The correction step on the entries, and its failure *)

Lemma innovation_cov_entries (x0 x1 x2 x3 : R) (r0 r1 r2 r3 : row4) (ag ms : Z) :
  Kalman.innovation_cov (filter_of x0 x1 x2 x3 r0 r1 r2 r3 ag ms)
  = [[c0 r0 + 10; c1 r0]; [c0 r1; c1 r1 + 10]].
Proof.
  unfold Kalman.innovation_cov, filter_of, Kalman.H, Kalman.Rm.
  cbn -[c0 c1 c2 c3]. repeat (f_equal; try ring).
Qed.

Lemma singular_entries (x0 x1 x2 x3 : R) (r0 r1 r2 r3 : row4) (ag ms : Z) :
  singular (filter_of x0 x1 x2 x3 r0 r1 r2 r3 ag ms) <-> innovation_det r0 r1 = 0.
Proof.
  unfold singular. rewrite innovation_cov_entries.
  unfold det2, Kalman.entry, innovation_det. cbn [nth]. reflexivity.
Qed.

Lemma inv_entries (a b c d : R) :
  a * d - b * c <> 0 ->
  Kalman.inv [[a; b]; [c; d]]
  = Ok [[d / (a * d - b * c); - b / (a * d - b * c)];
        [- c / (a * d - b * c); a / (a * d - b * c)]].
Proof.
  intros Hd. unfold Kalman.inv. now rewrite (proj2 (Req_b_false _ _) Hd).
Qed.

Lemma gain_entries (p00 p01 p02 p03 p10 p11 p12 p13 p20 p21 p22 p23 p30 p31 p32 p33
                    a b c d det : R) :
  Kalman.matmul
    (Kalman.matmul [[p00; p01; p02; p03]; [p10; p11; p12; p13];
                    [p20; p21; p22; p23]; [p30; p31; p32; p33]]
                   (Kalman.transpose Kalman.H))
    [[d / det; - b / det]; [- c / det; a / det]]
  = [[(p00 * d - p01 * c) / det; (p01 * a - p00 * b) / det];
     [(p10 * d - p11 * c) / det; (p11 * a - p10 * b) / det];
     [(p20 * d - p21 * c) / det; (p21 * a - p20 * b) / det];
     [(p30 * d - p31 * c) / det; (p31 * a - p30 * b) / det]].
Proof.
  unfold Kalman.H. cbn. repeat (f_equal; try (unfold Rdiv; ring)).
Qed.

Lemma posterior_entries (p00 p01 p02 p03 p10 p11 p12 p13 p20 p21 p22 p23 p30 p31 p32 p33
                         k00 k01 k10 k11 k20 k21 k30 k31 : R) :
  Kalman.matmul
    (Kalman.msub (Kalman.eye 4)
       (Kalman.matmul [[k00; k01]; [k10; k11]; [k20; k21]; [k30; k31]] Kalman.H))
    [[p00; p01; p02; p03]; [p10; p11; p12; p13];
     [p20; p21; p22; p23]; [p30; p31; p32; p33]]
  = [[p00 - k00 * p00 - k01 * p10; p01 - k00 * p01 - k01 * p11;
      p02 - k00 * p02 - k01 * p12; p03 - k00 * p03 - k01 * p13];
     [p10 - k10 * p00 - k11 * p10; p11 - k10 * p01 - k11 * p11;
      p12 - k10 * p02 - k11 * p12; p13 - k10 * p03 - k11 * p13];
     [p20 - k20 * p00 - k21 * p10; p21 - k20 * p01 - k21 * p11;
      p22 - k20 * p02 - k21 * p12; p23 - k20 * p03 - k21 * p13];
     [p30 - k30 * p00 - k31 * p10; p31 - k30 * p01 - k31 * p11;
      p32 - k30 * p02 - k31 * p12; p33 - k30 * p03 - k31 * p13]].
Proof.
  unfold Kalman.H. cbn. repeat (f_equal; try ring).
Qed.

Lemma corrected_entries (x0 x1 x2 x3 k00 k01 k10 k11 k20 k21 k30 k31 cx cy : R) :
  Kalman.madd [[x0]; [x1]; [x2]; [x3]]
    (Kalman.matmul [[k00; k01]; [k10; k11]; [k20; k21]; [k30; k31]]
       (Kalman.msub [[cx]; [cy]] (Kalman.matmul Kalman.H [[x0]; [x1]; [x2]; [x3]])))
  = [[x0 + k00 * (cx - x0) + k01 * (cy - x1)];
     [x1 + k10 * (cx - x0) + k11 * (cy - x1)];
     [x2 + k20 * (cx - x0) + k21 * (cy - x1)];
     [x3 + k30 * (cx - x0) + k31 * (cy - x1)]].
Proof.
  unfold Kalman.H. cbn. repeat (f_equal; try ring).
Qed.

(** The correction of a filter with a regular innovation covariance, on
    the entries of its state and covariance. *)
Lemma update_entries (x0 x1 x2 x3 : R) (r0 r1 r2 r3 : row4) (ag ms : Z) (cx cy : R) :
  innovation_det r0 r1 <> 0 ->
  Kalman.update (filter_of x0 x1 x2 x3 r0 r1 r2 r3 ag ms) cx cy
  = (corrected_filter x0 x1 x2 x3 r0 r1 r2 r3 ag cx cy, Ok tt).
Proof.
  intros Hd. unfold Kalman.update. rewrite innovation_cov_entries.
  unfold innovation_det in Hd.
  rewrite inv_entries by exact Hd.
  unfold filter_of. cbn [Kalman.P Kalman.x Kalman.age].
  rewrite gain_entries, posterior_entries, corrected_entries.
  unfold corrected_filter, filter_of, corrected, posterior_row, gain_row, innovation_det.
  cbn [c0 c1 c2 c3 fst snd].
  destruct r0 as [[[p00 p01] p02] p03], r1 as [[[p10 p11] p12] p13],
           r2 as [[[p20 p21] p22] p23], r3 as [[[p30 p31] p32] p33].
  unfold c0, c1, c2, c3 in *. cbn [fst snd] in *.
  repeat (f_equal; try (field; exact Hd)).
Qed.

(** The only failure of [update] is the one of the inversion. *)
Lemma update_raise_inv (k k' : Kalman.ObjectKalman) (cx cy : R) (e : exn) :
  Kalman.update k cx cy = (k', Raise e) -> e = LinAlgError /\ singular k.
Proof.
  intros Hu. destruct (Req_dec (det2 (Kalman.innovation_cov k)) 0) as [Hs | Hr].
  - rewrite (update_singular k cx cy Hs) in Hu. injection Hu as _ <-. now split.
  - destruct (update_regular k cx cy Hr) as (k1 & E & _). rewrite E in Hu. discriminate.
Qed.

Lemma healthy_regular (k : Kalman.ObjectKalman) : healthy k -> ~ singular k.
Proof.
  destruct k as [xx pp ag ms]. intros [_ (a & b & c & Hp & Ha & _)]. simpl in Hp. subst pp.
  unfold singular. rewrite innovation_cov_block. unfold det2, Kalman.entry. cbn [nth].
  nra.
Qed.

Lemma associate_app (maxd : R) (l1 l2 : list Estimator.Detection) :
  forall di a,
    Estimator.associate maxd di (l1 ++ l2) a
    = do a1 <- Estimator.associate maxd di l1 a;
      Estimator.associate maxd (di + Z.of_nat (length l1)) l2 a1.
Proof.
  induction l1 as [| d l1 IH]; intros di a.
  - cbn [app Estimator.associate bind length Z.of_nat]. now rewrite Z.add_0_r.
  - cbn [app Estimator.associate length].
    destruct (Estimator.associate_one maxd di d a) as [a1 | e]; [| reflexivity].
    cbn [bind]. rewrite IH. now rewrite shift_index.
Qed.

(** The first nearest unmatched track is the one the loop chooses: when its
    innovation covariance is singular, the iteration fails. *)
Lemma associate_one_raise (maxd : R) (di : Z) (d : Estimator.Detection)
      (a : Estimator.Assoc) (j : nat) (tj : Kalman.ObjectKalman) :
  unmatched_track a j tj ->
  obs_dist d tj < maxd ->
  (forall i t, unmatched_track a i t ->
               obs_dist d tj <= obs_dist d t /\
               ((i < j)%nat -> obs_dist d tj < obs_dist d t)) ->
  singular tj ->
  Estimator.associate_one maxd di d a = Raise LinAlgError.
Proof.
  intros Hu Hlt Hmin Hs.
  destruct (associate_one_spec maxd di d a)
    as [[Hno _] | (j' & tj' & Hu' & _ & Hmin' & E)].
  - exfalso. exact (Hno j tj Hu Hlt).
  - assert (Hj : j' = j).
    { destruct (Nat.lt_trichotomy j' j) as [L | [L | L]]; [| exact L |]; exfalso.
      - pose proof (proj2 (Hmin j' tj' Hu') L). pose proof (proj1 (Hmin' j tj Hu)). lra.
      - pose proof (proj2 (Hmin' j tj Hu) L). pose proof (proj1 (Hmin j' tj' Hu')). lra. }
    subst j'. destruct Hu as [Hn _], Hu' as [Hn' _]. rewrite Hn in Hn'.
    injection Hn' as <-.
    rewrite E, (update_singular tj _ _ Hs). reflexivity.
Qed.

Lemma associate_one_raise_inv (maxd : R) (di : Z) (d : Estimator.Detection)
      (a : Estimator.Assoc) (e : exn) :
  Estimator.associate_one maxd di d a = Raise e ->
  e = LinAlgError /\
  exists j tj, unmatched_track a j tj /\ obs_dist d tj < maxd /\ singular tj.
Proof.
  intros Hr.
  destruct (associate_one_spec maxd di d a) as [[_ E] | (j & tj & Hu & Hlt & _ & E)];
    rewrite E in Hr; [discriminate |].
  destruct (Kalman.update tj _ _) as [tj' [[] | e']] eqn:Ek; [discriminate |].
  injection Hr as <-. destruct (update_raise_inv _ _ _ _ _ Ek) as [-> Hs].
  split; [reflexivity |]. now exists j, tj.
Qed.

Lemma associate_raise_inv (maxd : R) (dets : list Estimator.Detection) (e : exn) :
  forall di a,
    Estimator.associate maxd di dets a = Raise e ->
    exists pre d post a1,
      dets = pre ++ d :: post /\
      Estimator.associate maxd di pre a = Ok a1 /\
      Estimator.associate_one maxd (di + Z.of_nat (length pre)) d a1 = Raise e.
Proof.
  induction dets as [| d rest IH]; intros di a Hr; [discriminate |].
  cbn [Estimator.associate] in Hr.
  destruct (Estimator.associate_one maxd di d a) as [a1 | e1] eqn:E1.
  - cbn [bind] in Hr. destruct (IH _ _ Hr) as (pre & d' & post & a2 & -> & Hpre & Hone).
    exists (d :: pre), d', post, a2. split; [reflexivity |].
    split.
    + cbn [Estimator.associate]. rewrite E1. exact Hpre.
    + cbn [length]. now rewrite shift_index.
  - cbn [bind] in Hr. injection Hr as ->.
    exists [], d, rest, a. split; [reflexivity |]. split; [reflexivity |].
    cbn [length Z.of_nat]. now rewrite Z.add_0_r.
Qed.

(** A failure at any detection of the frame leaves the frame. *)
Lemma update_raises_at (s : Estimator.StateEstimator)
      (pre post : list Estimator.Detection) (d : Estimator.Detection)
      (a : Estimator.Assoc) (e : exn) :
  association s pre = Ok a ->
  Estimator.associate_one (Estimator.max_distance s) (Z.of_nat (length pre)) d a = Raise e ->
  Estimator.update s (pre ++ d :: post) = Raise e.
Proof.
  intros Ha Hone. rewrite update_spec. unfold association in *.
  rewrite associate_app, Ha. cbn [bind Estimator.associate Z.add].
  now rewrite Hone.
Qed.

(** C3, as the claim is written, fails: the update has no guard.  For a
    filter whose innovation covariance is singular, [update] raises
    [LinAlgError]; the frame that matches a detection to it fails with that
    exception, in the estimator and in the pipeline. *)
Lemma C3_singular_update_raises :
  singular (Kalman.predict degenerate_filter) /\
  snd (Kalman.update (Kalman.predict degenerate_filter) 0 0) = Raise LinAlgError /\
  Estimator.update (Estimator.mkEstimator [degenerate_filter] 80 1 [0%Z])
                   [Estimator.mkDet 0 0 10 10]
  = Raise LinAlgError /\
  Pipeline.frame (Pipeline.mkPipeline (Estimator.mkEstimator [degenerate_filter] 80 1 [0%Z])
                                      (Safety.mkMonitor (320, 240) 120) [])
                 [Estimator.mkDet 0 0 10 10]
  = Raise LinAlgError.
Proof.
  match goal with
  | |- _ /\ _ /\ Estimator.update ?s0 ?ds = _ /\ _ =>
      assert (Hu : Estimator.update s0 ds = Raise LinAlgError)
  end.
  { apply update_raises_singular.
    - eexists. split; [left; reflexivity |]. unfold obs_dist, track_dist.
      rewrite degenerate_filter_position, hypot_lt.
      cbn [fst snd Estimator.det_cx Estimator.det_cy Estimator.max_distance]. lra.
    - intros t [<- | []] _. apply degenerate_filter_singular. }
  split; [apply degenerate_filter_singular |].
  split; [now rewrite (update_singular _ 0 0 degenerate_filter_singular) |].
  split; [exact Hu |]. now apply frame_raises.
Qed.

(** C3 (amended): [update] has no guard.  When the innovation covariance
    [S = H P H^T + R] is singular (determinant
    [(p00 + 10) (p11 + 10) - p01 p10 = 0]), [update] raises [LinAlgError]
    before it assigns anything: the filter keeps exactly its post-predict
    state and its missed count is not reset.  The exception is not handled:
    at whichever observation of the frame the nearest unmatched track within
    the threshold has a singular innovation covariance, the exception leaves
    [StateEstimator.update] and the frame; a frame fails in no other way.
    When the determinant is not 0 the correction is applied in full: the
    state becomes [x + K (z - H x)] and the covariance [(I - K H) P] with
    [K = P H^T S^-1], the age is kept and the missed count is reset to 0.
    A filter built by the constructor, and whatever the tracker makes of it
    by [predict] and [update], has a positive definite covariance, so its
    innovation covariance is never singular: from an empty pool no run of
    frames fails. *)
Theorem C3_singular_update_not_guarded :
  (forall k cx cy, singular k -> Kalman.update k cx cy = (k, Raise LinAlgError)) /\
  (forall x0 x1 x2 x3 r0 r1 r2 r3 ag ms,
      singular (filter_of x0 x1 x2 x3 r0 r1 r2 r3 ag ms) <-> innovation_det r0 r1 = 0) /\
  (forall x0 x1 x2 x3 r0 r1 r2 r3 ag ms cx cy,
      innovation_det r0 r1 <> 0 ->
      Kalman.update (filter_of x0 x1 x2 x3 r0 r1 r2 r3 ag ms) cx cy
      = (corrected_filter x0 x1 x2 x3 r0 r1 r2 r3 ag cx cy, Ok tt)) /\
  (forall k cx cy,
      ~ singular k ->
      exists k', Kalman.update k cx cy = (k', Ok tt) /\
                 Kalman.missed k' = 0%Z /\ Kalman.age k' = Kalman.age k) /\
  (forall maxd di d a j tj,
      unmatched_track a j tj ->
      obs_dist d tj < maxd ->
      (forall i t, unmatched_track a i t ->
                   obs_dist d tj <= obs_dist d t /\
                   ((i < j)%nat -> obs_dist d tj < obs_dist d t)) ->
      singular tj ->
      Estimator.associate_one maxd di d a = Raise LinAlgError) /\
  (forall s pre d post a e,
      association s pre = Ok a ->
      Estimator.associate_one (Estimator.max_distance s) (Z.of_nat (length pre)) d a
      = Raise e ->
      Estimator.update s (pre ++ d :: post) = Raise e) /\
  (forall s dets e,
      Estimator.update s dets = Raise e ->
      e = LinAlgError /\
      exists pre d post a j tj,
        dets = pre ++ d :: post /\
        association s pre = Ok a /\
        unmatched_track a j tj /\
        obs_dist d tj < Estimator.max_distance s /\
        singular tj) /\
  (forall pl dets e,
      Estimator.update (Pipeline.estimator pl) dets = Raise e ->
      Pipeline.frame pl dets = Raise e) /\
  (forall cx cy, healthy (Kalman.init cx cy)) /\
  (forall k, healthy k -> healthy (Kalman.predict k) /\ ~ singular k) /\
  (forall k cx cy,
      healthy k -> exists k', Kalman.update k cx cy = (k', Ok tt) /\ healthy k') /\
  (forall maxd frames,
      exists s', run_frames (Estimator.init maxd) frames = Ok s' /\
                 Forall healthy (Estimator.tracks s')).
Proof.
  split; [exact update_singular |].
  split; [exact singular_entries |].
  split; [exact update_entries |].
  split; [exact update_regular |].
  split; [exact associate_one_raise |].
  split; [intros s pre d post a e; apply update_raises_at |].
  split.
  { intros s dets e Hu. rewrite update_spec in Hu. unfold association in Hu.
    destruct (Estimator.associate _ _ _ _) as [a |e'] eqn:Ea; [discriminate |].
    cbn [bind] in Hu. injection Hu as ->.
    destruct (associate_raise_inv _ _ _ _ _ Ea) as (pre & d & post & a1 & -> & Hpre & Hone).
    destruct (associate_one_raise_inv _ _ _ _ _ Hone) as (-> & j & tj & Hj & Hlt & Hs).
    split; [reflexivity |].
    exists pre, d, post, a1, j, tj. repeat (split; [assumption || reflexivity |]).
    exact Hs. }
  split; [exact frame_raises |].
  split; [exact init_healthy |].
  split; [intros k Hk; split; [now apply predict_healthy | now apply healthy_regular] |].
  split.
  { intros k cx cy Hk.
    destruct (update_healthy k cx cy Hk) as (k' & g & E & _ & _ & _ & _ & Hk').
    now exists k'. }
  intros maxd frames. apply run_frames_total. constructor.
Qed.

(** A filter whose covariance has the entry [p00 = -10]: the determinant of
    its innovation covariance is [(-10 + 10) (0 + 10) - 0 = 0] and the call
    fails, leaving the filter as it was; and a filter with the constructor's
    covariance [500 I], corrected in full with the measurement (51, 102). *)
Lemma C3_singular_update_not_guarded_witness :
  Kalman.update (filter_of 0 0 0 0 (-10, 0, 0, 0) (0, 0, 0, 0) (0, 0, 1, 0) (0, 0, 0, 1) 1 1)
                5 5
  = (filter_of 0 0 0 0 (-10, 0, 0, 0) (0, 0, 0, 0) (0, 0, 1, 0) (0, 0, 0, 1) 1 1,
     Raise LinAlgError) /\
  Kalman.update (filter_of 0 0 0 0 (500, 0, 0, 0) (0, 500, 0, 0) (0, 0, 500, 0)
                           (0, 0, 0, 500) 0 0)
                51 102
  = (corrected_filter 0 0 0 0 (500, 0, 0, 0) (0, 500, 0, 0) (0, 0, 500, 0)
                      (0, 0, 0, 500) 0 51 102,
     Ok tt).
Proof.
  destruct C3_singular_update_not_guarded as (H1 & H2 & H3 & _).
  split.
  - apply H1, H2. unfold innovation_det, c0, c1. cbn [fst snd]. lra.
  - apply H3. unfold innovation_det, c0, c1. cbn [fst snd]. lra.
Defined.

Lemma forecast_total (sts : list Estimator.TrackState) :
  forall acc, forecasters_ok (fst acc) ->
              exists acc', Pipeline.forecast sts acc = Ok acc'.
Proof.
  induction sts as [| st rest IH]; intros [preds futures] Hp; simpl.
  - now eexists.
  - simpl in Hp.
    assert (Hget : exists p,
               match dict_get Z.eqb (Estimator.s_id st) preds with
               | Some p0 => Ok p0
               | None => Predictor.init 8 Pipeline.HORIZON
               end = Ok p /\ Predictor.horizon p = Pipeline.HORIZON).
    { destruct (dict_get Z.eqb (Estimator.s_id st) preds) as [p0 |] eqn:Eg.
      - exists p0. split; [reflexivity |].
        exact (dict_get_values (fun p => Predictor.horizon p = Pipeline.HORIZON)
                               _ _ _ Hp Eg).
      - eexists. split; reflexivity. }
    destruct Hget as (p & Ep & Hh). rewrite Ep. simpl.
    pose proof (update_and_predict_horizon p (Estimator.s_cx st) (Estimator.s_cy st)
                  (Estimator.s_vx st) (Estimator.s_vy st)) as Hhor.
    destruct (Predictor.update_and_predict p _ _ _ _) as [p1 future]. simpl in Hhor.
    apply IH. simpl.
    apply (dict_set_values (fun q => Predictor.horizon q = Pipeline.HORIZON));
      [exact Hp | congruence].
Qed.

Lemma frame_total (pl : Pipeline.Pipeline) (dets : list Estimator.Detection) :
  pipeline_ok pl ->
  exists pl' out, Pipeline.frame pl dets = Ok (pl', out) /\ pipeline_ok pl'.
Proof.
  intros [Hh Hp]. unfold Pipeline.frame.
  destruct (update_total _ dets Hh) as (est & sts & Eu & Hest). rewrite Eu. simpl.
  destruct (forecast_total sts (Pipeline.predictors pl, []) Hp) as ([preds futures] & Ef).
  rewrite Ef. simpl. do 2 eexists. split; [reflexivity |].
  split; [exact Hest |]. simpl.
  destruct (forecast_full _ _ _ _ _ Hp (Forall_nil _) Ef) as [Hp' _].
  unfold Pipeline.drop_dead.
  now apply (fold_del_values (fun q => Predictor.horizon q = Pipeline.HORIZON)).
Qed.

Lemma run_total (frames : list (list Estimator.Detection)) :
  forall pl, pipeline_ok pl ->
             exists pl' outs, Pipeline.run pl frames = Ok (pl', outs) /\
                              length outs = length frames /\ pipeline_ok pl'.
Proof.
  induction frames as [| dets rest IH]; intros pl Hok; simpl.
  - exists pl, []. split; [reflexivity | split; [reflexivity | exact Hok]].
  - destruct (frame_total pl dets Hok) as (pl1 & out & Ef & Hok1). rewrite Ef. simpl.
    destruct (IH pl1 Hok1) as (pl2 & outs & Er & Hlen & Hok2). rewrite Er. simpl.
    exists pl2, (out :: outs). split; [reflexivity |]. split; [simpl; lia | exact Hok2].
Qed.

(** X1.  Started from an empty pool, the estimator and the whole pipeline
    never raise: every filter born from a detection keeps a positive
    definite covariance, so the inversion in [ObjectKalman.update] always
    succeeds, whatever the detections of the frames are. *)
Theorem pipeline_never_raises :
  (forall d frames,
      exists s, run_frames (Estimator.init d) frames = Ok s /\
                Forall healthy (Estimator.tracks s)) /\
  (forall c frames,
      exists pl0 pl outs,
        Pipeline.start c = Ok pl0 /\
        Pipeline.run pl0 frames = Ok (pl, outs) /\
        length outs = length frames).
Proof.
  split.
  - intros d frames. apply run_frames_total. constructor.
  - intros c frames. eexists.
    destruct (run_total frames (Pipeline.mkPipeline (Estimator.init 80)
                                  (Safety.mkMonitor c Pipeline.ZONE_RADIUS) []))
      as (pl & outs & Er & Hlen & _).
    { split; constructor. }
    exists pl, outs. split; [reflexivity |]. split; [exact Er | exact Hlen].
Qed.

Lemma iter_predict_state (n : nat) (x0 x1 x2 x3 : R) (pp : Kalman.matrix) (ag ms : Z) :
  Kalman.x (Nat.iter n Kalman.predict (Kalman.mkKalman [[x0]; [x1]; [x2]; [x3]] pp ag ms))
  = [[x0 + INR n * x2]; [x1 + INR n * x3]; [x2]; [x3]].
Proof.
  induction n as [| n IH].
  - simpl. repeat (f_equal; try ring).
  - change (Nat.iter (S n) Kalman.predict ?k)
      with (Kalman.predict (Nat.iter n Kalman.predict k)).
    destruct (Nat.iter n Kalman.predict _) as [xx pp' ag' ms']. simpl in IH. subst xx.
    rewrite predict_state, S_INR. repeat (f_equal; try ring).
Qed.

(** X2.  [predict] is the constant-velocity motion model: on a 4x1 state it
    adds the velocity to the position, keeps the velocity and increments
    [age] and [missed]; after [n] predictions the position has moved by [n]
    times the velocity, which is the point the linear forecast gives for
    frame [n]. *)
Theorem predict_constant_velocity (k : Kalman.ObjectKalman) (n : nat) :
  (exists x0 x1 x2 x3, Kalman.x k = [[x0]; [x1]; [x2]; [x3]]) ->
  let '(px, py) := Kalman.position k in
  let '(vx, vy) := Kalman.velocity k in
  Kalman.position (Kalman.predict k) = (px + vx, py + vy) /\
  Kalman.velocity (Kalman.predict k) = (vx, vy) /\
  Kalman.age (Kalman.predict k) = (Kalman.age k + 1)%Z /\
  Kalman.missed (Kalman.predict k) = (Kalman.missed k + 1)%Z /\
  Kalman.position (Nat.iter n Kalman.predict k) = (px + INR n * vx, py + INR n * vy) /\
  ((1 <= n)%nat ->
   nth_error (Predictor.predict_linear px py vx vy (Z.of_nat n)) (n - 1)
   = Some (Kalman.position (Nat.iter n Kalman.predict k))).
Proof.
  destruct k as [xx pp ag ms]. intros (x0 & x1 & x2 & x3 & Hx). simpl in Hx. subst xx.
  cbn [Kalman.position Kalman.velocity Kalman.x Kalman.entry nth].
  assert (Hn : Kalman.position
                 (Nat.iter n Kalman.predict (Kalman.mkKalman [[x0]; [x1]; [x2]; [x3]] pp ag ms))
               = (x0 + INR n * x2, x1 + INR n * x3)).
  { unfold Kalman.position. now rewrite iter_predict_state. }
  split.
  { unfold Kalman.position. now rewrite predict_state. }
  split.
  { unfold Kalman.velocity. now rewrite predict_state. }
  split; [reflexivity |]. split; [reflexivity |]. split; [exact Hn |].
  intros H1. rewrite Hn. unfold Predictor.predict_linear.
  rewrite nth_error_map, py_range_nth by lia.
  replace (1 + Z.of_nat (n - 1))%Z with (Z.of_nat n) by lia.
  cbn [option_map]. rewrite <- INR_IZR_INZ. f_equal. f_equal; ring.
Qed.

Lemma predict_constant_velocity_witness :
  Kalman.position (Kalman.predict (Kalman.mkKalman [[10]; [20]; [3]; [-1]] [] 0 0))
  = (10 + 3, 20 + -1).
Proof.
  pose proof (predict_constant_velocity
                (Kalman.mkKalman [[10]; [20]; [3]; [-1]] [] 0 0) 2) as H.
  simpl in H. apply H. now exists 10, 20, 3, (-1).
Defined.

(** X3.  On a healthy filter (4x1 state, positive definite covariance of the
    filter's block shape) [update] succeeds, resets [missed], keeps [age],
    leaves the filter healthy, and moves the position estimate from the
    predicted position towards the observation by a gain strictly between 0
    and 1; an observation at the predicted position leaves it unchanged. *)
Theorem update_moves_towards_observation (k : Kalman.ObjectKalman) (cx cy : R) :
  healthy k ->
  exists k' g,
    Kalman.update k cx cy = (k', Ok tt) /\
    0 < g < 1 /\
    Kalman.position k'
    = (fst (Kalman.position k) + g * (cx - fst (Kalman.position k)),
       snd (Kalman.position k) + g * (cy - snd (Kalman.position k))) /\
    ((cx, cy) = Kalman.position k -> Kalman.position k' = Kalman.position k) /\
    Kalman.missed k' = 0%Z /\ Kalman.age k' = Kalman.age k /\
    healthy k'.
Proof.
  intros Hk.
  destruct (update_healthy k cx cy Hk) as (k' & g & Eu & Hg & Hpos & Hm & Ha & Hk').
  exists k', g. split; [exact Eu |]. split; [exact Hg |]. split; [exact Hpos |].
  split; [| split; [exact Hm | split; [exact Ha | exact Hk']]].
  intros E. rewrite Hpos. destruct (Kalman.position k) as [px py].
  injection E as -> ->. simpl. f_equal; ring.
Qed.

Lemma update_moves_towards_observation_witness :
  exists k' g,
    Kalman.update (Kalman.init 50 60) 53 64 = (k', Ok tt) /\ 0 < g < 1 /\
    Kalman.position k' = (50 + g * (53 - 50), 60 + g * (64 - 60)).
Proof.
  destruct (update_moves_towards_observation (Kalman.init 50 60) 53 64
              (init_healthy 50 60)) as (k' & g & Eu & Hg & Hpos & _).
  exists k', g. split; [exact Eu |]. split; [exact Hg | exact Hpos].
Defined.

(** ** The pool after a frame *)

Lemma replace_nth_map_same {A B : Type} (f : A -> B) (i : nat) (v a : A) (l : list A) :
  nth_error l i = Some a -> f v = f a -> map f (replace_nth i v l) = map f l.
Proof.
  revert i. induction l as [| x r IH]; intros [| i] Hn Hf; simpl in *; try discriminate.
  - injection Hn as ->. now rewrite Hf.
  - f_equal. now apply IH.
Qed.

Lemma associate_ages (maxd : R) (dets : list Estimator.Detection) :
  forall di a0 a,
    Estimator.associate maxd di dets a0 = Ok a ->
    map Kalman.age (Estimator.a_tracks a) = map Kalman.age (Estimator.a_tracks a0).
Proof.
  induction dets as [| d rest IH]; intros di a0 a Ha; simpl in Ha.
  - now injection Ha as <-.
  - destruct (Estimator.associate_one maxd di d a0) as [a1 |] eqn:E1; simpl in Ha;
      [| discriminate].
    rewrite (IH _ _ _ Ha).
    destruct (associate_one_step _ _ _ _ _ E1)
      as [-> | (j & tj & tj' & [Hn _] & Hk & ->)]; [reflexivity |].
    simpl. apply (replace_nth_map_same Kalman.age j tj' tj); [exact Hn |].
    apply (update_ok_missed _ _ _ _ _ Hk).
Qed.

Lemma associate_counts (maxd : R) (dets : list Estimator.Detection) :
  forall di a0 a,
    Estimator.associate maxd di dets a0 = Ok a ->
    (forall k, In k (Estimator.matched_det_idx a0) -> (k < di)%Z) ->
    NoDup (Estimator.matched_det_idx a0) ->
    NoDup (Estimator.matched_det_idx a) /\
    (forall k, In k (Estimator.matched_det_idx a) ->
               In k (Estimator.matched_det_idx a0) \/
               (di <= k < di + Z.of_nat (length dets))%Z) /\
    (length (Estimator.matched_track_idx a) + length (Estimator.matched_det_idx a0)
     = length (Estimator.matched_det_idx a) + length (Estimator.matched_track_idx a0))%nat /\
    (forall i, In i (Estimator.matched_track_idx a) ->
               In i (Estimator.matched_track_idx a0) \/
               (0 <= i < Z.of_nat (length (Estimator.a_tracks a0)))%Z).
Proof.
  induction dets as [| d rest IH]; intros di a0 a Ha Hlt Hnd; simpl in Ha.
  - injection Ha as <-. repeat split; auto; lia.
  - destruct (Estimator.associate_one maxd di d a0) as [a1 |] eqn:E1; simpl in Ha;
      [| discriminate].
    destruct (associate_one_step _ _ _ _ _ E1)
      as [-> | (j & tj & tj' & [Hn Hu] & Hk & ->)].
    + destruct (IH (di + 1)%Z a0 a Ha) as (Hnd' & Hin & Hlen & Hmt); auto.
      { intros k Hk. specialize (Hlt k Hk). lia. }
      split; [exact Hnd' |]. split; [| split; [exact Hlen | exact Hmt]].
      intros k Hk. destruct (Hin k Hk) as [? | ?]; [now left | right].
      simpl length. lia.
    + destruct (IH (di + 1)%Z _ a Ha) as (Hnd' & Hin & Hlen & Hmt); simpl in *.
      { intros k [<- | Hk']; [lia |]. specialize (Hlt k Hk'). lia. }
      { constructor; [| exact Hnd]. intros Hdi. specialize (Hlt di Hdi). lia. }
      rewrite replace_nth_length in Hmt.
      split; [exact Hnd' |]. split; [| split; [lia |]].
      * intros k Hk'. destruct (Hin k Hk') as [[<- | ?] | ?]; [right; lia | now left | right; lia].
      * intros i Hi. destruct (Hmt i Hi) as [[<- | ?] | ?]; [right | now left | now right].
        assert (j < length (Estimator.a_tracks a0))%nat
          by (apply nth_error_Some; now rewrite Hn).
        lia.
Qed.

Lemma unmatched_ext (md md' : list Z) (dets : list Estimator.Detection) :
  forall di,
    (forall k, (di <= k)%Z -> (In k md <-> In k md')) ->
    unmatched md di dets = unmatched md' di dets.
Proof.
  induction dets as [| d rest IH]; intros di Hext; simpl; [reflexivity |].
  assert (Es : set_mem di md = set_mem di md').
  { destruct (set_mem di md) eqn:E1, (set_mem di md') eqn:E2; try reflexivity.
    - apply set_mem_In in E1. apply set_mem_not_In in E2.
      exfalso. apply E2, (Hext di); [lia | exact E1].
    - apply set_mem_not_In in E1. apply set_mem_In in E2.
      exfalso. apply E1, (Hext di); [lia | exact E2]. }
  rewrite Es, (IH (di + 1)%Z); [reflexivity |].
  intros k Hk. apply Hext. lia.
Qed.

(** The detections of a frame split into the matched ones and the ones
    left to birth. *)
Lemma unmatched_count (dets : list Estimator.Detection) :
  forall di md,
    NoDup md ->
    (forall k, In k md -> (di <= k < di + Z.of_nat (length dets))%Z) ->
    (length (unmatched md di dets) + length md = length dets)%nat.
Proof.
  induction dets as [| d rest IH]; intros di md Hnd Hin.
  - destruct md as [| k md]; [reflexivity |].
    specialize (Hin k (or_introl eq_refl)). simpl in Hin. lia.
  - simpl. destruct (set_mem di md) eqn:Em.
    + apply set_mem_In in Em.
      rewrite (unmatched_ext md (remove Z.eq_dec di md)).
      2:{ intros k Hk. split.
          - intros Hkin. apply in_in_remove; [lia | exact Hkin].
          - intros Hkin. now apply in_remove in Hkin. }
      assert (Hlen : S (length (remove Z.eq_dec di md)) = length md).
      { clear - Hnd Em. induction md as [| x md IHm]; [contradiction |].
        inversion Hnd as [| ? ? Hx Hnd']; subst. simpl.
        destruct (Z.eq_dec di x) as [-> | Hne].
        - rewrite notin_remove by exact Hx. reflexivity.
        - simpl. f_equal. apply IHm; [exact Hnd' |].
          destruct Em as [E | E]; [congruence | exact E]. }
      rewrite <- Hlen, Nat.add_succ_r. f_equal. apply IH.
      * clear - Hnd. induction Hnd as [| x md Hx Hnd' IHm]; simpl; [constructor |].
        destruct (Z.eq_dec di x); [exact IHm |].
        constructor; [| exact IHm]. intros Hin. now apply in_remove in Hin.
      * intros k Hk. apply in_remove in Hk. destruct Hk as [Hk Hne].
        specialize (Hin k Hk). simpl length in Hin. lia.
    + apply set_mem_not_In in Em. simpl. f_equal. apply IH; [exact Hnd |].
      intros k Hk. specialize (Hin k Hk). simpl length in Hin.
      assert (k <> di) by (intros ->; contradiction). lia.
Qed.

(** X4.  After any frame the pool holds no stale track: every track has
    missed fewer than 10 frames, every track has its identifier, and one
    state is reported per track. *)
Theorem pool_has_no_stale_track (s s' : Estimator.StateEstimator)
        (dets : list Estimator.Detection) (res : list Estimator.TrackState) :
  Estimator.update s dets = Ok (s', res) ->
  Forall (fun t => (Kalman.missed t < 10)%Z) (Estimator.tracks s') /\
  paired s' /\
  length res = length (Estimator.tracks s').
Proof.
  intros Hu. destruct (update_inv _ _ _ _ Hu) as (a & _ & -> & ->). cbv zeta.
  unfold paired. simpl. rewrite !length_map. repeat split.
  rewrite Forall_forall. intros t Ht. apply in_map_iff in Ht.
  destruct Ht as ([t0 i0] & <- & Hin). unfold Estimator.alive in Hin.
  apply filter_In in Hin. destruct Hin as [_ Hs]. simpl in *.
  unfold Kalman.stale, Kalman.max_missed in Hs.
  destruct (Z.leb_spec 10 (Kalman.missed t0)); [discriminate | lia].
Qed.

Lemma pool_has_no_stale_track_witness :
  Forall (fun t => (Kalman.missed t < 10)%Z)
         [Kalman.predict (Kalman.init 0 0); Kalman.init 20000 0].
Proof.
  exact (proj1 (pool_has_no_stale_track _ _ _ _ far_detection_frame)).
Defined.

(** X5.  A track that is matched in a frame ends the frame in the pool,
    under its identifier, with a missed count of 0: a matched track is never
    pruned. *)
Theorem matched_track_survives (s s' : Estimator.StateEstimator)
        (dets : list Estimator.Detection) (res : list Estimator.TrackState)
        (a : Estimator.Assoc) (i : nat) (tid : Z) :
  ids_fresh s ->
  Estimator.update s dets = Ok (s', res) ->
  association s dets = Ok a ->
  In (Z.of_nat i) (Estimator.matched_track_idx a) ->
  nth_error (Estimator.track_ids s) i = Some tid ->
  exists t', In (t', tid) (combine (Estimator.tracks s') (Estimator.track_ids s')) /\
             Kalman.missed t' = 0%Z.
Proof.
  intros Hf Hu Ha Hm Hid. pose proof Ha as Ha'. unfold association in Ha'.
  destruct (associate_facts _ _ _ _ _ Ha') as (_ & _ & _ & _ & Hzero & _).
  destruct (Hzero i Hm) as (t' & Ht' & Hmiss); [intros [] |].
  exists t'. split; [| exact Hmiss].
  destruct (update_track_fate _ _ _ _ _ _ _ _ Hf Hu Ha Ht' Hid) as [Hkeep _].
  apply Hkeep. unfold Kalman.stale. now rewrite Hmiss.
Qed.

Lemma matched_track_survives_witness :
  exists s' res t',
    Estimator.update (Estimator.mkEstimator [Kalman.init 0 0] 80 1 [0%Z])
                     [Estimator.mkDet 3 4 10 10] = Ok (s', res) /\
    In (t', 0%Z) (combine (Estimator.tracks s') (Estimator.track_ids s')) /\
    Kalman.missed t' = 0%Z.
Proof.
  destruct near_detection_association as (t1 & Ha & _).
  destruct (update_total (Estimator.mkEstimator [Kalman.init 0 0] 80 1 [0%Z])
                         [Estimator.mkDet 3 4 10 10]) as (s' & res & Eu & _).
  { repeat constructor; apply init_healthy. }
  assert (Hf : ids_fresh (Estimator.mkEstimator [Kalman.init 0 0] 80 1 [0%Z])).
  { split; simpl; repeat constructor. }
  destruct (matched_track_survives _ _ _ _ _ 0%nat 0%Z
              Hf Eu Ha (or_introl eq_refl) eq_refl) as (t' & Hin & Hm).
  exists s', res, t'. split; [exact Eu |]. split; [exact Hin | exact Hm].
Defined.

(** X6.  The association of a frame is a one-to-one matching: no track and
    no detection is matched twice, as many tracks as detections are
    matched, the matched indices are indices of the pool and of the
    detection list, and every detection is either matched or births a
    track, so that the identifier counter advances by the number of
    unmatched detections and the pool never grows by more than that. *)
Theorem association_is_one_to_one (s : Estimator.StateEstimator)
        (dets : list Estimator.Detection) (a : Estimator.Assoc) :
  association s dets = Ok a ->
  NoDup (Estimator.matched_track_idx a) /\
  NoDup (Estimator.matched_det_idx a) /\
  length (Estimator.matched_track_idx a) = length (Estimator.matched_det_idx a) /\
  (forall i, In i (Estimator.matched_track_idx a) ->
             (0 <= i < Z.of_nat (length (Estimator.tracks s)))%Z) /\
  (forall k, In k (Estimator.matched_det_idx a) ->
             (0 <= k < Z.of_nat (length dets))%Z) /\
  (length (unmatched (Estimator.matched_det_idx a) 0 dets)
   + length (Estimator.matched_det_idx a) = length dets)%nat /\
  (forall s' res,
      Estimator.update s dets = Ok (s', res) ->
      Estimator.next_id s'
      = (Estimator.next_id s
         + Z.of_nat (length dets - length (Estimator.matched_det_idx a)))%Z /\
      (length (Estimator.tracks s')
       <= length (Estimator.tracks s)
          + (length dets - length (Estimator.matched_det_idx a)))%nat).
Proof.
  intros Ha. pose proof Ha as Ha'. unfold association in Ha'.
  destruct (associate_facts _ _ _ _ _ Ha') as (Hlen & Hnd & _).
  assert (H0 : forall k : Z, In k [] -> (k < 0)%Z) by (intros k []).
  destruct (associate_counts _ _ _ _ _ Ha' H0 (NoDup_nil _)) as (Hndd & Hin & Hcnt & Hmt).
  simpl in Hlen, Hnd, Hin, Hcnt, Hmt.
  rewrite length_map in Hlen, Hmt.
  assert (Hrange : forall k, In k (Estimator.matched_det_idx a) ->
                             (0 <= k < Z.of_nat (length dets))%Z).
  { intros k Hk. destruct (Hin k Hk) as [[] | ?]. lia. }
  assert (Hun := unmatched_count dets 0 (Estimator.matched_det_idx a) Hndd Hrange).
  split; [apply Hnd; constructor |]. split; [exact Hndd |]. split; [lia |].
  split; [intros i Hi; destruct (Hmt i Hi) as [[] | ?]; assumption |].
  split; [exact Hrange |]. split; [exact Hun |].
  intros s' res Hu. destruct (update_inv _ _ _ _ Hu) as (a' & Ea & -> & _).
  rewrite Ha in Ea. injection Ea as <-. cbv zeta. simpl.
  split; [f_equal; lia |].
  rewrite length_map. unfold Estimator.alive.
  etransitivity; [apply filter_length_le |].
  rewrite length_combine, length_app, length_map, Hlen.
  etransitivity; [apply Nat.le_min_l |]. lia.
Qed.

Lemma association_is_one_to_one_witness :
  exists a,
    association (Estimator.mkEstimator [Kalman.init 0 0] 80 1 [0%Z])
                [Estimator.mkDet 3 4 10 10] = Ok a /\
    length (Estimator.matched_track_idx a) = length (Estimator.matched_det_idx a) /\
    (length (unmatched (Estimator.matched_det_idx a) 0 [Estimator.mkDet 3 4 10 10])
     + length (Estimator.matched_det_idx a) = 1)%nat.
Proof.
  destruct near_detection_association as (t1 & Ha & _).
  eexists. split; [exact Ha |].
  destruct (association_is_one_to_one _ _ _ Ha) as (_ & _ & Hl & _ & _ & Hc & _).
  split; [exact Hl | exact Hc].
Defined.

(** X7.  Every track that stays in the pool through a frame is one frame
    older at its end, matched or not; a track born in the frame starts with
    age 0 and a missed count of 0. *)
Theorem surviving_track_ages_by_one (s s' : Estimator.StateEstimator)
        (dets : list Estimator.Detection) (res : list Estimator.TrackState)
        (i : nat) (t : Kalman.ObjectKalman) (tid : Z) :
  ids_fresh s ->
  Estimator.update s dets = Ok (s', res) ->
  nth_error (Estimator.tracks s) i = Some t ->
  nth_error (Estimator.track_ids s) i = Some tid ->
  In tid (Estimator.track_ids s') ->
  (exists t', In (t', tid) (combine (Estimator.tracks s') (Estimator.track_ids s')) /\
              Kalman.age t' = (Kalman.age t + 1)%Z) /\
  (forall d, Kalman.age (born d) = 0%Z /\ Kalman.missed (born d) = 0%Z).
Proof.
  intros Hf Hu Ht Hid Hin. split; [| intros d; split; reflexivity].
  destruct (update_inv _ _ _ _ Hu) as (a & Ha & _).
  pose proof Ha as Ha'. unfold association in Ha'.
  pose proof (associate_ages _ _ _ _ _ Ha') as Hages. simpl in Hages.
  rewrite map_map in Hages.
  assert (Hage : nth_error (map Kalman.age (Estimator.a_tracks a)) i
                 = Some (Kalman.age t + 1)%Z).
  { rewrite Hages, nth_error_map, Ht. reflexivity. }
  rewrite nth_error_map in Hage.
  destruct (nth_error (Estimator.a_tracks a) i) as [t' |] eqn:Et'; [| discriminate].
  injection Hage as Hage. exists t'. split; [| exact Hage].
  destruct (update_track_fate _ _ _ _ _ _ _ _ Hf Hu Ha Et' Hid) as [Hkeep Hdrop].
  destruct (Kalman.stale t'); [exfalso; now apply Hdrop | now apply Hkeep].
Qed.

Lemma surviving_track_ages_by_one_witness :
  exists t',
    In (t', 0%Z) (combine [Kalman.predict (Kalman.init 0 0); Kalman.init 20000 0]
                          [0%Z; 1%Z]) /\
    Kalman.age t' = (0 + 1)%Z.
Proof.
  assert (Hf : ids_fresh (Estimator.mkEstimator [Kalman.init 0 0] 80 1 [0%Z])).
  { split; simpl; repeat constructor. }
  destruct (surviving_track_ages_by_one _ _ _ _ 0%nat (Kalman.init 0 0) 0%Z
              Hf far_detection_frame eq_refl eq_refl (or_introl eq_refl))
    as [H _].
  exact H.
Defined.

(** X8.  A frame without detections never fails: it births nothing, leaves
    the identifier counter and the threshold unchanged, keeps only
    identifiers that were in the pool, and every track it keeps is the
    prediction of a track of the pool; on an empty pool it changes
    nothing. *)
Theorem quiet_frame (s : Estimator.StateEstimator) :
  exists s' res,
    Estimator.update s [] = Ok (s', res) /\
    Estimator.next_id s' = Estimator.next_id s /\
    Estimator.max_distance s' = Estimator.max_distance s /\
    (forall tid, In tid (Estimator.track_ids s') -> In tid (Estimator.track_ids s)) /\
    Forall (fun t' => exists t, In t (Estimator.tracks s) /\ t' = Kalman.predict t)
           (Estimator.tracks s') /\
    Forall (fun r => (Estimator.s_w r, Estimator.s_h r) = (40%Z, 40%Z)) res /\
    (Estimator.tracks s = [] ->
     Estimator.tracks s' = [] /\ Estimator.track_ids s' = [] /\ res = []).
Proof.
  rewrite update_quiet. cbv zeta. do 2 eexists. split; [reflexivity |].
  simpl. split; [reflexivity |]. split; [reflexivity |].
  split; [intros tid; apply alive_ids_in |].
  split.
  { rewrite Forall_forall. intros t' Ht'. apply in_map_iff in Ht'.
    destruct Ht' as ([t0 i0] & <- & Hin). unfold Estimator.alive in Hin.
    apply filter_In in Hin. destruct Hin as [Hin _]. apply in_combine_l in Hin.
    apply in_map_iff in Hin. destruct Hin as (t & <- & Ht). now exists t. }
  split.
  { rewrite Forall_forall. intros r Hr. apply in_map_iff in Hr.
    destruct Hr as ([t0 i0] & <- & _).
    exact (proj2 (proj2 (proj2 (report_fields [] t0 i0)))). }
  intros ->. repeat split.
Qed.

(** ** Collision events *)

Lemma dist_to_center_nonneg (m : Safety.SafetyMonitor) (p : R * R) :
  0 <= dist_to_center m p.
Proof. apply hypot_nonneg. Qed.

(** X9.  An event is only ever reported by a monitor of positive radius;
    it carries the track's identifier and a frame between 1 and the length
    of the forecast; its severity is exactly 1 - distance/radius of the
    reported point (the clamp at 0 is never active), lies in (0, 1], and is
    1 exactly when the point is at the zone centre. *)
Theorem event_is_well_formed (m : Safety.SafetyMonitor) (tid : Z)
        (pts : list (R * R)) (ev : Safety.CollisionEvent) :
  Safety.check_track m tid pts = Some ev ->
  0 < Safety.radius m /\
  Safety.track_id ev = tid /\
  (1 <= Safety.impact_frame ev <= Z.of_nat (length pts))%Z /\
  0 < Safety.severity ev <= 1 /\
  exists p,
    nth_error pts (Z.to_nat (Safety.impact_frame ev - 1)) = Some p /\
    Safety.severity ev = 1 - dist_to_center m p / Safety.radius m /\
    (Safety.severity ev = 1 <-> dist_to_center m p = 0).
Proof.
  intros Hc. pose proof (scan_spec m tid pts 0) as Hs.
  unfold Safety.check_track in Hc. change (Z.of_nat 0) with 0%Z in Hs. rewrite Hc in Hs.
  destruct Hs as (i & p & Hn & Hin & _ & ->). unfold inside in Hin.
  pose proof (dist_to_center_nonneg m p) as H0.
  assert (Hr : 0 < Safety.radius m) by lra.
  assert (Hi : (i < length pts)%nat) by (apply nth_error_Some; now rewrite Hn).
  assert (Hq : 0 <= dist_to_center m p / Safety.radius m < 1).
  { split.
    - apply Rmult_le_pos; [exact H0 |]. left. now apply Rinv_0_lt_compat.
    - apply (Rmult_lt_reg_r (Safety.radius m)); [exact Hr |].
      unfold Rdiv. rewrite Rmult_assoc, Rinv_l by lra. lra. }
  assert (Hsev : Rmax 0 (1 - dist_to_center m p / Safety.radius m)
                 = 1 - dist_to_center m p / Safety.radius m)
    by (apply Rmax_right; lra).
  unfold event_at. cbn [Safety.track_id Safety.impact_frame Safety.severity]. simpl Nat.add.
  rewrite Hsev.
  split; [exact Hr |]. split; [reflexivity |]. split; [lia |]. split; [lra |].
  exists p. replace (Z.to_nat (Z.of_nat i + 1 - 1)) with i by lia.
  split; [exact Hn |]. split; [reflexivity |].
  split.
  - intros E. assert (Hz : dist_to_center m p / Safety.radius m = 0) by lra.
    unfold Rdiv in Hz. apply Rmult_integral in Hz. destruct Hz as [Hz | Hz]; [exact Hz |].
    exfalso. apply (Rinv_neq_0_compat (Safety.radius m)); [lra | exact Hz].
  - intros ->. unfold Rdiv. ring.
Qed.

(** A forecast whose second point lies in the zone of centre (320,240) and
    radius 120. *)
Lemma second_point_hit :
  exists sev,
    Safety.check_track (Safety.mkMonitor (320, 240) 120) 5 [(100, 240); (300, 240)]
    = Some (Safety.mkEvent 5 2 (300%Z, 240%Z) sev).
Proof.
  unfold Safety.check_track. cbn [Safety.scan Safety.zone_center Safety.radius].
  rewrite (proj2 (Rltb_false _ _)) by (rewrite hypot_lt; lra).
  rewrite (proj2 (Rltb_true _ _)) by (rewrite hypot_lt; lra).
  rewrite (py_int_IZR 300), (py_int_IZR 240). eexists. reflexivity.
Qed.

Lemma event_is_well_formed_witness :
  exists sev,
    Safety.check_track (Safety.mkMonitor (320, 240) 120) 5 [(100, 240); (300, 240)]
    = Some (Safety.mkEvent 5 2 (300%Z, 240%Z) sev) /\
    0 < sev <= 1.
Proof.
  destruct second_point_hit as (sev & Hc).
  exists sev. split; [exact Hc |].
  exact (proj1 (proj2 (proj2 (proj2 (event_is_well_formed _ _ _ _ Hc))))).
Defined.

Lemma scan_shift (m : Safety.SafetyMonitor) (tid : Z) (n : nat) (pts : list (R * R)) :
  forall i, Safety.scan m tid (i + Z.of_nat n) pts
            = option_map (delay n) (Safety.scan m tid i pts).
Proof.
  induction pts as [| [fx fy] rest IH]; intros i; simpl; [reflexivity |].
  destruct (Safety.zone_center m) as [cx cy].
  destruct (Rltb _ _).
  - simpl. unfold delay. simpl. do 2 f_equal. lia.
  - rewrite <- IH. f_equal. lia.
Qed.

Lemma scan_outside_prefix (m : Safety.SafetyMonitor) (tid : Z) (pts1 pts2 : list (R * R)) :
  Forall (fun q => ~ inside m q) pts1 ->
  forall i, Safety.scan m tid i (pts1 ++ pts2)
            = Safety.scan m tid (i + Z.of_nat (length pts1)) pts2.
Proof.
  induction 1 as [| [fx fy] rest Hq _ IH]; intros i; simpl.
  - f_equal. lia.
  - unfold inside, dist_to_center in Hq. simpl in Hq.
    destruct (Safety.zone_center m) as [cx cy]. simpl in Hq.
    rewrite (proj2 (Rltb_false _ _) Hq), IH. f_equal. lia.
Qed.

Lemma scan_extend (m : Safety.SafetyMonitor) (tid : Z) (pts more : list (R * R)) :
  forall i ev, Safety.scan m tid i pts = Some ev ->
               Safety.scan m tid i (pts ++ more) = Some ev.
Proof.
  induction pts as [| [fx fy] rest IH]; intros i ev; simpl; [discriminate |].
  destruct (Safety.zone_center m) as [cx cy].
  destruct (Rltb _ _); [trivial | apply IH].
Qed.

(** X10.  Forecast points outside the zone only delay an event: a forecast
    that starts with [n] points outside the zone gives the event of the
    rest of the forecast, [n] frames later; and points appended after a
    forecast never change an event that it already gives. *)
Theorem check_track_composes (m : Safety.SafetyMonitor) (tid : Z)
        (pts1 pts2 : list (R * R)) :
  (Forall (fun q => ~ inside m q) pts1 ->
   Safety.check_track m tid (pts1 ++ pts2)
   = option_map (delay (length pts1)) (Safety.check_track m tid pts2)) /\
  (forall ev, Safety.check_track m tid pts1 = Some ev ->
              Safety.check_track m tid (pts1 ++ pts2) = Some ev).
Proof.
  unfold Safety.check_track. split.
  - intros Hout. rewrite (scan_outside_prefix m tid pts1 pts2 Hout).
    apply scan_shift.
  - intros ev. apply scan_extend.
Qed.

Lemma check_track_composes_witness :
  Safety.check_track (Safety.mkMonitor (320, 240) 120) 5 ([(100, 240)] ++ [(300, 240)])
  = option_map (delay 1)
      (Safety.check_track (Safety.mkMonitor (320, 240) 120) 5 [(300, 240)]).
Proof.
  apply (proj1 (check_track_composes (Safety.mkMonitor (320, 240) 120) 5
                                     [(100, 240)] [(300, 240)])).
  repeat constructor. unfold inside, dist_to_center. simpl.
  rewrite hypot_lt. lra.
Defined.

(** X11.  Enlarging the zone never makes a threat later: for two monitors
    with the same centre, if the smaller zone gives an event for a forecast
    then the larger zone gives one too, at the same frame or sooner. *)
Theorem larger_zone_is_not_later (m1 m2 : Safety.SafetyMonitor) (tid : Z)
        (pts : list (R * R)) (ev1 : Safety.CollisionEvent) :
  Safety.zone_center m1 = Safety.zone_center m2 ->
  Safety.radius m1 <= Safety.radius m2 ->
  Safety.check_track m1 tid pts = Some ev1 ->
  exists ev2, Safety.check_track m2 tid pts = Some ev2 /\
              (Safety.impact_frame ev2 <= Safety.impact_frame ev1)%Z.
Proof.
  intros Hc Hr H1.
  pose proof (scan_spec m1 tid pts 0) as S1. pose proof (scan_spec m2 tid pts 0) as S2.
  unfold Safety.check_track in *. change (Z.of_nat 0) with 0%Z in S1, S2.
  rewrite H1 in S1. destruct S1 as (i & p & Hn & Hin & _ & ->).
  assert (Hin2 : inside m2 p).
  { unfold inside, dist_to_center in *. rewrite <- Hc. lra. }
  destruct (Safety.scan m2 tid 0 pts) as [ev2 |].
  - exists ev2. split; [reflexivity |].
    destruct S2 as (j & q & Hnj & _ & Hbefore & ->).
    unfold event_at. simpl.
    destruct (Nat.le_gt_cases j i) as [Hle | Hgt]; [lia |].
    exfalso. exact (Hbefore i p Hgt Hn Hin2).
  - exfalso. rewrite Forall_forall in S2. apply (S2 p); [| exact Hin2].
    eapply nth_error_In. exact Hn.
Qed.

Lemma larger_zone_is_not_later_witness :
  exists ev2,
    Safety.check_track (Safety.mkMonitor (320, 240) 200) 5 [(100, 240); (300, 240)]
    = Some ev2 /\
    (Safety.impact_frame ev2 <= 2)%Z.
Proof.
  destruct second_point_hit as (sev & Hc).
  apply (larger_zone_is_not_later (Safety.mkMonitor (320, 240) 120)
           (Safety.mkMonitor (320, 240) 200) 5 _ _ eq_refl) in Hc.
  - exact Hc.
  - simpl. lra.
Defined.

Lemma collect_in (m : Safety.SafetyMonitor) (tracks : list (Z * list (R * R)))
      (ev : Safety.CollisionEvent) :
  In ev (Safety.collect m tracks) <->
  exists tid pts, In (tid, pts) tracks /\ Safety.check_track m tid pts = Some ev.
Proof.
  induction tracks as [| [tid pts] rest IH]; simpl.
  - split; [intros [] | intros (? & ? & [] & _)].
  - destruct (Safety.check_track m tid pts) as [e |] eqn:E; simpl; rewrite IH; split.
    + intros [<- | (t & p & Hin & Hc)].
      * exists tid, pts. split; [now left | exact E].
      * exists t, p. split; [now right | exact Hc].
    + intros (t & p & [Heq | Hin] & Hc).
      * injection Heq as <- <-. left. congruence.
      * right. now exists t, p.
    + intros (t & p & Hin & Hc). exists t, p. split; [now right | exact Hc].
    + intros (t & p & [Heq | Hin] & Hc).
      * injection Heq as <- <-. congruence.
      * now exists t, p.
Qed.

Lemma collect_length (m : Safety.SafetyMonitor) (tracks : list (Z * list (R * R))) :
  (length (Safety.collect m tracks) <= length tracks)%nat.
Proof.
  induction tracks as [| [tid pts] rest IH]; simpl; [lia |].
  destruct (Safety.check_track m tid pts); simpl; lia.
Qed.

Lemma check_all_in (m : Safety.SafetyMonitor) (tracks : list (Z * list (R * R)))
      (ev : Safety.CollisionEvent) :
  In ev (Safety.check_all m tracks) <-> In ev (Safety.collect m tracks).
Proof.
  unfold Safety.check_all. split; apply Permutation_in;
    [| apply Permutation_sym]; apply sort_by_perm.
Qed.

(** X12.  The events of a frame are exactly the events of its tracks, at
    most one per track; the first of them, the one the status banner
    announces, is a soonest one; and a frame without any event is a frame in
    which no track's forecast enters the zone. *)
Theorem check_all_ranks_events (m : Safety.SafetyMonitor)
        (tracks : list (Z * list (R * R))) :
  (forall ev, In ev (Safety.check_all m tracks) <->
              exists tid pts, In (tid, pts) tracks /\
                              Safety.check_track m tid pts = Some ev) /\
  (length (Safety.check_all m tracks) <= length tracks)%nat /\
  (forall e, Display.soonest (Safety.check_all m tracks) = Some e ->
             forall e', In e' (Safety.check_all m tracks) ->
                        (Safety.impact_frame e <= Safety.impact_frame e')%Z) /\
  (Display.soonest (Safety.check_all m tracks) = None <->
   forall tid pts, In (tid, pts) tracks -> Safety.check_track m tid pts = None).
Proof.
  split; [| split; [| split]].
  - intros ev. now rewrite check_all_in, collect_in.
  - unfold Safety.check_all.
    rewrite (Permutation_length (sort_by_perm Safety.impact_frame _)).
    apply collect_length.
  - intros e He e' Hin.
    pose proof (sort_by_sorted Safety.impact_frame (Safety.collect m tracks)) as Hs.
    unfold Safety.check_all, Display.soonest in *.
    destruct (sort_by Safety.impact_frame (Safety.collect m tracks)) as [| e0 r];
      [discriminate |].
    injection He as ->. inversion Hs as [| ? ? _ Hall]; subst.
    destruct Hin as [<- | Hin]; [lia |].
    rewrite Forall_forall in Hall. now apply Hall.
  - unfold Display.soonest. split.
    + intros Hn tid pts Hin.
      destruct (Safety.check_track m tid pts) as [ev |] eqn:E; [| reflexivity].
      assert (Hev : In ev (Safety.check_all m tracks)).
      { apply check_all_in, collect_in. now exists tid, pts. }
      destruct (Safety.check_all m tracks); [contradiction | discriminate].
    + intros Hnone.
      destruct (Safety.check_all m tracks) as [| e r] eqn:E; [reflexivity |].
      assert (Hev : In e (Safety.check_all m tracks)) by (rewrite E; now left).
      apply check_all_in, collect_in in Hev. destruct Hev as (tid & pts & Hin & Hc).
      rewrite (Hnone tid pts Hin) in Hc. discriminate.
Qed.

Lemma check_all_ranks_events_witness :
  Display.soonest (Safety.check_all (Safety.mkMonitor (320, 240) 0)
                                    [(1%Z, [(320, 240)])]) = None.
Proof.
  apply (proj2 (proj2 (proj2 (check_all_ranks_events
           (Safety.mkMonitor (320, 240) 0) [(1%Z, [(320, 240)])])))).
  intros tid pts _. apply scan_nonpositive_radius. simpl. lra.
Defined.

Lemma collect_ids (m : Safety.SafetyMonitor) (tracks : list (Z * list (R * R))) (i : Z) :
  In i (map Safety.track_id (Safety.collect m tracks)) -> In i (map fst tracks).
Proof.
  intros Hin. apply in_map_iff in Hin. destruct Hin as (ev & <- & Hev).
  apply collect_in in Hev. destruct Hev as (tid & pts & Hin & Hc).
  pose proof (scan_spec m tid pts 0) as Hs. unfold Safety.check_track in Hc.
  change (Z.of_nat 0) with 0%Z in Hs. rewrite Hc in Hs.
  destruct Hs as (j & p & _ & _ & _ & ->). simpl.
  apply in_map_iff. now exists (tid, pts).
Qed.

(** X13.  When the tracks have distinct identifiers, as the keys of the
    forecast map do, no two events of a frame concern the same track. *)
Theorem one_event_per_track (m : Safety.SafetyMonitor)
        (tracks : list (Z * list (R * R))) :
  NoDup (map fst tracks) ->
  NoDup (map Safety.track_id (Safety.check_all m tracks)).
Proof.
  intros Hnd.
  apply (Permutation_NoDup
           (Permutation_sym (Permutation_map Safety.track_id
                               (sort_by_perm Safety.impact_frame (Safety.collect m tracks))))).
  induction tracks as [| [tid pts] rest IH]; simpl; [constructor |].
  inversion Hnd as [| ? ? Hnot Hnd']; subst.
  destruct (Safety.check_track m tid pts) as [ev |] eqn:E; [| now apply IH].
  simpl. constructor; [| now apply IH].
  intros Hin. apply collect_ids in Hin.
  pose proof (scan_spec m tid pts 0) as Hs. unfold Safety.check_track in E.
  change (Z.of_nat 0) with 0%Z in Hs. rewrite E in Hs.
  destruct Hs as (j & p & _ & _ & _ & ->). simpl in Hin. contradiction.
Qed.

Lemma one_event_per_track_witness :
  NoDup (map Safety.track_id
             (Safety.check_all (Safety.mkMonitor (320, 240) 120)
                               [(1%Z, [(320, 240)]); (2%Z, [(0, 0)])])).
Proof.
  apply one_event_per_track. simpl. repeat constructor; simpl; intuition lia.
Defined.

(** ** The velocity history and the forecast *)

Lemma feed_lastn (maxlen : Z) (vs : list R) :
  (0 <= maxlen)%Z ->
  forall d, (Z.of_nat (length d) <= maxlen)%Z ->
            feed maxlen d vs = lastn (Z.to_nat maxlen) (d ++ vs).
Proof.
  intros H0. induction vs as [| v vs IH]; intros d Hd.
  - simpl. rewrite app_nil_r. symmetry. apply lastn_all. lia.
  - unfold feed in *. simpl. rewrite IH by now apply deque_append_bounded.
    rewrite deque_append_lastn by assumption.
    rewrite lastn_app_lastn, <- app_assoc. reflexivity.
Qed.

Lemma follow_history (obs : list (R * R * R * R)) :
  forall p,
    Predictor.vx_hist (follow p obs)
    = feed (Predictor.history_len p) (Predictor.vx_hist p)
           (map (fun o => snd (fst o)) obs) /\
    Predictor.vy_hist (follow p obs)
    = feed (Predictor.history_len p) (Predictor.vy_hist p) (map snd obs) /\
    Predictor.history_len (follow p obs) = Predictor.history_len p /\
    Predictor.horizon (follow p obs) = Predictor.horizon p.
Proof.
  induction obs as [| [[[cx cy] vx] vy] rest IH]; intros p.
  - repeat split.
  - unfold follow in *. simpl fold_left.
    destruct (IH (fst (Predictor.update_and_predict p cx cy vx vy))) as (Hx & Hy & Hl & Hh).
    rewrite Hx, Hy, Hl, Hh. unfold Predictor.update_and_predict.
    destruct (_ <? 2)%Z; simpl; repeat split.
Qed.

(** X14.  The velocity history is a sliding window: after any run of
    frames, a forecaster built with history length [n] holds the velocity
    samples of the last [n] frames (all of them while there are fewer), in
    order, oldest first. *)
Theorem history_is_a_sliding_window (history_len horizon : Z)
        (p : Predictor.TrajectoryPredictor) (obs : list (R * R * R * R)) :
  Predictor.init history_len horizon = Ok p ->
  Predictor.vx_hist (follow p obs)
  = lastn (Z.to_nat history_len) (map (fun o => snd (fst o)) obs) /\
  Predictor.vy_hist (follow p obs)
  = lastn (Z.to_nat history_len) (map snd obs) /\
  length (Predictor.vx_hist (follow p obs))
  = Nat.min (length obs) (Z.to_nat history_len).
Proof.
  unfold Predictor.init. destruct (Z.ltb_spec history_len 0); [discriminate |].
  intros E. injection E as <-.
  destruct (follow_history obs (Predictor.mkPredictor horizon history_len [] []))
    as (Hx & Hy & _). simpl in Hx, Hy.
  rewrite Hx, Hy, !feed_lastn by (simpl; lia). simpl app.
  repeat split. now rewrite lastn_length, length_map.
Qed.

Lemma history_is_a_sliding_window_witness :
  Predictor.vx_hist (follow (Predictor.mkPredictor 40 2 [] [])
                            [(0, 0, 1, 5); (0, 0, 2, 6); (0, 0, 3, 7)])
  = lastn 2 [1; 2; 3].
Proof.
  exact (proj1 (history_is_a_sliding_window 2 40 _ [(0, 0, 1, 5); (0, 0, 2, 6); (0, 0, 3, 7)]
                                            eq_refl)).
Defined.

Lemma np_diff_sum (a : R) (h : list R) :
  Predictor.np_sum (Predictor.np_diff (a :: h)) = last (a :: h) 0 - a.
Proof.
  revert a. induction h as [| b r IH]; intros a.
  - simpl. unfold Predictor.np_sum. simpl. ring.
  - change (Predictor.np_diff (a :: b :: r)) with ((b - a) :: Predictor.np_diff (b :: r)).
    change (Predictor.np_sum ((b - a) :: Predictor.np_diff (b :: r)))
      with (b - a + Predictor.np_sum (Predictor.np_diff (b :: r))).
    rewrite IH. change (last (a :: b :: r) 0) with (last (b :: r) 0). ring.
Qed.

(** X15.  The acceleration estimate only depends on the oldest and the
    newest sample of the window: the mean of the consecutive differences of
    a history of at least 2 samples is (newest - oldest) / (samples - 1),
    and the acceleration used is that value clamped to [-2, 2]. *)
Theorem acceleration_telescopes (h : list R) :
  (2 <= length h)%nat ->
  Predictor.np_mean (Predictor.np_diff h)
  = (last h 0 - hd 0 h) / INR (length h - 1) /\
  Predictor.np_clip (Predictor.np_mean (Predictor.np_diff h))
                    (- Predictor.MAX_A) Predictor.MAX_A
  = clamp2 ((last h 0 - hd 0 h) / INR (length h - 1)).
Proof.
  intros Hlen. destruct h as [| a r]; [simpl in Hlen; lia |].
  assert (E : Predictor.np_mean (Predictor.np_diff (a :: r))
              = (last (a :: r) 0 - hd 0 (a :: r)) / INR (length (a :: r) - 1)).
  { unfold Predictor.np_mean. now rewrite np_diff_sum, np_diff_length. }
  split; [exact E |]. now rewrite np_clip_clamp2, E.
Qed.

Lemma acceleration_telescopes_witness :
  Predictor.np_mean (Predictor.np_diff [1; 4; 2; 7])
  = (last [1; 4; 2; 7] 0 - hd 0 [1; 4; 2; 7]) / INR (length [1; 4; 2; 7] - 1).
Proof.
  apply (proj1 (acceleration_telescopes [1; 4; 2; 7] (le_S _ _ (le_S _ _ (le_n 2))))).
Defined.

Lemma clamp2_between (a : R) : -2 <= clamp2 a <= 2.
Proof. unfold clamp2. destruct (Rlt_dec a (-2)), (Rlt_dec 2 a); lra. Qed.

(** X16.  Whatever the history, the forecast for frame [t] is within [t^2]
    of the constant-velocity point on each axis: the clamp bounds how far
    the quadratic model can bend the trajectory. *)
Theorem forecast_stays_near_linear (p : Predictor.TrajectoryPredictor)
        (cx cy vx vy : R) (t : Z) :
  (1 <= t <= Predictor.horizon p)%Z ->
  exists x y,
    nth_error (snd (Predictor.update_and_predict p cx cy vx vy)) (Z.to_nat (t - 1))
    = Some (x, y) /\
    Rabs (x - (cx + vx * IZR t)) <= IZR t * IZR t /\
    Rabs (y - (cy + vy * IZR t)) <= IZR t * IZR t.
Proof.
  intros Ht. rewrite update_and_predict_points. cbv zeta.
  assert (Hsq : 0 <= IZR t * IZR t) by nra.
  destruct (_ <? 2)%nat; rewrite nth_error_map, frames_ahead_nth by exact Ht; simpl.
  - do 2 eexists. split; [reflexivity |].
    split; (match goal with |- Rabs ?e <= _ => replace e with 0 by ring end;
            rewrite Rabs_R0; exact Hsq).
  - do 2 eexists. split; [reflexivity |].
    set (ax := clamp2 _). set (ay := clamp2 (mean_of_differences
      (Predictor.deque_append (Predictor.history_len p) (Predictor.vy_hist p) vy))).
    pose proof (clamp2_between (mean_of_differences
      (Predictor.deque_append (Predictor.history_len p) (Predictor.vx_hist p) vx))) as Hx.
    pose proof (clamp2_between (mean_of_differences
      (Predictor.deque_append (Predictor.history_len p) (Predictor.vy_hist p) vy))) as Hy.
    fold ax in Hx. fold ay in Hy.
    split; apply Rabs_le; split; nra.
Qed.

Lemma forecast_stays_near_linear_witness :
  exists x y,
    nth_error (snd (Predictor.update_and_predict
                      (Predictor.mkPredictor 40 8 [1; 9] [0; 0]) 100 240 3 0)) 4
    = Some (x, y) /\
    Rabs (x - (100 + 3 * 5)) <= 5 * 5.
Proof.
  destruct (forecast_stays_near_linear (Predictor.mkPredictor 40 8 [1; 9] [0; 0])
              100 240 3 0 5) as (x & y & Hn & Hx & _).
  - simpl. lia.
  - exists x, y. split; [exact Hn | exact Hx].
Defined.

(** X17.  The quadratic model needs two samples in the window: a forecaster
    fresh from its constructor, and any forecaster built with a history
    length of 0 or 1, forecasts with the linear model. *)
Theorem too_short_history_is_linear :
  (forall history_len horizon p cx cy vx vy,
      Predictor.init history_len horizon = Ok p ->
      snd (Predictor.update_and_predict p cx cy vx vy)
      = Predictor.predict_linear cx cy vx vy horizon) /\
  (forall history_len horizon p obs cx cy vx vy,
      (history_len <= 1)%Z ->
      Predictor.init history_len horizon = Ok p ->
      snd (Predictor.update_and_predict (follow p obs) cx cy vx vy)
      = Predictor.predict_linear cx cy vx vy horizon).
Proof.
  split.
  - intros hl h p cx cy vx vy. unfold Predictor.init.
    destruct (Z.ltb_spec hl 0); [discriminate |]. intros E. injection E as <-.
    unfold Predictor.update_and_predict, Predictor.deque_append. simpl.
    destruct (hl =? 0)%Z; [reflexivity |].
    destruct (0 <? hl)%Z; reflexivity.
  - intros hl h p obs cx cy vx vy Hle Hi.
    unfold Predictor.init in Hi. destruct (Z.ltb_spec hl 0); [discriminate |].
    injection Hi as <-.
    destruct (follow_history obs (Predictor.mkPredictor h hl [] [])) as (Hx & _ & Hl & Hh).
    simpl in Hx, Hl, Hh.
    assert (Hlen : length (Predictor.vx_hist (follow (Predictor.mkPredictor h hl [] []) obs))
                   = Nat.min (length obs) (Z.to_nat hl)).
    { rewrite Hx, feed_lastn by (simpl; lia). simpl app.
      now rewrite lastn_length, length_map. }
    set (q := follow (Predictor.mkPredictor h hl [] []) obs) in *.
    pose proof (deque_append_bounded (Predictor.history_len q) (Predictor.vx_hist q) vx)
      as Hb.
    rewrite Hl in Hb. specialize (Hb ltac:(lia) ltac:(lia)).
    unfold Predictor.update_and_predict. rewrite Hl in *. rewrite Hh.
    destruct (Z.ltb_spec (Z.of_nat (length (Predictor.deque_append hl (Predictor.vx_hist q) vx))) 2);
      [reflexivity | lia].
Qed.

Lemma too_short_history_is_linear_witness :
  snd (Predictor.update_and_predict
         (follow (Predictor.mkPredictor 40 1 [] []) [(0, 0, 1, 5); (0, 0, 2, 6)])
         100 240 3 0)
  = Predictor.predict_linear 100 240 3 0 40.
Proof.
  apply (proj2 too_short_history_is_linear 1%Z 40%Z); [lia | reflexivity].
Defined.

(** ** Forecasters and forecasts of a frame *)

Lemma dict_set_Z_keys {V : Type} (k k0 : Z) (v : V) (d : list (Z * V)) :
  In k (map fst (dict_set Z.eqb k0 v d)) <-> In k (map fst d) \/ k = k0.
Proof.
  induction d as [| [k' v'] r IH]; simpl.
  - intuition.
  - destruct (Z.eqb_spec k0 k'); simpl.
    + subst k'. intuition.
    + rewrite IH. intuition.
Qed.

Lemma dict_set_new {V : Type} (k0 : Z) (v : V) (d : list (Z * V)) :
  ~ In k0 (map fst d) -> dict_set Z.eqb k0 v d = d ++ [(k0, v)].
Proof.
  induction d as [| [k' v'] r IH]; simpl; intros Hn; [reflexivity |].
  destruct (Z.eqb_spec k0 k'); [exfalso; apply Hn; now left |].
  f_equal. apply IH. intros Hin. apply Hn. now right.
Qed.

Lemma forecast_keys (sts : list Estimator.TrackState) :
  forall preds futures preds' futures',
    Pipeline.forecast sts (preds, futures) = Ok (preds', futures') ->
    (forall k, In k (map fst preds') <->
               In k (map fst preds) \/ In k (map Estimator.s_id sts)) /\
    (NoDup (map Estimator.s_id sts) ->
     (forall k, In k (map Estimator.s_id sts) -> ~ In k (map fst futures)) ->
     map fst futures' = map fst futures ++ map Estimator.s_id sts).
Proof.
  induction sts as [| st rest IH]; intros preds futures preds' futures' Hf; simpl in Hf.
  - injection Hf as <- <-. split; [simpl; intuition |].
    intros _ _. simpl. now rewrite app_nil_r.
  - destruct (match dict_get Z.eqb (Estimator.s_id st) preds with
              | Some p0 => Ok p0
              | None => Predictor.init 8 Pipeline.HORIZON
              end) as [p |]; simpl in Hf; [| discriminate].
    destruct (Predictor.update_and_predict p _ _ _ _) as [p1 future].
    destruct (IH _ _ _ _ Hf) as [Hk Ho]. split.
    + intros k. rewrite Hk, dict_set_Z_keys. simpl. intuition.
    + intros Hnd Hdis. inversion Hnd as [| ? ? Hnot Hnd']; subst.
      rewrite Ho.
      * rewrite dict_set_new by (apply Hdis; now left).
        rewrite map_app, <- app_assoc. reflexivity.
      * exact Hnd'.
      * intros k Hk' Hin. apply dict_set_Z_keys in Hin. destruct Hin as [Hin | ->].
        -- apply (Hdis k); [now right | exact Hin].
        -- contradiction.
Qed.

(** X18.  After every frame the forecasters are those of the live tracks,
    no more and no fewer, and the safety check receives exactly one forecast
    per live track, in the order of the pool. *)
Theorem forecasters_follow_tracks (pl pl' : Pipeline.Pipeline)
        (dets : list Estimator.Detection) (out : Pipeline.FrameOutput) :
  ids_fresh (Pipeline.estimator pl) ->
  Pipeline.frame pl dets = Ok (pl', out) ->
  map Estimator.s_id (Pipeline.states out)
  = Estimator.track_ids (Pipeline.estimator pl') /\
  map fst (Pipeline.track_futures out)
  = Estimator.track_ids (Pipeline.estimator pl') /\
  (forall k, In k (map fst (Pipeline.predictors pl')) <->
             In k (Estimator.track_ids (Pipeline.estimator pl'))).
Proof.
  intros Hf Hfr.
  destruct (frame_inv _ _ _ _ Hfr) as (est & preds & Hu & Hfc & -> & _). simpl.
  pose proof (update_res_ids _ _ _ _ Hu) as Hres.
  destruct (update_ids _ _ _ _ Hf Hu) as ([Hsorted _] & _).
  destruct (forecast_keys _ _ _ _ _ Hfc) as [Hk Ho].
  split; [exact Hres |]. split.
  - rewrite Ho; [exact Hres | |].
    + rewrite Hres. now apply sorted_NoDup.
    + intros k _ [].
  - intros k. unfold Pipeline.drop_dead. rewrite fold_del_keys, <- Hres. split.
    + intros [Hin Hnd].
      destruct (set_mem k (map Estimator.s_id (Pipeline.states out))) eqn:E.
      * now apply set_mem_In.
      * exfalso. apply Hnd. apply filter_In. split; [exact Hin | now rewrite E].
    + intros Hin. split.
      * apply Hk. now right.
      * intros Hd. apply filter_In in Hd. destruct Hd as [_ Hd].
        apply set_mem_In in Hin. now rewrite Hin in Hd.
Qed.

Lemma forecasters_follow_tracks_witness :
  exists pl' out,
    Pipeline.frame (Pipeline.mkPipeline (Estimator.init 80)
                                        (Safety.mkMonitor (320, 240) 120) [])
                   [Estimator.mkDet 50 50 30 30; Estimator.mkDet 400 50 30 30]
    = Ok (pl', out) /\
    map fst (Pipeline.track_futures out) = [0; 1]%Z /\
    map fst (Pipeline.track_futures out)
    = Estimator.track_ids (Pipeline.estimator pl').
Proof.
  eexists. eexists. split; [reflexivity |]. split; [reflexivity |].
  eapply (proj1 (proj2 (forecasters_follow_tracks
                          (Pipeline.mkPipeline (Estimator.init 80)
                                               (Safety.mkMonitor (320, 240) 120) [])
                          _ [Estimator.mkDet 50 50 30 30; Estimator.mkDet 400 50 30 30]
                          _ _ _))).
  Unshelve.
  - split; constructor.
  - reflexivity.
Defined.

(** ** The actuator *)

Lemma step_ok (w_frame : Z) (danger : bool) (r : Actuator.Robot) :
  (110 < w_frame)%Z -> robot_ok w_frame r -> robot_ok w_frame (Actuator.step w_frame danger r).
Proof.
  intros Hw Hr. unfold Actuator.step, Actuator.ROBOT_SPEED.
  destruct danger; simpl; [exact Hr |].
  destruct r as [x d]. unfold robot_ok in *. simpl in *.
  destruct Hr as [[-> Hx] | [-> Hx]];
    repeat match goal with
           | |- context [(?u <=? ?v)%Z] => destruct (Z.leb_spec u v)
           end; simpl; lia.
Qed.

Lemma drive_ok (w_frame : Z) (dangers : list bool) :
  (110 < w_frame)%Z ->
  forall r, robot_ok w_frame r -> robot_ok w_frame (Actuator.drive w_frame dangers r).
Proof.
  intros Hw. unfold Actuator.drive.
  induction dangers as [| d rest IH]; intros r Hr; simpl; [exact Hr |].
  apply IH. now apply step_ok.
Qed.

(** X19.  The actuator gate: in a frame with danger the arm does not move
    at all; in a frame without danger it moves by exactly 3 pixels.  For a
    frame wider than 110 pixels the arm, started from its rest position,
    stays inside the frame whatever the danger flags are: its left end is at
    8 or more and its right end (80 pixels further) at least 8 pixels from
    the right edge. *)
Theorem arm_is_gated_and_stays_in_frame (w_frame : Z) (dangers : list bool)
        (r : Actuator.Robot) :
  Actuator.step w_frame true r = r /\
  Z.abs (Actuator.robot_x (Actuator.step w_frame false r) - Actuator.robot_x r)
  = (3 * Z.abs (Actuator.robot_dir r))%Z /\
  ((110 < w_frame)%Z ->
   (8 <= Actuator.robot_x (Actuator.drive w_frame dangers Actuator.rest))%Z /\
   (Actuator.robot_x (Actuator.drive w_frame dangers Actuator.rest) + 80 <= w_frame - 8)%Z /\
   Z.abs (Actuator.robot_dir (Actuator.drive w_frame dangers Actuator.rest)) = 1%Z).
Proof.
  split; [reflexivity |]. split.
  - unfold Actuator.step, Actuator.ROBOT_SPEED. cbn [negb].
    destruct (_ <=? _)%Z; [| destruct (_ <=? _)%Z]; cbn [Actuator.robot_x]; lia.
  - intros Hw.
    assert (H0 : robot_ok w_frame Actuator.rest) by (left; simpl; lia).
    pose proof (drive_ok w_frame dangers Hw _ H0) as H. unfold robot_ok in H.
    destruct H as [[-> Hx] | [-> Hx]]; lia.
Qed.

Lemma arm_is_gated_and_stays_in_frame_witness :
  (8 <= Actuator.robot_x
          (Actuator.drive 640 [false; false; true; false] Actuator.rest))%Z.
Proof.
  apply (proj2 (proj2 (arm_is_gated_and_stays_in_frame
                         640 [false; false; true; false] Actuator.rest))).
  lia.
Defined.

(** ** Colours *)

Lemma py_int_between (r : R) (lo hi : Z) :
  0 <= r -> IZR lo <= r < IZR hi + 1 -> (lo <= py_int r <= hi)%Z.
Proof.
  intros H0 [Hlo Hhi]. unfold py_int. destruct (Rle_dec 0 r); [| lra].
  destruct (base_Int_part r) as [Hle Hgt]. split.
  - assert (H : IZR lo < IZR (Int_part r + 1)) by (rewrite plus_IZR; lra).
    apply lt_IZR in H. lia.
  - assert (H : IZR (Int_part r) < IZR (hi + 1)) by (rewrite plus_IZR; lra).
    apply lt_IZR in H. lia.
Qed.

Lemma py_min_Rmin (a b : R) : Display.py_min a b = Rmin a b.
Proof.
  unfold Display.py_min, Rmin.
  destruct (Rltb b a) eqn:E; destruct (Rle_dec a b); try reflexivity.
  - apply Rltb_true in E. lra.
  - apply Rltb_false in E. lra.
Qed.

(** X20.  [speed_color] returns a colour for every speed that is not
    negative: blue is 0, green lies between 76 and 255 and red between 0
    and 255; a track at rest is pure green and a track at 8 pixels per frame
    or more has the fixed colour (0, 76, 255). *)
Theorem speed_color_is_a_colour (speed : R) :
  0 <= speed ->
  let '(b, g, r) := Display.speed_color speed in
  b = 0%Z /\ (76 <= g <= 255)%Z /\ byte r /\
  (speed = 0 -> (g, r) = (255%Z, 0%Z)) /\
  (8 <= speed -> (g, r) = (76%Z, 255%Z)).
Proof.
  intros Hs. unfold Display.speed_color, Display.SPEED_HIGH, byte.
  rewrite py_min_Rmin.
  assert (Ht : 0 <= Rmin (speed / 8) 1 <= 1).
  { apply Rmin_case_strong; intros; lra. }
  set (t := Rmin (speed / 8) 1) in *.
  split; [reflexivity |].
  split; [apply py_int_between; lra |].
  split; [apply py_int_between; lra |].
  split.
  - intros ->. assert (E : t = 0).
    { unfold t. replace (0 / 8) with 0 by lra. apply Rmin_left. lra. }
    rewrite E. f_equal.
    + apply py_int_floor; lra.
    + apply py_int_floor; lra.
  - intros H8. assert (E : t = 1) by (unfold t; apply Rmin_right; lra).
    rewrite E. f_equal.
    + apply py_int_floor; lra.
    + apply py_int_floor; lra.
Qed.

Lemma speed_color_is_a_colour_witness :
  Display.speed_color 0 = (0%Z, 255%Z, 0%Z).
Proof.
  pose proof (speed_color_is_a_colour 0 (Rle_refl 0)) as H.
  destruct (Display.speed_color 0) as [[b g] r].
  destruct H as (-> & _ & _ & H0 & _).
  injection (H0 eq_refl) as -> ->. reflexivity.
Defined.

Lemma max_severity_spec (events : list Safety.CollisionEvent) :
  forall best,
    In (Display.max_severity best events) (best :: events) /\
    forall e, In e (best :: events) ->
              Safety.severity e <= Safety.severity (Display.max_severity best events).
Proof.
  induction events as [| e rest IH]; intros best.
  - split; [now left |]. intros e [<- | []]. apply Rle_refl.
  - simpl Display.max_severity.
    destruct (Rltb (Safety.severity best) (Safety.severity e)) eqn:E.
    + apply Rltb_true in E. destruct (IH e) as [Hin Hmax]. split.
      * right. exact Hin.
      * intros e' [<- | Hin'].
        -- pose proof (Hmax e (or_introl eq_refl)). lra.
        -- now apply Hmax.
    + apply Rltb_false in E. destruct (IH best) as [Hin Hmax]. split.
      * destruct Hin as [<- | Hin]; [now left | right; now right].
      * intros e' [<- | [<- | Hin']].
        -- apply Hmax. now left.
        -- pose proof (Hmax best (or_introl eq_refl)). lra.
        -- apply Hmax. now right.
Qed.

(** X21.  The style of the protected zone: without events the circle is
    teal, thin and not filled; with the events of a frame it is thick, its
    colour is (0, g, 255) with g between 38 and 254, it is filled with an
    opacity above 0.12 and at most 0.24, and the marked point is the impact
    point of an event of greatest severity among them. *)
Theorem zone_style_of_a_frame (m : Safety.SafetyMonitor)
        (tracks : list (Z * list (R * R))) :
  let events := Safety.check_all m tracks in
  let st := Display.zone_style events in
  (events = [] ->
   st = Display.mkStyle (0%Z, 220%Z, 220%Z) 2 None) /\
  (events <> [] ->
   Display.thickness st = 3%Z /\
   (exists g, Display.color st = (0%Z, g, 255%Z) /\ (38 <= g <= 254)%Z) /\
   exists alpha worst,
     Display.fill st = Some (alpha, Safety.impact_point worst) /\
     12 / 100 < alpha <= 24 / 100 /\
     In worst events /\
     forall e, In e events -> Safety.severity e <= Safety.severity worst).
Proof.
  cbv zeta. split.
  - intros ->. reflexivity.
  - intros Hne.
    assert (Hsev : forall e, In e (Safety.check_all m tracks) ->
                             0 < Safety.severity e <= 1).
    { intros e He. apply check_all_in, collect_in in He.
      destruct He as (tid & pts & _ & Hc).
      pose proof (scan_spec m tid pts 0) as Hs. unfold Safety.check_track in Hc.
      change (Z.of_nat 0) with 0%Z in Hs. rewrite Hc in Hs.
      destruct Hs as (i & p & _ & Hin & _ & ->). unfold inside in Hin.
      pose proof (dist_to_center_nonneg m p) as H0.
      assert (Hr : 0 < Safety.radius m) by lra.
      assert (Hq : 0 <= dist_to_center m p / Safety.radius m < 1).
      { split.
        - apply Rmult_le_pos; [exact H0 |]. left. now apply Rinv_0_lt_compat.
        - apply (Rmult_lt_reg_r (Safety.radius m)); [exact Hr |].
          unfold Rdiv. rewrite Rmult_assoc, Rinv_l by lra. lra. }
      unfold event_at. cbn [Safety.severity].
      rewrite Rmax_right by lra. lra. }
    destruct (Safety.check_all m tracks) as [| e rest]; [contradiction |].
    destruct (max_severity_spec rest e) as [Hin Hmax].
    pose proof (Hsev _ Hin) as Hw. unfold Display.zone_style. cbv zeta.
    cbn [Display.thickness Display.color Display.fill].
    split; [reflexivity |]. split.
    + eexists. split; [reflexivity |]. apply py_int_between; lra.
    + do 2 eexists. split; [reflexivity |]. split; [lra |]. split; [exact Hin | exact Hmax].
Qed.

Lemma zone_style_of_a_frame_witness :
  Display.zone_style (Safety.check_all (Safety.mkMonitor (320, 240) 0) [(1%Z, [(320, 240)])])
  = Display.mkStyle (0%Z, 220%Z, 220%Z) 2 None.
Proof.
  apply (proj1 (zone_style_of_a_frame (Safety.mkMonitor (320, 240) 0)
                                      [(1%Z, [(320, 240)])])).
  unfold Safety.check_all. cbn [Safety.collect]. unfold Safety.check_track.
  rewrite scan_nonpositive_radius by (simpl; lra). reflexivity.
Defined.

(** ** Starvation of the whole pool *)

Lemma quiet_frame_misses (n : Z) (s : Estimator.StateEstimator) :
  Forall (fun t => (n <= Kalman.missed t)%Z) (Estimator.tracks s) ->
  exists s' res,
    Estimator.update s [] = Ok (s', res) /\
    Forall (fun t => (n + 1 <= Kalman.missed t < 10)%Z) (Estimator.tracks s') /\
    length (Estimator.track_ids s') = length (Estimator.tracks s') /\
    Estimator.next_id s' = Estimator.next_id s.
Proof.
  intros Hn. rewrite update_quiet. cbv zeta. do 2 eexists. split; [reflexivity |].
  simpl. split; [| split; [now rewrite !length_map | reflexivity]].
  rewrite Forall_forall in *. intros t' Ht'. apply in_map_iff in Ht'.
  destruct Ht' as ([t0 i0] & <- & Hin). unfold Estimator.alive in Hin.
  apply filter_In in Hin. destruct Hin as [Hin Hs]. apply in_combine_l in Hin.
  apply in_map_iff in Hin. destruct Hin as (t & <- & Ht). simpl in *.
  unfold Kalman.stale, Kalman.max_missed in Hs.
  change (Kalman.missed (Kalman.predict t)) with (Kalman.missed t + 1)%Z in *.
  specialize (Hn t Ht).
  destruct (Z.leb_spec 10 (Kalman.missed t + 1)); [discriminate | lia].
Qed.

Lemma quiet_run_misses (k : nat) :
  forall n s,
    Forall (fun t => (n <= Kalman.missed t)%Z) (Estimator.tracks s) ->
    (0 < k)%nat ->
    exists s',
      run_frames s (repeat [] k) = Ok s' /\
      Forall (fun t => (n + Z.of_nat k <= Kalman.missed t < 10)%Z) (Estimator.tracks s') /\
      length (Estimator.track_ids s') = length (Estimator.tracks s') /\
      Estimator.next_id s' = Estimator.next_id s.
Proof.
  induction k as [| k IH]; intros n s Hn Hk; [lia |].
  destruct (quiet_frame_misses n s Hn) as (s1 & res & Eu & H1 & Hl1 & Hid1).
  cbn [repeat run_frames]. rewrite Eu. cbn [bind fst].
  destruct k as [| k'].
  - exists s1. split; [reflexivity |]. split; [| split; assumption].
    eapply Forall_impl; [| exact H1]. simpl. intros t Ht. lia.
  - destruct (IH (n + 1)%Z s1) as (s' & Er & H' & Hl' & Hid'); [| lia |].
    + eapply Forall_impl; [| exact H1]. simpl. intros t Ht. lia.
    + exists s'. split; [exact Er |]. split; [| split; [exact Hl' | congruence]].
      eapply Forall_impl; [| exact H']. simpl. intros t Ht. lia.
Qed.

(** X22.  Ten consecutive frames without detections empty the pool,
    whatever it held: every track whose missed count is not negative is
    gone, the run never fails, and the identifier counter is left as it
    was. *)
Theorem ten_quiet_frames_empty_the_pool (s : Estimator.StateEstimator) :
  Forall (fun t => (0 <= Kalman.missed t)%Z) (Estimator.tracks s) ->
  exists s',
    run_frames s (repeat [] 10) = Ok s' /\
    Estimator.tracks s' = [] /\
    Estimator.track_ids s' = [] /\
    Estimator.next_id s' = Estimator.next_id s.
Proof.
  intros H0.
  destruct (quiet_run_misses 10 0%Z s H0 ltac:(lia)) as (s' & Er & H' & Hl & Hid).
  exists s'. split; [exact Er |].
  assert (Ht : Estimator.tracks s' = []).
  { destruct (Estimator.tracks s') as [| t r]; [reflexivity |].
    inversion H' as [| ? ? Hm _]; subst. simpl in Hm. lia. }
  split; [exact Ht |]. split; [| exact Hid].
  rewrite Ht in Hl. destruct (Estimator.track_ids s'); [reflexivity | discriminate].
Qed.

Lemma ten_quiet_frames_empty_the_pool_witness :
  exists s',
    run_frames (Estimator.mkEstimator [Kalman.init 0 0; Kalman.init 50 50] 80 2 [0; 1]%Z)
               (repeat [] 10) = Ok s' /\
    Estimator.tracks s' = [].
Proof.
  destruct (ten_quiet_frames_empty_the_pool
              (Estimator.mkEstimator [Kalman.init 0 0; Kalman.init 50 50] 80 2 [0; 1]%Z))
    as (s' & Er & Ht & _).
  - repeat constructor; simpl; lia.
  - exists s'. split; [exact Er | exact Ht].
Defined.

(** ** A track in the frame of its birth *)

Lemma map_const_repeat {A B : Type} (c : B) (l : list A) :
  map (fun _ => c) l = repeat c (length l).
Proof. induction l as [| a l IH]; simpl; [reflexivity | now rewrite IH]. Qed.

Lemma scan_all_outside (m : Safety.SafetyMonitor) (tid i : Z) (pts : list (R * R)) :
  Forall (fun q => ~ inside m q) pts -> Safety.scan m tid i pts = None.
Proof.
  intros Hout. rewrite <- (app_nil_r pts).
  now rewrite (scan_outside_prefix m tid pts [] Hout).
Qed.

(** X23.  A track born from a detection has zero velocity and a fresh
    forecaster, so its first forecast is 40 copies of the detection centre:
    a detection that appears inside the protected zone is a threat at frame
    1 in the very frame of its birth, and one that appears outside the zone
    gives no event in that frame. *)
Theorem newborn_track_threat (m : Safety.SafetyMonitor) (d : Estimator.Detection)
        (tid : Z) (p : Predictor.TrajectoryPredictor) :
  Predictor.init 8 Pipeline.HORIZON = Ok p ->
  let c := (IZR (Estimator.det_cx d), IZR (Estimator.det_cy d)) in
  let forecast :=
    snd (Predictor.update_and_predict p
           (fst (Kalman.position (born d))) (snd (Kalman.position (born d)))
           (fst (Kalman.velocity (born d))) (snd (Kalman.velocity (born d)))) in
  forecast = repeat c 40 /\
  (inside m c ->
   Safety.check_track m tid forecast
   = Some (Safety.mkEvent tid 1 (Estimator.det_cx d, Estimator.det_cy d)
                          (1 - dist_to_center m c / Safety.radius m))) /\
  (~ inside m c -> Safety.check_track m tid forecast = None).
Proof.
  intros Hi c forecast. injection Hi as <-.
  assert (Hf : forecast = repeat c 40).
  { unfold forecast, Predictor.update_and_predict, Predictor.deque_append.
    cbn [Predictor.history_len Predictor.vx_hist Predictor.vy_hist Predictor.horizon
         Z.eqb Z.ltb Z.compare length Z.of_nat app Pos.compare Pos.compare_cont snd].
    unfold Predictor.predict_linear, born, Kalman.position, Kalman.velocity, Kalman.init.
    cbn [Kalman.x Kalman.entry nth fst snd].
    rewrite (map_ext _ (fun _ => c)).
    - rewrite map_const_repeat, py_range_length. reflexivity.
    - intros t. unfold c. f_equal; ring. }
  split; [exact Hf |]. rewrite Hf. split.
  - intros Hin. pose proof (dist_to_center_nonneg m c) as H0.
    unfold inside in Hin.
    assert (Hr : 0 < Safety.radius m) by lra.
    assert (Hq : dist_to_center m c / Safety.radius m < 1).
    { apply (Rmult_lt_reg_r (Safety.radius m)); [exact Hr |].
      unfold Rdiv. rewrite Rmult_assoc, Rinv_l by lra. lra. }
    unfold Safety.check_track. cbn [repeat Safety.scan].
    unfold dist_to_center in *. destruct (Safety.zone_center m) as [zx zy].
    cbn [fst snd c] in *.
    rewrite (proj2 (Rltb_true _ _) Hin), !py_int_IZR, py_max_Rmax, Rmax_right by lra.
    reflexivity.
  - intros Hout. apply scan_all_outside.
    apply Forall_forall. intros q Hq. apply repeat_spec in Hq. now subst q.
Qed.

Lemma newborn_track_threat_witness :
  Safety.check_track (Safety.mkMonitor (320, 240) 120) 7
    (snd (Predictor.update_and_predict (Predictor.mkPredictor 40 8 [] [])
            (fst (Kalman.position (born (Estimator.mkDet 300 240 30 30))))
            (snd (Kalman.position (born (Estimator.mkDet 300 240 30 30))))
            (fst (Kalman.velocity (born (Estimator.mkDet 300 240 30 30))))
            (snd (Kalman.velocity (born (Estimator.mkDet 300 240 30 30))))))
  = Some (Safety.mkEvent 7 1 (300%Z, 240%Z)
            (1 - dist_to_center (Safety.mkMonitor (320, 240) 120) (300, 240) / 120)).
Proof.
  apply (proj1 (proj2 (newborn_track_threat (Safety.mkMonitor (320, 240) 120)
                         (Estimator.mkDet 300 240 30 30) 7 _ eq_refl))).
  unfold inside, dist_to_center. simpl. rewrite hypot_lt. lra.
Defined.
